(** * ECH scenario simulation engine: a shallow embedding

    The definitions below follow [backend/scenario_engine.py],
    [backend/models.py] and [backend/app.py].

    Numbers.  Python [int] and [float] values are modelled by exact
    rationals ([Q]); float rounding error, overflow and NaN are outside the
    model.  Equality of numbers is [Qeq] (written [==]).  A baseline series
    is an array of floats, as the data generator writes it.  An [int]
    beyond the range of a float makes Python raise [OverflowError] where it
    is divided with [/] or meets a float in arithmetic; the model has no
    such error, and a statement that asserts a result, or lists the
    exceptions that can be raised, takes its numbers within that range
    ([in_float_range]).

    Errors.  A Python exception is a [Raise e] result.

    Randomness.  NumPy's global generator is an explicit state that is
    threaded through every function that draws from it or re-seeds it. *)

From stdpp Require Import base strings gmap list.
From Stdlib Require Import QArith Qround Qabs Lqa Lia ZArith.

Local Open Scope Q_scope.
Local Open Scope string_scope.

(** ** Exceptions and results *)

Inductive exn : Set :=
| ZeroDivisionError
| TypeError
| ValueError
| IndexError
| AttributeError
| ProphetError.

Inductive result (A : Type) : Type :=
| Ok (a : A)
| Raise (e : exn).
Arguments Ok {A} a.
Arguments Raise {A} e.

Definition result_bind {A B : Type} (m : result A) (k : A → result B) : result B :=
  match m with
  | Ok a => k a
  | Raise e => Raise e
  end.

#[global] Instance result_ret : MRet result := @Ok.
#[global] Instance result_mbind : MBind result := fun A B k m => result_bind m k.

Definition is_ok {A : Type} (r : result A) : bool :=
  match r with Ok _ => true | Raise _ => false end.

(** ** Python values and arithmetic *)

(** A parameter value as it arrives from JSON: a number or a string.
    These are the values of every default in the catalog; JSON [null],
    booleans, lists and objects as override values are outside the model. *)
Inductive value : Type :=
| VNum (q : Q)
| VStr (s : string).

(** Arithmetic on a string operand raises [TypeError]. *)
Definition num (v : value) : result Q :=
  match v with
  | VNum q => Ok q
  | VStr _ => Raise TypeError
  end.

(** [a / b] *)
Definition py_truediv (a b : Q) : result Q :=
  if Qeq_bool b 0 then Raise ZeroDivisionError else Ok (a / b).

(** [a // b]: the floor of the quotient. *)
Definition py_floordiv (a b : Q) : result Q :=
  if Qeq_bool b 0 then Raise ZeroDivisionError else Ok (inject_Z (Qfloor (a / b))).

(** [min(a, b)] returns [b] when [b < a] and [a] otherwise. *)
Definition py_min (a b : Q) : Q := if Qle_bool a b then a else b.

(** [max(a, b)] returns [b] when [b > a] and [a] otherwise. *)
Definition py_max (a b : Q) : Q := if Qle_bool b a then a else b.

(** [int(x)] truncates toward zero. *)
Definition py_int (x : Q) : Z :=
  if Qle_bool 0 x then Qfloor x else Qceiling x.

(** Rounding to the nearest integer, ties to the even neighbour. *)
Definition round_half_even (x : Q) : Z :=
  let f := Qfloor x in
  match Qcompare (x - inject_Z f) 0.5 with
  | Lt => f
  | Gt => (f + 1)%Z
  | Eq => if Z.even f then f else (f + 1)%Z
  end.

(** [round(x, ndigits)] on the exact value of [x], ties to even; Python
    rounds the double that [x] is stored as. *)
Definition py_round (x : Q) (ndigits : nat) : Q :=
  let scale := inject_Z (10 ^ Z.of_nat ndigits) in
  inject_Z (round_half_even (x * scale)) / scale.

(** ** Parameter sets: [dict] from name to value *)

(** [params.get(key, default)] *)
Definition param_get (params : gmap string value) (key : string) (default : value) : value :=
  match params !! key with
  | Some v => v
  | None => default
  end.

(** [params.get(key, default)] used as a number. *)
Definition param_num (params : gmap string value) (key : string) (default : Q) : result Q :=
  num (param_get params key (VNum default)).

(** The body of the merge loop of [apply_scenario]:
    [if key in params: params[key] = value]. *)
Definition merge_step (params : gmap string value) (kv : string * value) : gmap string value :=
  if decide (is_Some (params !! kv.1)) then <[kv.1 := kv.2]> params else params.

(** [params = scenario['parameters'].copy()] followed by the loop over
    [custom_params.items()]; [None] and the empty dict skip the loop. *)
Definition merge_params (defaults : gmap string value)
    (custom_params : option (list (string * value))) : gmap string value :=
  match custom_params with
  | None => defaults
  | Some items => foldl merge_step defaults items
  end.

(** ** Effect vectors *)

(** [self.regions] *)
Definition regions : list string := ["us_ech"; "eu_ech"; "asia_ech"; "china_ech"].

(** The dict literal [{'us_ech': .., 'eu_ech': .., 'asia_ech': .., 'china_ech': ..}]. *)
Definition effects_dict (us eu asia china : Q) : gmap string Q :=
  <["us_ech" := us]> (<["eu_ech" := eu]> (<["asia_ech" := asia]> (<["china_ech" := china]> ∅))).

(** ** Effect formulas, one per logic tag

    The formulas take their parameters within the range of a float: on an
    [int] beyond it, [duration / 12] and the products with float constants
    raise [OverflowError] in Python, which the model leaves out. *)

Definition _logic_demand_growth (params : gmap string value) : result (gmap string Q) :=
  growth ← param_num params "demand_growth_rate" 0.033;
  elasticity ← param_num params "price_elasticity" 0.6;
  duration ← param_num params "duration_months" 24;
  let duration_years := duration / 12 in
  let cumulative_growth := growth * duration_years in
  let price_effect := cumulative_growth * elasticity in
  Ok (effects_dict (price_effect * 0.9) (price_effect * 1.0)
                   (price_effect * 1.1) (price_effect * 1.15)).

Definition _logic_apac_growth (params : gmap string value) : result (gmap string Q) :=
  premium ← param_num params "apac_growth_premium" 0.02;
  spillover ← param_num params "global_spillover" 0.3;
  duration ← param_num params "duration_months" 18;
  let duration_years := duration / 12 in
  let apac_effect := premium * duration_years * 0.6 in
  let global_effect := apac_effect * spillover * 0.59 in
  Ok (effects_dict global_effect (global_effect * 1.1) apac_effect (apac_effect * 1.1)).

Definition _logic_bio_adoption (params : gmap string value) : result (gmap string Q) :=
  adoption ← param_num params "bio_adoption_rate" 0.04;
  glycerine_cost ← param_num params "glycerine_cost_factor" 1.0;
  duration ← param_num params "duration_months" 36;
  let duration_years := duration / 12 in
  let bio_effect := adoption * duration_years in
  Ok (effects_dict (bio_effect * 0.02) (bio_effect * glycerine_cost * 0.08)
                   (bio_effect * -0.05) (bio_effect * -0.06)).

Definition _logic_epoxy_demand (params : gmap string value) : result (gmap string Q) :=
  epoxy_growth ← param_num params "epoxy_demand_growth" 0.05;
  infra_boost ← param_num params "infrastructure_boost" 0.0;
  duration ← param_num params "duration_months" 12;
  let duration_years := duration / 12 in
  let total_demand := (epoxy_growth + infra_boost) * 0.86 in
  let price_effect := total_demand * duration_years * 0.7 in
  Ok (effects_dict (price_effect * 0.9) (price_effect * 1.0)
                   (price_effect * 1.1) (price_effect * 1.15)).

Definition _logic_feedstock_shift (params : gmap string value) : result (gmap string Q) :=
  glycerine_shift ← param_num params "glycerine_share_change" 0.1;
  propylene_change ← param_num params "propylene_price_change" 0.0;
  glycerine_change ← param_num params "glycerine_price_change" 0.0;
  Ok (effects_dict
        (propylene_change * 0.4 + glycerine_shift * 0.02)
        (propylene_change * 0.35 + glycerine_change * 0.15 + glycerine_shift * 0.05)
        (glycerine_change * 0.4 - glycerine_shift * 0.04)
        (glycerine_change * 0.45 - glycerine_shift * 0.05)).

Definition _logic_eu_regulatory (params : gmap string value) : result (gmap string Q) :=
  supply_cut ← param_num params "supply_reduction" 0.15;
  compliance ← param_num params "compliance_cost" 0.10;
  duration ← param_num params "duration_months" 36;
  let duration_years := duration / 12 in
  let eu_effect := (supply_cut * 0.5 + compliance) * py_min duration_years 2 in
  Ok (effects_dict (supply_cut * 0.02) eu_effect (- supply_cut * 0.02) (- supply_cut * 0.03)).

Definition _logic_asian_advantage (params : gmap string value) : result (gmap string Q) :=
  cost_advantage ← param_num params "glycerine_cost_advantage" 0.15;
  intensity ← param_num params "competitive_intensity" 0.5;
  duration ← param_num params "duration_months" 18;
  let duration_years := duration / 12 in
  let asia_effect := - cost_advantage * intensity * py_min duration_years 1.5 in
  Ok (effects_dict (- cost_advantage * intensity * 0.3) (- cost_advantage * intensity * 0.2)
                   asia_effect (asia_effect * 1.1)).

(** [region == name] for a parameter value and a string literal. *)
Definition value_is_str (v : value) (name : string) : bool :=
  match v with
  | VStr s => bool_decide (s = name)
  | VNum _ => false
  end.

Definition _logic_plant_shutdown (params : gmap string value) : result (gmap string Q) :=
  offline ← param_num params "capacity_offline" 0.10;
  let region := param_get params "region_affected" (VStr "eu") in
  duration_months ← param_num params "duration_months" 6;
  let supply_elasticity := 1.7 in
  let direct_effect := offline * supply_elasticity in
  let effects := effects_dict 0.0 0.0 0.0 0.0 in
  let duration_factor := py_min (duration_months / 6) 1.5 in
  if value_is_str region "eu" then
    Ok (<["china_ech" := direct_effect * 0.1]>
        (<["asia_ech" := direct_effect * 0.15]>
         (<["us_ech" := direct_effect * 0.2]>
          (<["eu_ech" := direct_effect * duration_factor]> effects))))
  else if value_is_str region "us" then
    Ok (<["eu_ech" := direct_effect * 0.15]>
        (<["us_ech" := direct_effect * duration_factor]> effects))
  else if value_is_str region "asia" || value_is_str region "china" then
    Ok (<["us_ech" := direct_effect * 0.05]>
        (<["eu_ech" := direct_effect * 0.1]>
         (<["china_ech" := direct_effect * duration_factor]>
          (<["asia_ech" := direct_effect * duration_factor * 0.9]> effects))))
  else Ok effects.

Definition _logic_supply_disruption (params : gmap string value) : result (gmap string Q) :=
  severity ← param_num params "disruption_severity" 0.20;
  recovery ← param_num params "recovery_months" 4;
  duration ← param_num params "duration_months" 8;
  let peak_effect := severity * 1.5 in
  ratio ← py_truediv recovery (duration * 2);
  let avg_effect := peak_effect * (1 - ratio) in
  Ok (effects_dict (avg_effect * 0.8) (avg_effect * 1.0) (avg_effect * 0.9) (avg_effect * 0.85)).

Definition _logic_capacity_expansion (params : gmap string value) : result (gmap string Q) :=
  addition ← param_num params "capacity_addition" 0.15;
  ramp_up ← param_num params "ramp_up_months" 6;
  duration ← param_num params "duration_months" 24;
  ratio ← py_truediv ramp_up (duration * 2);
  let effective_addition := addition * (1 - ratio) in
  let price_effect := - effective_addition * 0.8 in
  Ok (effects_dict (price_effect * 0.4) (price_effect * 0.5)
                   (price_effect * 1.0) (price_effect * 1.1)).

Definition _logic_americas_stability (params : gmap string value) : result (gmap string Q) :=
  isolation ← param_num params "isolation_factor" 0.7;
  pressure ← param_num params "competitive_pressure" 0.0;
  Ok (effects_dict (- pressure * 0.5) (0.02 * (1 - isolation))
                   (0.03 * (1 - isolation)) (0.03 * (1 - isolation))).

Definition _logic_europe_elevation (params : gmap string value) : result (gmap string Q) :=
  reduction ← param_num params "capacity_reduction" 0.12;
  import_dep ← param_num params "import_dependency" 0.2;
  duration ← param_num params "duration_months" 18;
  let duration_years := duration / 12 in
  let eu_effect := reduction * 1.5 + import_dep * 0.3 in
  let eu_effect := eu_effect * py_min duration_years 1.5 in
  Ok (effects_dict (reduction * 0.1) eu_effect (- reduction * 0.05) (- reduction * 0.05)).

Definition _logic_apac_pressure (params : gmap string value) : result (gmap string Q) :=
  feedstock ← param_num params "feedstock_pressure" 0.08;
  shutdown ← param_num params "shutdown_impact" 0.05;
  duration ← param_num params "duration_months" 12;
  let duration_years := duration / 12 in
  let combined := (feedstock + shutdown * 1.5) * py_min duration_years 1 in
  Ok (effects_dict (combined * 0.15) (combined * 0.2) combined (combined * 1.1)).

Definition _logic_asian_undercut (params : gmap string value) : result (gmap string Q) :=
  discount ← param_num params "price_discount" 0.10;
  share_target ← param_num params "market_share_target" 0.05;
  duration ← param_num params "duration_months" 18;
  let duration_years := duration / 12 in
  let asia_cut := - discount * py_min duration_years 1.5 in
  let pressure := discount * share_target * 5 in
  Ok (effects_dict (- pressure * 0.6) (- pressure * 0.5) asia_cut (asia_cut * 1.1)).

Definition _logic_eu_constraints (params : gmap string value) : result (gmap string Q) :=
  constraint ← param_num params "supply_constraint" 0.15;
  power ← param_num params "pricing_power" 0.8;
  duration ← param_num params "duration_months" 24;
  let duration_years := duration / 12 in
  let eu_increase := constraint * power * py_min duration_years 2 in
  Ok (effects_dict (constraint * 0.05) eu_increase (- constraint * 0.03) (- constraint * 0.04)).

(** The two parameters this formula reads are never used in it. *)
Definition _logic_us_stable (params : gmap string value) : result (gmap string Q) :=
  let stability := param_get params "output_stability" (VNum 0.95) in
  let vol_reduction := param_get params "price_volatility_reduction" (VNum 0.3) in
  Ok (effects_dict 0.0 0.01 0.015 0.02).

(** [{r: 0.0 for r in self.regions}] *)
Definition _logic_default (params : gmap string value) : result (gmap string Q) :=
  Ok (list_to_map ((fun r => (r, 0.0)) <$> regions)).

(** The dispatch table of [_calculate_price_effects], as written. *)
Definition handlers_table : list (string * (gmap string value → result (gmap string Q))) :=
  [ ("demand_growth", _logic_demand_growth);
    ("apac_growth", _logic_apac_growth);
    ("bio_adoption", _logic_bio_adoption);
    ("epoxy_demand", _logic_epoxy_demand);
    ("feedstock_shift", _logic_feedstock_shift);
    ("eu_regulatory", _logic_eu_regulatory);
    ("asian_advantage", _logic_asian_advantage);
    ("plant_shutdown", _logic_plant_shutdown);
    ("supply_disruption", _logic_supply_disruption);
    ("capacity_expansion", _logic_capacity_expansion);
    ("americas_stability", _logic_americas_stability);
    ("europe_elevation", _logic_europe_elevation);
    ("apac_pressure", _logic_apac_pressure);
    ("asian_undercut", _logic_asian_undercut);
    ("eu_constraints", _logic_eu_constraints);
    ("us_stable", _logic_us_stable) ].

(** The table as a dict. *)
Definition handlers : gmap string (gmap string value → result (gmap string Q)) :=
  list_to_map handlers_table.

(** ** The scenario catalog ([models.py]) *)

(** A scenario entry.  The descriptive fields ([description],
    [affected_regions], [math_info]) are copied to the output untouched and
    take no part in any computation; they are left out. *)
Record scenario : Type := Scenario {
  sc_id : Z;
  sc_name : string;
  sc_category : string;
  sc_parameters : gmap string value;
  sc_logic : option string          (* [None]: the entry has no 'logic' key *)
}.

(** [scenario.get('logic', 'default')], then [handlers.get(logic, self._logic_default)]. *)
Definition _calculate_price_effects (sc : scenario) (params : gmap string value)
    : result (gmap string Q) :=
  let logic := default "default" (sc_logic sc) in
  let handler := default _logic_default (handlers !! logic) in
  handler params.

(** The sixteen entries of [SCENARIOS] with their default parameters. *)

Definition scenario_1 : scenario :=
  Scenario 1 "Global Demand Growth" "demand"
    (list_to_map [("demand_growth_rate", VNum 0.033); ("duration_months", VNum 24); ("price_elasticity", VNum 0.6)])
    (Some "demand_growth").

Definition scenario_2 : scenario :=
  Scenario 2 "APAC Accelerated Growth" "demand"
    (list_to_map [("apac_growth_premium", VNum 0.02); ("global_spillover", VNum 0.3); ("duration_months", VNum 18)])
    (Some "apac_growth").

Definition scenario_3 : scenario :=
  Scenario 3 "Bio-based ECH Adoption" "feedstock"
    (list_to_map [("bio_adoption_rate", VNum 0.04); ("glycerine_cost_factor", VNum 1.0); ("duration_months", VNum 36)])
    (Some "bio_adoption").

Definition scenario_4 : scenario :=
  Scenario 4 "Epoxy-Driven Demand" "demand"
    (list_to_map [("epoxy_demand_growth", VNum 0.05); ("infrastructure_boost", VNum 0.0); ("duration_months", VNum 12)])
    (Some "epoxy_demand").

Definition scenario_5 : scenario :=
  Scenario 5 "Feedstock Route Shift" "feedstock"
    (list_to_map [("glycerine_share_change", VNum 0.1); ("propylene_price_change", VNum 0.0); ("glycerine_price_change", VNum 0.0); ("duration_months", VNum 24)])
    (Some "feedstock_shift").

Definition scenario_6 : scenario :=
  Scenario 6 "EU Regulatory Impact" "regulatory"
    (list_to_map [("supply_reduction", VNum 0.15); ("compliance_cost", VNum 0.10); ("duration_months", VNum 36)])
    (Some "eu_regulatory").

Definition scenario_7 : scenario :=
  Scenario 7 "Asian Glycerine Advantage" "feedstock"
    (list_to_map [("glycerine_cost_advantage", VNum 0.15); ("competitive_intensity", VNum 0.5); ("duration_months", VNum 18)])
    (Some "asian_advantage").

Definition scenario_8 : scenario :=
  Scenario 8 "Plant Shutdowns" "supply"
    (list_to_map [("capacity_offline", VNum 0.10); ("region_affected", VStr "eu"); ("duration_months", VNum 6)])
    (Some "plant_shutdown").

Definition scenario_9 : scenario :=
  Scenario 9 "Supply Chain Disruption" "supply"
    (list_to_map [("disruption_severity", VNum 0.20); ("recovery_months", VNum 4); ("duration_months", VNum 8)])
    (Some "supply_disruption").

Definition scenario_10 : scenario :=
  Scenario 10 "Capacity Expansion" "supply"
    (list_to_map [("capacity_addition", VNum 0.15); ("ramp_up_months", VNum 6); ("duration_months", VNum 24)])
    (Some "capacity_expansion").

Definition scenario_11 : scenario :=
  Scenario 11 "Americas Market Stability" "regional"
    (list_to_map [("isolation_factor", VNum 0.7); ("competitive_pressure", VNum 0.0); ("duration_months", VNum 24)])
    (Some "americas_stability").

Definition scenario_12 : scenario :=
  Scenario 12 "Europe Price Elevation" "regional"
    (list_to_map [("capacity_reduction", VNum 0.12); ("import_dependency", VNum 0.2); ("duration_months", VNum 18)])
    (Some "europe_elevation").

Definition scenario_13 : scenario :=
  Scenario 13 "APAC Price Pressure" "regional"
    (list_to_map [("feedstock_pressure", VNum 0.08); ("shutdown_impact", VNum 0.05); ("duration_months", VNum 12)])
    (Some "apac_pressure").

Definition scenario_14 : scenario :=
  Scenario 14 "Asian Price Undercutting" "competitive"
    (list_to_map [("price_discount", VNum 0.10); ("market_share_target", VNum 0.05); ("duration_months", VNum 18)])
    (Some "asian_undercut").

Definition scenario_15 : scenario :=
  Scenario 15 "EU Supply Constraints" "competitive"
    (list_to_map [("supply_constraint", VNum 0.15); ("pricing_power", VNum 0.8); ("duration_months", VNum 24)])
    (Some "eu_constraints").

Definition scenario_16 : scenario :=
  Scenario 16 "US Stable Production" "competitive"
    (list_to_map [("output_stability", VNum 0.95); ("price_volatility_reduction", VNum 0.3); ("duration_months", VNum 36)])
    (Some "us_stable").

Definition SCENARIOS_list : list scenario :=
  [ scenario_1; scenario_2; scenario_3; scenario_4;
    scenario_5; scenario_6; scenario_7; scenario_8;
    scenario_9; scenario_10; scenario_11; scenario_12;
    scenario_13; scenario_14; scenario_15; scenario_16 ].

(** [SCENARIOS], keyed by id. *)
Definition SCENARIOS : gmap Z scenario :=
  list_to_map ((fun sc => (sc_id sc, sc)) <$> SCENARIOS_list).

(** [get_scenario(scenario_id)] is [SCENARIOS.get(scenario_id)]. *)
Definition get_scenario (scenario_id : Z) : option scenario := SCENARIOS !! scenario_id.

(** ** Calendar dates

    The engine keeps its period labels as ['%Y-%m-%d'] strings and parses
    the last one with [strptime]; the model keeps them parsed. *)

Record date : Set := Date { year : Z; month : Z; day : Z }.

Definition is_leap (y : Z) : bool :=
  ((y mod 4 =? 0) && negb (y mod 100 =? 0) || (y mod 400 =? 0))%Z.

(** [calendar.monthrange(y, m)[1]] *)
Definition days_in_month (y m : Z) : Z :=
  if (m =? 2)%Z then (if is_leap y then 29 else 28)%Z
  else if ((m =? 4) || (m =? 6) || (m =? 9) || (m =? 11))%Z then 30%Z
  else 31%Z.

(** Months since year 0 of a date: the calendar month it lies in. *)
Definition month_index (d : date) : Z := (year d * 12 + (month d - 1))%Z.

(** [d + relativedelta(months=k)]: the month moves by [k] calendar months,
    the year carries, and the day is clipped to the length of the target month. *)
Definition add_months (d : date) (k : Z) : date :=
  let t := (month d - 1 + k)%Z in
  let y := (year d + t / 12)%Z in
  let m := (t mod 12 + 1)%Z in
  Date y m (Z.min (day d) (days_in_month y m)).

(** [[(last_date + relativedelta(months=i + 1)) for i in range(months)]] *)
Definition forecast_dates (last_date : date) (months : nat) : list date :=
  (fun i : nat => add_months last_date (Z.of_nat i + 1)) <$> seq 0 months.

(** ** Sequences *)

(** [xs[i]] for [0 <= i]. *)
Definition py_index {A : Type} (xs : list A) (i : nat) : result A :=
  match xs !! i with
  | Some x => Ok x
  | None => Raise IndexError
  end.

(** [xs[i] = v] for [0 <= i]. *)
Definition py_setitem {A : Type} (xs : list A) (i : nat) (v : A) : result (list A) :=
  if decide (i < length xs)%nat then Ok (<[i := v]> xs) else Raise IndexError.

(** [xs[-1]] *)
Definition py_last {A : Type} (xs : list A) : result A :=
  match last xs with
  | Some x => Ok x
  | None => Raise IndexError
  end.

(** [xs[-n:]] *)
Definition py_tail {A : Type} (n : nat) (xs : list A) : list A :=
  drop (length xs - n) xs.

Definition Qsum (xs : list Q) : Q := foldr Qplus 0 xs.

(** [np.mean(xs)]; the mean of an empty array is NaN, here [None]. *)
Definition np_mean (xs : list Q) : option Q :=
  match xs with
  | [] => None
  | _ => Some (Qsum xs / inject_Z (Z.of_nat (length xs)))
  end.

Definition Qltb (a b : Q) : bool := negb (Qle_bool b a).

(** [np.max(xs)] and [np.min(xs)] raise [ValueError] on an empty array. *)
Definition np_max (xs : list Q) : result Q :=
  match xs with
  | [] => Raise ValueError
  | x :: rest => Ok (foldl (fun m y => if Qltb m y then y else m) x rest)
  end.

Definition np_min (xs : list Q) : result Q :=
  match xs with
  | [] => Raise ValueError
  | x :: rest => Ok (foldl (fun m y => if Qltb y m then y else m) x rest)
  end.

(** A natural number used as a Python number. *)
Definition QN (n : nat) : Q := inject_Z (Z.of_nat n).

(** ** The engine object *)

(** [self.prophet_config] *)
Record prophet_config_t : Type := ProphetConfig {
  yearly_seasonality : bool;
  weekly_seasonality : bool;
  daily_seasonality : bool;
  seasonality_mode : string;
  changepoint_prior_scale : Q;
  seasonality_prior_scale : Q;
  interval_width : Q
}.

(** The state of a [ScenarioEngine]: the baseline read at construction and
    the forecasting configuration.  [self.regions] is the constant [regions]. *)
Record engine : Type := Engine {
  dates : list date;
  prices : gmap string (list Q);
  prophet_config : prophet_config_t
}.

(** The configuration set by [__init__]. *)
Definition default_prophet_config : prophet_config_t :=
  ProphetConfig true false false "multiplicative" 0.05 10 0.95.

(** One row of the frame returned by Prophet's [predict]. *)
Record prophet_row : Type := ProphetRow {
  yhat : Q;
  yhat_lower : Q;
  yhat_upper : Q;
  trend : Q;
  yearly : Q
}.

(** The frame returned by [predict], and whether it has a ['yearly'] column. *)
Record prophet_frame : Type := ProphetFrame {
  pf_rows : list prophet_row;
  pf_has_yearly : bool
}.

(** The per-region entry of a forecast. *)
Record region_forecast : Type := RegionForecast {
  point : list Q;
  lower_95 : list Q;
  upper_95 : list Q;
  fc_trend : option (list Q);
  fc_seasonality : option (list Q)
}.

(** The forecast dict: the per-region entries in insertion order, and the
    ['dates'], ['model'] and ['confidence_interval'] entries. *)
Record forecast_t : Type := Forecast {
  fc_regions : list (string * region_forecast);
  fc_dates : list date;
  fc_model : string;
  fc_confidence_interval : string
}.

(** The per-region entry of the metrics; [None] stands for NaN. *)
Record region_metrics : Type := RegionMetrics {
  baseline_avg : option Q;
  simulated_avg : option Q;
  change_percent : option Q;
  max_price : Q;
  min_price : Q
}.

(** The dict returned by [apply_scenario]. *)
Record simulation_result : Type := SimulationResult {
  res_scenario_id : Z;
  res_scenario_name : string;
  res_scenario_category : string;
  parameters_used : gmap string value;
  price_effects : gmap string Q;
  simulated_prices : list (string * list Q);
  baseline_prices : gmap string (list Q);
  metrics : list (string * region_metrics);
  forecast : forecast_t;
  res_dates : list date
}.

(** [dict.get] on a dict kept in insertion order. *)
Fixpoint assoc_get {A : Type} (kvs : list (string * A)) (key : string) : option A :=
  match kvs with
  | [] => None
  | (k, v) :: rest => if decide (k = key) then Some v else assoc_get rest key
  end.

(** ** The runtime the engine runs on

    The parts of the Python runtime and of the libraries the engine calls:
    NumPy's global random generator, NumPy's square root, the built-in
    [hash] on a [frozenset] of dict items (fixed for one process), the
    import probe for Prophet, and Prophet itself. *)

Class Runtime : Type := {
  (** State of NumPy's global generator. *)
  rng : Type;
  (** [np.random.seed(s)]: the state after seeding with [s]. *)
  np_random_seed : Z → rng;
  (** One standard normal draw and the state after it. *)
  standard_normal : rng → Q * rng;
  (** [np.sqrt] *)
  np_sqrt : Q → Q;
  (** [hash(frozenset(params.items()))]: a function of the set of items only. *)
  py_hash : gmap string value → Z;
  (** The module flag set by the import probe. *)
  PROPHET_AVAILABLE : bool;
  (** The [Prophet] model built from the configuration, its [fit],
      [make_future_dataframe(periods=months, freq='MS')] and [predict]:
      from the configuration, the history ([ds], [y]), the scenario
      regressor over the history and over the future frame (when the
      scenario is ongoing) and the horizon, the predicted frame or an
      exception; prediction draws from the global generator. *)
  prophet_fit_predict :
    prophet_config_t → list date → list Q → option (list Q) → option (list Q) → nat →
    rng → result prophet_frame * rng
}.

(** ** The engine's methods *)

Section Engine.

Context `{RT : Runtime}.

(** Computations that use the global generator and may raise. *)
Definition M (A : Type) : Type := rng → result A * rng.

Definition M_ret {A : Type} (a : A) : M A := fun st => (Ok a, st).

Definition M_bind {A B : Type} (m : M A) (k : A → M B) : M B :=
  fun st =>
    match m st with
    | (Ok a, st') => k a st'
    | (Raise e, st') => (Raise e, st')
    end.

#[global] Instance M_mret : MRet M := @M_ret.
#[global] Instance M_mbind : MBind M := fun A B k m => M_bind m k.

(** A computation that does not touch the generator. *)
Definition lift {A : Type} (r : result A) : M A := fun st => (r, st).

(** [try: m except Exception: h] *)
Definition try_except {A : Type} (m : M A) (h : exn → M A) : M A :=
  fun st =>
    match m st with
    | (Ok a, st') => (Ok a, st')
    | (Raise e, st') => h e st'
    end.

(** [np.random.seed(s)] *)
Definition seed_generator (s : Z) : M unit := fun _ => (Ok tt, np_random_seed s).

(** [np.random.normal(loc, scale)]; a negative [scale] raises [ValueError]. *)
Definition np_random_normal (loc scale : Q) : M Q :=
  fun st =>
    if Qltb scale 0 then (Raise ValueError, st)
    else let '(z, st') := standard_normal st in (Ok (loc + scale * z), st').

(** [for x in xs: acc = body(acc, x)] *)
Fixpoint for_each {A S : Type} (xs : list A) (body : S → A → M S) (acc : S) : M S :=
  match xs with
  | [] => mret acc
  | x :: rest => acc' ← body acc x; for_each rest body acc'
  end.

(** *** [_apply_effects] *)

(** The seed: [int(abs(hash(frozenset(params.items()))) % 100000)]. *)
Definition params_seed (params : gmap string value) : Z :=
  (Z.abs (py_hash params) mod 100000)%Z.

(** [int(total_periods * 0.2)] *)
Definition scenario_start (total_periods : nat) : nat :=
  Z.to_nat (py_int (QN total_periods * 0.2)).

(** The [if]/[elif]/[else] of the period loop: the effect applied at period
    [i].  The quotient of the last branch is that of a duration within the
    range of a float; for an [int] beyond it Python raises [OverflowError]
    there. *)
Definition current_effect (effect : Q) (start : nat) (ramp end_ : Q) (i : nat) : result Q :=
  if Qltb (QN i) (QN start + ramp) then
    progress ← py_truediv (QN i - QN start + 1) ramp;
    Ok (effect * progress)
  else if Qltb (QN i) end_ then
    Ok effect
  else
    let decay := py_min ((QN i - end_) / 12) 1.0 in
    Ok (effect * (1 - decay * 0.4)).

(** The body of the period loop. *)
Definition apply_period (baseline : list Q) (effect : Q) (start : nat) (ramp end_ : Q)
    (result_ : list Q) (i : nat) : M (list Q) :=
  ce ← lift (current_effect effect start ramp end_ i);
  noise ← np_random_normal 0 0.008;
  b ← lift (py_index baseline i);
  lift (py_setitem result_ i (b * (1 + ce + noise))).

(** The series of one region present in [self.prices]: the statements of the
    region loop from [baseline = np.array(...)] to the end of the period loop. *)
Definition apply_region (baseline : list Q) (effect : Q) (duration : value)
    (total_periods : nat) : M (list Q) :=
  let result_ := baseline in
  let start := scenario_start total_periods in
  d ← lift (num duration);
  q ← lift (py_floordiv d 3);
  let ramp := py_min 6 q in
  let end_ := py_min (QN start + d) (QN total_periods) in
  for_each (seq start (total_periods - start))
           (apply_period baseline effect start ramp end_) result_.

(** The body of the region loop: a region the baseline lacks is skipped. *)
Definition region_step (self : engine) (effects : gmap string Q) (duration : value)
    (total_periods : nat) (simulated : list (string * list Q)) (region : string)
    : M (list (string * list Q)) :=
  match prices self !! region with
  | None => mret simulated
  | Some baseline =>
      let effect := default 0 (effects !! region) in
      result_ ← apply_region baseline effect duration total_periods;
      mret (simulated ++ [(region, result_)])%list
  end.

Definition _apply_effects (self : engine) (effects : gmap string Q)
    (params : gmap string value) : M (list (string * list Q)) :=
  let duration := param_get params "duration_months" (VNum 12) in
  let total_periods := length (dates self) in
  _ ← seed_generator (params_seed params);
  for_each regions (region_step self effects duration total_periods) [].

(** *** [_calculate_metrics] *)

(** The metrics entry of one region.  Dividing by a zero baseline mean
    raises, also when the simulated mean is NaN (empty array); a NaN
    baseline mean propagates without raising. *)
Definition region_metrics_of (baseline sim : list Q) : result region_metrics :=
  let base_avg := np_mean baseline in
  let sim_avg := np_mean sim in
  change ← match base_avg, sim_avg with
           | Some b, Some s_ =>
               r ← py_truediv (s_ - b) b;
               Ok (Some (py_round (r * 100) 2))
           | Some b, None =>
               if Qeq_bool b 0 then Raise ZeroDivisionError else Ok None
           | None, _ => Ok None
           end;
  mx ← np_max sim;
  mn ← np_min sim;
  Ok (RegionMetrics ((fun x => py_round x 4) <$> base_avg)
                    ((fun x => py_round x 4) <$> sim_avg)
                    change (py_round mx 4) (py_round mn 4)).

Fixpoint metrics_loop (self : engine) (simulated : list (string * list Q))
    (rs : list string) (acc : list (string * region_metrics))
    : result (list (string * region_metrics)) :=
  match rs with
  | [] => Ok acc
  | region :: rest =>
      match assoc_get simulated region, prices self !! region with
      | Some sim, Some baseline =>
          m ← region_metrics_of baseline sim;
          metrics_loop self simulated rest (acc ++ [(region, m)])%list
      | _, _ => metrics_loop self simulated rest acc
      end
  end.

Definition _calculate_metrics (self : engine) (simulated : list (string * list Q))
    : result (list (string * region_metrics)) :=
  metrics_loop self simulated regions [].

(** *** The fallback forecast *)

(** [_estimate_seasonality(prices)] with [period = 12]: the twelve monthly
    means over the complete years, as deviations from their mean, scaled
    by 0.05; [None] with less than two years of history. *)
Definition _estimate_seasonality (prices_ : list Q) : option (list Q) :=
  let period := 12%nat in
  if decide (length prices_ < period * 2)%nat then None
  else
    let n_years := (length prices_ / period)%nat in
    let truncated := take (n_years * period) prices_ in
    let seasonal :=
      (fun j : nat =>
         Qsum ((fun y : nat => default 0 (truncated !! (y * period + j)%nat)) <$> seq 0 n_years)
         / QN n_years) <$> seq 0 period in
    let mean_seasonal := Qsum seasonal / QN period in
    Some ((fun x => (x - mean_seasonal) * 0.05) <$> seasonal).

(** [np.std(xs)] for a non-empty array: the root of the mean squared
    deviation, the mean and the deviations being exact. *)
Definition np_std (xs : list Q) : Q :=
  let n := QN (length xs) in
  let m := Qsum xs / n in
  np_sqrt (Qsum ((fun x => (x - m) * (x - m)) <$> xs) / n).

(** The variables of the forecast loop: [current] and the three output lists. *)
Record forecast_acc : Type := ForecastAcc {
  acc_current : Q;
  point_forecast : list Q;
  lower_bound : list Q;
  upper_bound : list Q
}.

(** The body of the forecast loop of [_generate_simple_forecast].  [Qred]
    puts the running value in lowest terms; it does not change the number. *)
Definition simple_step (trend_ mean_price std_price : Q) (seasonality : option (list Q))
    (last_month_idx : nat) (acc : forecast_acc) (i : nat) : M forecast_acc :=
  let trend_decay := 0.85 ^ Z.of_nat i in
  let trend_effect := trend_ * trend_decay in
  let reversion := (mean_price - acc_current acc) * 0.08 in
  let season_idx := ((last_month_idx + i) mod 12)%nat in
  seasonal ← lift (match seasonality with
                   | Some s_ => py_index s_ season_idx
                   | None => Ok 0
                   end);
  let current := Qred (acc_current acc + trend_effect + reversion + seasonal) in
  noise ← np_random_normal 0 (std_price * 0.03);
  let point_ := current + noise in
  let uncertainty := std_price * np_sqrt (QN i + 1) * 0.2 in
  mret (ForecastAcc current
          (point_forecast acc ++ [py_round point_ 4])%list
          (lower_bound acc ++ [py_round (point_ - 1.96 * uncertainty) 4])%list
          (upper_bound acc ++ [py_round (point_ + 1.96 * uncertainty) 4])%list).

(** The body of the region loop of [_generate_simple_forecast]. *)
Definition simple_region (prices_ : list Q) (months : nat) : M region_forecast :=
  last_price ← lift (py_last prices_);
  let mean_price := Qsum prices_ / QN (length prices_) in
  let std_price := np_std prices_ in
  let last_6 := py_tail 6 prices_ in
  let trend_ :=
    if decide (1 < length last_6)%nat
    then (default 0 (last last_6) - default 0 (head last_6)) / 6
    else 0 in
  let seasonality := _estimate_seasonality prices_ in
  let last_month_idx := (length prices_ mod 12)%nat in
  _ ← seed_generator 42;
  acc ← for_each (seq 0 months)
          (simple_step trend_ mean_price std_price seasonality last_month_idx)
          (ForecastAcc last_price [] [] []);
  mret (RegionForecast (point_forecast acc) (lower_bound acc) (upper_bound acc) None None).

(** The body of the region loop of both forecasts, for the per-region
    computation [region_fn]. *)
Definition forecast_region_step (region_fn : list Q → M region_forecast)
    (acc : list (string * region_forecast)) (item : string * list Q)
    : M (list (string * region_forecast)) :=
  f ← region_fn item.2;
  mret (acc ++ [(item.1, f)])%list.

Definition _generate_simple_forecast (self : engine) (simulated : list (string * list Q))
    (params : gmap string value) (months : nat) : M forecast_t :=
  per_region ← for_each simulated
    (forecast_region_step (fun prices_ => simple_region prices_ months)) [];
  last_date ← lift (py_last (dates self));
  mret (Forecast per_region (forecast_dates last_date months) "simple_fallback" "95%").

(** *** The Prophet forecast *)

(** One entry of the scenario regressor over the history, for a duration
    within the range of a float (see [current_effect]). *)
Definition regressor_entry (start : nat) (ramp end_ : Q) (i : nat) : result Q :=
  if decide (i < start)%nat then Ok 0
  else if Qltb (QN i) (QN start + ramp) then py_truediv (QN i - QN start + 1) ramp
  else if Qltb (QN i) end_ then Ok 1.0
  else
    let decay := py_min ((QN i - end_) / 12) 1.0 in
    Ok (1 - decay * 0.4).

Definition _create_scenario_regressor (n_periods : nat) (params : gmap string value)
    (total_periods : nat) : result (list Q) :=
  let duration := param_get params "duration_months" (VNum 12) in
  let start := scenario_start total_periods in
  d ← num duration;
  q ← py_floordiv d 3;
  let ramp := py_min 6 q in
  let end_ := py_min (QN start + d) (QN total_periods) in
  mapM (regressor_entry start ramp end_) (seq 0 n_periods).

(** One entry of the regressor over the forecast horizon, for a duration
    within the range of a float (see [current_effect]). *)
Definition extended_entry (end_ : Q) (i : nat) : Q :=
  if Qltb (QN i) end_ then 1.0
  else
    let decay := py_min ((QN i - end_) / 12) 1.0 in
    py_max 0 (1 - decay * 0.6).

(** [n_total] is [len(future_df)]: for the frame Prophet makes, the history
    and [forecast_months] more rows.  Writing the historical regressor into
    a shorter array raises [ValueError], unless it is a single value, which
    NumPy broadcasts (here into an empty array). *)
Definition _extend_scenario_regressor (n_total : nat) (params : gmap string value)
    (total_periods forecast_months : nat) : result (list Q) :=
  let duration := param_get params "duration_months" (VNum 12) in
  let start := scenario_start total_periods in
  d ← num duration;
  let end_ := QN start + d in
  let n_historical := total_periods in
  historical ← _create_scenario_regressor n_historical params total_periods;
  if decide (n_historical ≤ n_total)%nat then
    Ok (historical ++ (extended_entry end_ <$> seq n_historical (n_total - n_historical)))%list
  else if decide (n_historical = 1)%nat then Ok []
  else Raise ValueError.

(** The body of the region loop of [_generate_prophet_forecast].  Building
    the data frame from columns of different lengths raises. *)
Definition prophet_region (self : engine) (params : gmap string value) (months : nat)
    (scenario_ongoing : bool) (prices_ : list Q) : M region_forecast :=
  let total_periods := length (dates self) in
  _ ← lift (if decide (length prices_ = total_periods) then Ok tt else Raise ValueError);
  hist_reg ← lift (if scenario_ongoing
                   then r ← _create_scenario_regressor (length prices_) params total_periods;
                        Ok (Some r)
                   else Ok None);
  future_reg ← lift (if scenario_ongoing
                     then r ← _extend_scenario_regressor (total_periods + months) params
                                total_periods months;
                          Ok (Some r)
                     else Ok None);
  prophet_forecast ← prophet_fit_predict (prophet_config self) (dates self) prices_
                       hist_reg future_reg months;
  let future_forecast := py_tail months (pf_rows prophet_forecast) in
  let col (f : prophet_row → Q) := (fun r => py_round (f r) 4) <$> future_forecast in
  mret (RegionForecast (col yhat) (col yhat_lower) (col yhat_upper) (Some (col trend))
          (if pf_has_yearly prophet_forecast then Some (col yearly) else None)).

Definition _generate_prophet_forecast (self : engine) (simulated : list (string * list Q))
    (params : gmap string value) (months : nat) : M forecast_t :=
  let scenario_duration := param_get params "duration_months" (VNum 12) in
  let total_periods := length (dates self) in
  d ← lift (num scenario_duration);
  let scenario_end_idx := inject_Z (py_int (QN total_periods * 0.2)) + d in
  let scenario_ongoing := Qltb (QN total_periods) scenario_end_idx in
  per_region ← for_each simulated
    (forecast_region_step (prophet_region self params months scenario_ongoing)) [];
  last_date ← lift (py_last (dates self));
  mret (Forecast per_region (forecast_dates last_date months) "prophet" "95%").

(** [_generate_forecast]: Prophet when available, the fallback when it is
    not or when it raises. *)
Definition _generate_forecast (self : engine) (simulated : list (string * list Q))
    (params : gmap string value) (months : nat) : M forecast_t :=
  if PROPHET_AVAILABLE then
    try_except (_generate_prophet_forecast self simulated params months)
               (fun _ => _generate_simple_forecast self simulated params months)
  else _generate_simple_forecast self simulated params months.

(** *** [apply_scenario] *)

Definition apply_scenario (self : engine) (scenario_id : Z)
    (custom_params : option (list (string * value))) : M simulation_result :=
  match get_scenario scenario_id with
  | None => lift (Raise ValueError)
  | Some sc =>
      let params := merge_params (sc_parameters sc) custom_params in
      effects ← lift (_calculate_price_effects sc params);
      simulated ← _apply_effects self effects params;
      metrics_ ← lift (_calculate_metrics self simulated);
      forecast_ ← _generate_forecast self simulated params 12;
      mret (SimulationResult scenario_id (sc_name sc) (sc_category sc) params
              ((fun v => py_round (v * 100) 2) <$> effects)
              simulated (prices self) metrics_ forecast_ (dates self))
  end.

End Engine.

(** ** The comparison route ([app.py]) *)

(** The names an instance of [ScenarioEngine] answers to: the attributes
    set by [__init__] and the methods the class defines. *)
Definition ScenarioEngine_attributes : list string :=
  [ "baseline_data"; "dates"; "prices"; "market"; "regions"; "prophet_config";
    "__init__"; "apply_scenario"; "_calculate_price_effects";
    "_logic_demand_growth"; "_logic_apac_growth"; "_logic_bio_adoption";
    "_logic_epoxy_demand"; "_logic_feedstock_shift"; "_logic_eu_regulatory";
    "_logic_asian_advantage"; "_logic_plant_shutdown"; "_logic_supply_disruption";
    "_logic_capacity_expansion"; "_logic_americas_stability"; "_logic_europe_elevation";
    "_logic_apac_pressure"; "_logic_asian_undercut"; "_logic_eu_constraints";
    "_logic_us_stable"; "_logic_default"; "_apply_effects"; "_calculate_metrics";
    "_generate_forecast"; "_generate_prophet_forecast"; "_create_scenario_regressor";
    "_extend_scenario_regressor"; "_generate_simple_forecast"; "_estimate_seasonality";
    "get_forecast_components"; "update_prophet_config" ].

(** [engine.<name>]: looking up a name the object does not have raises
    [AttributeError]. *)
Definition engine_getattr (name : string) : result string :=
  if bool_decide (name ∈ ScenarioEngine_attributes) then Ok name else Raise AttributeError.

(** A POST to [/api/compare]: whether the body is JSON, and its
    ['scenario_ids'] entry when it has one. *)
Record compare_request : Type := CompareRequest {
  is_json : bool;
  req_scenario_ids : option (list Z)
}.

(** A response body: an error message, or the JSON of what the named
    engine method returned for the id list. *)
Inductive response_body : Type :=
| ErrorBody (msg : string)
| ResultBody (method : string) (ids : list Z).

Record response : Type := Response {
  body : response_body;
  status : Z
}.

(** The route [compare_scenarios] of [app.py].  The error body of the last
    branch is the prefix the route writes; the text of the exception, which
    the route appends, is not modelled. *)
Definition compare_scenarios (req : compare_request) : response :=
  if negb (is_json req) then Response (ErrorBody "Request must be JSON") 400
  else
    let scenario_ids := default [] (req_scenario_ids req) in
    if bool_decide (scenario_ids = []) then
      Response (ErrorBody "scenario_ids is required") 400
    else if decide (5 < length scenario_ids)%nat then
      Response (ErrorBody "Maximum 5 scenarios for comparison") 400
    else
      match engine_getattr "compare_scenarios" with
      | Ok method => Response (ResultBody method scenario_ids) 200
      | Raise _ => Response (ErrorBody "Comparison error") 500
      end.

(** ** Sample runtimes and inputs *)

(** A toy generator: the state counts the draws since seeding; the draws
    alternate between 1 and -1. *)
Definition sample_draw (st : Z) : Q * Z :=
  (inject_Z (if (st mod 2 =? 0)%Z then 1 else -1), (st + 1)%Z).

(** A frame with one row per history and horizon period. *)
Definition sample_prophet (cfg : prophet_config_t) (ds : list date) (y : list Q)
    (hist_reg future_reg : option (list Q)) (months : nat) (st : Z)
    : result prophet_frame * Z :=
  let '(z, st') := sample_draw st in
  (Ok (ProphetFrame
         ((fun i : nat => ProphetRow (QN i) (QN i - 1 - Qabs z) (QN i + 1 + Qabs z) (QN i) 0)
            <$> seq 0 (length ds + months))
         true),
   st').

(** A Prophet that always raises. *)
Definition failing_prophet (cfg : prophet_config_t) (ds : list date) (y : list Q)
    (hist_reg future_reg : option (list Q)) (months : nat) (st : Z)
    : result prophet_frame * Z :=
  (Raise ProphetError, st).

(** A Prophet whose point estimate lies above its upper bound. *)
Definition crossing_prophet (cfg : prophet_config_t) (ds : list date) (y : list Q)
    (hist_reg future_reg : option (list Q)) (months : nat) (st : Z)
    : result prophet_frame * Z :=
  (Ok (ProphetFrame (replicate (length ds + months) (ProphetRow 5 0 1 5 0)) false), st).

Definition sample_sqrt (x : Q) : Q := inject_Z (Z.sqrt (Qfloor x)).

Definition sample_hash (params : gmap string value) : Z := Z.of_nat (size params).

Definition sample_runtime : Runtime :=
  Build_Runtime Z (fun s => s) sample_draw sample_sqrt sample_hash true sample_prophet.

Definition fallback_runtime : Runtime :=
  Build_Runtime Z (fun s => s) sample_draw sample_sqrt sample_hash false sample_prophet.

Definition failing_runtime : Runtime :=
  Build_Runtime Z (fun s => s) sample_draw sample_sqrt sample_hash true failing_prophet.

Definition crossing_runtime : Runtime :=
  Build_Runtime Z (fun s => s) sample_draw sample_sqrt sample_hash true crossing_prophet.

(** Ten month-end periods from January 2020 and a flat baseline of 100. *)
Definition sample_dates : list date :=
  [ Date 2020 1 31; Date 2020 2 29; Date 2020 3 31; Date 2020 4 30; Date 2020 5 31;
    Date 2020 6 30; Date 2020 7 31; Date 2020 8 31; Date 2020 9 30; Date 2020 10 31 ].

Definition sample_baseline : list Q := replicate 10 100.

Definition sample_engine : engine :=
  Engine sample_dates
         (list_to_map ((fun r => (r, replicate 10 100)) <$> regions))
         default_prophet_config.

(** ** Notions used in the statements *)

(** The forecast of an outcome, when there is one. *)
Definition is_forecast (r : result forecast_t) : option forecast_t :=
  match r with Ok fc => Some fc | Raise _ => None end.

(** The overrides whose key is one of the default parameters. *)
Definition known_items (defaults : gmap string value) (items : list (string * value))
    : list (string * value) :=
  filter (fun kv => is_Some (defaults !! kv.1)) items.

Definition is_num (v : value) : bool :=
  match v with VNum _ => true | VStr _ => false end.

(** Every parameter other than ['region_affected'] holds a number. *)
Definition numeric_params (params : gmap string value) : Prop :=
  map_Forall (fun k v => k ≠ "region_affected" → is_num v) params.

(** ['duration_months'], when present, is not zero. *)
Definition nonzero_duration (params : gmap string value) : Prop :=
  match params !! "duration_months" with
  | Some (VNum q) => ¬ q == 0
  | _ => True
  end.

#[global] Instance Qle_decision (a b : Q) : Decision (a <= b) :=
  match Qlt_le_dec b a with
  | left Hgt => right (Qlt_not_le _ _ Hgt)
  | right Hle => left Hle
  end.

(** The largest finite float, [sys.float_info.max]. *)
Definition float_max : Q := inject_Z (2 ^ 1024 - 2 ^ 971).

(** A number within the range of a float: a finite float, or an [int] that
    converts to one. *)
Definition in_float_range (q : Q) : Prop := Qabs q <= float_max.

#[global] Instance in_float_range_dec (q : Q) : Decision (in_float_range q) :=
  Qle_decision (Qabs q) float_max.

(** Every number of a parameter set is within the range of a float. *)
Definition float_range_value (v : value) : Prop :=
  match v with
  | VNum q => in_float_range q
  | VStr _ => True
  end.

#[global] Instance float_range_value_dec (v : value) : Decision (float_range_value v).
Proof. destruct v; simpl; apply _. Defined.

Definition float_range_params (params : gmap string value) : Prop :=
  map_Forall (fun _ v => float_range_value v) params.

(** A magnitude that leaves room for the products the formulas form: at
    most [10 ** 100]. *)
Definition moderate_bound : Q := inject_Z (10 ^ 100).

Definition moderate_value (v : value) : Prop :=
  match v with
  | VNum q => Qabs q <= moderate_bound
  | VStr _ => True
  end.

#[global] Instance moderate_value_dec (v : value) : Decision (moderate_value v).
Proof. destruct v; simpl; apply _. Defined.

Definition moderate_params (params : gmap string value) : Prop :=
  map_Forall (fun _ v => moderate_value v) params.

(** ['duration_months'], when present, is at least [10 ** -100] in
    magnitude. *)
Definition duration_not_tiny (params : gmap string value) : Prop :=
  match params !! "duration_months" with
  | Some (VNum q) => / moderate_bound <= Qabs q
  | _ => True
  end.

(** Every value of an effect vector is within the range of a float. *)
Definition finite_vector (eff : gmap string Q) : Prop :=
  map_Forall (fun _ e => in_float_range e) eff.

(** The two formulas that divide by the duration. *)
Definition divides_by_duration (sc : scenario) : Prop :=
  sc_logic sc = Some "supply_disruption" ∨ sc_logic sc = Some "capacity_expansion".

(** The canonical region keys, as a set. *)
Definition region_keys : gset string := list_to_set regions.

(** A result that is a mapping with exactly the four canonical region keys. *)
Definition four_region_result (r : result (gmap string Q)) : Prop :=
  ∃ eff, r = Ok eff ∧ dom eff = region_keys.

(** The logic tags the dispatch table recognizes. *)
Definition recognized_tags : list string := handlers_table.*1.

(** The zero vector: 0.0 for every canonical region. *)
Definition zero_vector : gmap string Q := effects_dict 0.0 0.0 0.0 0.0.

(** The generator state after [n] draws from [st]. *)
Definition state_after `{RT : Runtime} (st : rng) (n : nat) : rng :=
  Nat.iter n (fun s => (standard_normal s).2) st.

(** The [n]-th standard normal draw from [st], counting from 0. *)
Definition nth_draw `{RT : Runtime} (st : rng) (n : nat) : Q :=
  (standard_normal (state_after st n)).1.

(** The noise [np.random.normal(0, 0.008)] obtained from the [n]-th draw. *)
Definition period_noise `{RT : Runtime} (st : rng) (n : nat) : Q :=
  0 + 0.008 * nth_draw st n.

(** [min(6, duration // 3)] and [min(start + duration, total_periods)] for a
    numeric duration. *)
Definition ramp_of (d : Q) : Q := py_min 6 (inject_Z (Qfloor (d / 3))).

Definition end_of (total_periods : nat) (d : Q) : Q :=
  py_min (QN (scenario_start total_periods) + d) (QN total_periods).

(** The value [current_effect] computes when its division is defined. *)
Definition envelope (effect : Q) (start : nat) (ramp end_ : Q) (i : nat) : Q :=
  if Qltb (QN i) (QN start + ramp) then effect * ((QN i - QN start + 1) / ramp)
  else if Qltb (QN i) end_ then effect
  else effect * (1 - py_min ((QN i - end_) / 12) 1.0 * 0.4).

(** The value the period loop stores at index [i] for baseline price [b],
    when the loop started at index [s] with the generator in state [st]. *)
Definition simulated_value `{RT : Runtime} (effect : Q) (start : nat) (ramp end_ : Q)
    (st : rng) (s i : nat) (b : Q) : Q :=
  b * (1 + envelope effect start ramp end_ i + period_noise st (i - s)).

(** [sim] is the series the region loop produces from [baseline] for a
    numeric duration [d], with the generator in state [st] on entry:
    periods before the start and past the last date are copied, every
    other period holds its simulated value. *)
Definition region_simulated `{RT : Runtime} (baseline : list Q) (effect d : Q)
    (total_periods : nat) (st : rng) (sim : list Q) : Prop :=
  let start := scenario_start total_periods in
  length sim = length baseline
  ∧ (∀ i, (i < start ∨ total_periods ≤ i)%nat → sim !! i = baseline !! i)
  ∧ (∀ i b, (start ≤ i < total_periods)%nat → baseline !! i = Some b →
       sim !! i = Some (simulated_value effect start (ramp_of d) (end_of total_periods d)
                          st start i b)).

(** Every baseline series covers all the periods of [self.dates]. *)
Definition baseline_covers_dates (self : engine) : Prop :=
  map_Forall (fun _ baseline_ => (length (dates self) ≤ length baseline_)%nat) (prices self).

(** The bounds of a forecast entry enclose its point estimates, step by step. *)
Definition interval_ordered (f : region_forecast) : Prop :=
  Forall2 Qle (lower_95 f) (point f) ∧ Forall2 Qle (point f) (upper_95 f).

(** The same, read index by index: the three lists are equally long, and
    at every step the point estimate lies between the bounds. *)
Definition ordered_at_every_step (f : region_forecast) : Prop :=
  length (lower_95 f) = length (point f)
  ∧ length (upper_95 f) = length (point f)
  ∧ ∀ i lo p up,
      lower_95 f !! i = Some lo → point f !! i = Some p → upper_95 f !! i = Some up →
      lo <= p ∧ p <= up.

(** Every list of a forecast entry has [months] entries. *)
Definition horizon_length (months : nat) (f : region_forecast) : Prop :=
  length (point f) = months ∧ length (lower_95 f) = months ∧ length (upper_95 f) = months.

(** What holds of the forecast loop after [k] steps: [k] entries so far,
    each between its bounds. *)
Definition step_invariant (k : nat) (acc : forecast_acc) : Prop :=
  length (point_forecast acc) = k
  ∧ Forall2 Qle (lower_bound acc) (point_forecast acc)
  ∧ Forall2 Qle (point_forecast acc) (upper_bound acc).

(** What a returned forecast looks like, whichever strategy built it:
    every region entry satisfies [P], the regions are those of the
    simulated series, the dates count [months] calendar months from the
    last date of the baseline, and the model tag names a strategy. *)
Definition forecast_shape_of (self : engine) (simulated : list (string * list Q))
    (months : nat) (P : region_forecast → Prop) (fc : forecast_t) : Prop :=
  Forall (fun p => P p.2) (fc_regions fc)
  ∧ (fc_regions fc).*1 = simulated.*1
  ∧ (∃ last_date, last (dates self) = Some last_date
                  ∧ fc_dates fc = forecast_dates last_date months)
  ∧ (fc_model fc = "prophet" ∨ fc_model fc = "simple_fallback").

(** [np.sqrt] returns no negative number. *)
Definition sqrt_nonneg `{RT : Runtime} : Prop := ∀ x, 0 <= np_sqrt x.

(** A row of Prophet whose own values are ordered:
    [yhat_lower <= yhat <= yhat_upper]. *)
Definition row_ordered (r : prophet_row) : Prop :=
  yhat_lower r <= yhat r ∧ yhat r <= yhat_upper r.

(** [rows] are the last [months] rows of a frame that Prophet returned to
    the engine [self] for this horizon. *)
Definition predicted_rows `{RT : Runtime} (self : engine) (months : nat)
    (rows : list prophet_row) : Prop :=
  ∃ y hist_reg future_reg st frame st',
    prophet_fit_predict (prophet_config self) (dates self) y hist_reg future_reg months st
    = (Ok frame, st')
    ∧ rows = py_tail months (pf_rows frame).

(** The forecast entry [f] is Prophet's [rows], column by column, each
    value rounded to four decimals. *)
Definition rounded_rows (rows : list prophet_row) (f : region_forecast) : Prop :=
  point f = (fun r => py_round (yhat r) 4) <$> rows
  ∧ lower_95 f = (fun r => py_round (yhat_lower r) 4) <$> rows
  ∧ upper_95 f = (fun r => py_round (yhat_upper r) 4) <$> rows.

(** Prophet predicts one row per period of the history and of the horizon. *)
Definition prophet_frame_complete `{RT : Runtime} : Prop :=
  ∀ cfg ds y hist_reg future_reg months st frame st',
    prophet_fit_predict cfg ds y hist_reg future_reg months st = (Ok frame, st') →
    length (pf_rows frame) = (length ds + months)%nat.

(** The baseline the engine expects: at least one period, and for every
    series one price per period and a mean that is not zero. *)
Definition well_formed_engine (self : engine) : Prop :=
  dates self ≠ []
  ∧ map_Forall (fun _ baseline_ =>
                  length baseline_ = length (dates self)
                  ∧ Qeq_bool (Qsum baseline_) 0 = false) (prices self).

(** The regions of [self.regions] that the baseline has prices for, in order. *)
Definition present_regions (self : engine) : list string :=
  filter (fun r => is_Some (prices self !! r)) regions.

(** ** The catalog queries ([models.py]) *)

(** [list(SCENARIOS.values())]: the entries in the order of the dict literal. *)
Definition get_all_scenarios : list scenario := SCENARIOS_list.

(** [[s for s in SCENARIOS.values() if s["category"] == category]] *)
Definition get_scenarios_by_category (category : string) : list scenario :=
  filter (fun s => sc_category s = category) get_all_scenarios.

(** ** The other routes of [app.py] *)

(** A value as [request.get_json()] delivers it. *)
Inductive json : Type :=
| JNull
| JBool (b : bool)
| JNum (q : Q)
| JStr (s : string)
| JList (items : list json)
| JDict (fields : list (string * json)).

(** The truth value of a JSON value in a condition. *)
Definition py_bool (j : json) : bool :=
  match j with
  | JNull => false
  | JBool b => b
  | JNum q => negb (Qeq_bool q 0)
  | JStr s => negb (bool_decide (s = ""))
  | JList items => negb (bool_decide (items = []))
  | JDict fields => negb (bool_decide (fields = []))
  end.

(** The truth value of [request.args.get(name)]: [None] and the empty
    string are false. *)
Definition arg_given (arg : option string) : bool :=
  match arg with
  | Some s => negb (bool_decide (s = ""))
  | None => false
  end.

(** The ['error'] entry of an error body: a fixed text, a text with the
    scenario id filled in, or a prefix followed by the message of the
    exception caught ([str(e)] is not modelled).  [ErrorPage] is the
    answer Flask itself gives when a request fails outside the route's own
    handlers: an error page, not a JSON body. *)
Inductive error_text : Type :=
| Fixed (msg : string)
| WithId (before : string) (scenario_id : Z) (after : string)
| FromException (prefix : string) (e : exn)
| ErrorPage.

(** What a route returns: [jsonify(a)] with status 200, or an error body
    with its status. *)
Inductive reply (A : Type) : Type :=
| Json (a : A)
| Failure (error : error_text) (code : Z).
Arguments Json {A} a.
Arguments Failure {A} error code.

Definition status_code {A : Type} (r : reply A) : Z :=
  match r with
  | Json _ => 200
  | Failure _ code => code
  end.

(** The body of [list_scenarios] and of [get_categories]. *)
Record scenario_listing : Type := ScenarioListing {
  listing_count : nat;
  listing_scenarios : list scenario
}.

Record category_listing : Type := CategoryListing {
  listing_categories : list string;
  listing_counts : gmap string nat
}.

(** The route [list_scenarios]: the optional query argument [category]. *)
Definition list_scenarios (category : option string) : reply scenario_listing :=
  let scenarios :=
    if arg_given category then get_scenarios_by_category (default "" category)
    else get_all_scenarios in
  Json (ScenarioListing (length scenarios) scenarios).

(** The route [get_scenario_detail].  A scenario dict has entries, so
    [not scenario] holds for [None] only. *)
Definition get_scenario_detail (scenario_id : Z) : reply scenario :=
  match get_scenario scenario_id with
  | Some scenario => Json scenario
  | None => Failure (WithId "Scenario " scenario_id " not found") 404
  end.

(** The route [get_categories].  [list(set(...))] lists every category
    once, in an order Python does not specify; [elements] is one such
    order. *)
Definition get_categories : reply category_listing :=
  let scenarios := get_all_scenarios in
  let categories := elements (list_to_set (sc_category <$> scenarios) : gset string) in
  let category_counts :=
    foldl (fun counts cat =>
             <[cat := length (filter (fun s => sc_category s = cat) scenarios)]> counts)
          ∅ categories in
  Json (CategoryListing categories category_counts).

(** What [data.get('custom_params')] delivers for a JSON object [data]:
    nothing (no entry, or [null]); an object, with numbers and strings for
    values; or another JSON value (a list, a number, a string, a boolean),
    of which only the truth value matters. *)
Inductive custom_params_entry : Type :=
| NoOverrides
| Overrides (items : list (string * value))
| NotAnObject (truthy : bool).

(** The body of a POST to [/api/simulate/<id>]: not marked as JSON; marked
    as JSON but not parsable; a JSON object; any other JSON value. *)
Inductive simulate_request : Type :=
| NotJson
| MalformedJson
| JsonObject (custom_params : custom_params_entry)
| JsonOther.

(** [engine.apply_scenario(scenario_id, custom_params)] for what the route
    passes on: [if custom_params:] skips a value that is false in a
    condition, and [custom_params.items()] raises [AttributeError] on a
    true value that is no dict, after the scenario was looked up. *)
Definition apply_scenario_entry `{RT : Runtime} (self : engine) (scenario_id : Z)
    (entry : custom_params_entry) : M simulation_result :=
  match entry with
  | NoOverrides | NotAnObject false => apply_scenario self scenario_id None
  | Overrides items => apply_scenario self scenario_id (Some items)
  | NotAnObject true =>
      match get_scenario scenario_id with
      | None => lift (Raise ValueError)
      | Some _ => lift (Raise AttributeError)
      end
  end.

(** The route [simulate_scenario] for the module's [engine].  Reading the
    body happens before the [try]: [get_json()] on a body that does not
    parse is answered 400 by Flask, and [data.get] on a body that is no
    object raises [AttributeError], which Flask answers with 500. *)
Definition simulate_scenario `{RT : Runtime} (engine_ : engine) (scenario_id : Z)
    (req : simulate_request) : rng → reply simulation_result * rng :=
  fun st =>
    let run (custom_params : custom_params_entry) :=
      match apply_scenario_entry engine_ scenario_id custom_params st with
      | (Ok result_, st') => (Json result_, st')
      | (Raise ValueError, st') => (Failure (FromException "" ValueError) 404, st')
      | (Raise e, st') => (Failure (FromException "Simulation error: " e) 500, st')
      end in
    match req with
    | NotJson => run NoOverrides
    | MalformedJson => (Failure ErrorPage 400, st)
    | JsonObject custom_params => run custom_params
    | JsonOther => (Failure ErrorPage 500, st)
    end.

(** A POST to [/api/sensitivity]: whether the body is JSON, and its three
    entries as [data.get] reads them ([JNull] for a missing one). *)
Record sensitivity_request : Type := SensitivityRequest {
  sensitivity_is_json : bool;
  sensitivity_scenario_id : json;
  sensitivity_parameter : json;
  sensitivity_values : json
}.

(** What the engine method named would have been called with. *)
Record method_call : Type := MethodCall {
  call_method : string;
  call_arguments : list json
}.

(** The route [sensitivity_analysis]. *)
Definition sensitivity_analysis (req : sensitivity_request) : reply method_call :=
  if negb (sensitivity_is_json req) then Failure (Fixed "Request must be JSON") 400
  else
    let scenario_id := sensitivity_scenario_id req in
    let parameter := sensitivity_parameter req in
    let values := sensitivity_values req in
    if negb (forallb py_bool [scenario_id; parameter; values]) then
      Failure (Fixed "scenario_id, parameter, and values are required") 400
    else
      match engine_getattr "sensitivity_analysis" with
      | Ok method => Json (MethodCall method [scenario_id; parameter; values])
      | Raise e => Failure (FromException "Analysis error: " e) 500
      end.

(** [needle in hay] for two strings. *)
Fixpoint py_contains (needle hay : string) : bool :=
  String.prefix needle hay
  || match hay with
     | EmptyString => false
     | String _ rest => py_contains needle rest
     end.

(** The ['metadata'] entry the generator writes. *)
Record metadata : Type := Metadata {
  generated_at : string;          (* [datetime.now().isoformat()] *)
  meta_start_date : date;
  meta_periods : nat;
  meta_unit : string;
  meta_note : string
}.

(** The data file after [json.load], for a file that has the ['dates'] and
    ['prices'] entries: the ['metadata'] entry when there is one, the
    period labels, and the price series by name, in the order of the file
    (a JSON object read into a dict: no name occurs twice). *)
Record data_file : Type := DataFile {
  data_metadata : option metadata;
  data_dates : list date;
  data_prices : list (string * list Q)
}.

(** The body [get_prices] answers with.  [jsonify] writes the series as a
    JSON object with its keys sorted: a map from name to series, which
    keeps nothing of the order of the file. *)
Record price_listing : Type := PriceListing {
  listing_dates : list date;
  listing_prices : gmap string (list Q)
}.

(** The route [get_prices] on the data it loaded, with the optional query
    arguments [region] and [type]. *)
Definition get_prices (data : data_file) (region price_type : option string)
    : reply price_listing :=
  let prices_ := data_prices data in
  let dates_ := data_dates data in
  let region_ := default "" region in
  let type_ := default "" price_type in
  if arg_given region && arg_given price_type then
    let key := region_ +:+ "_" +:+ type_ in
    match assoc_get prices_ key with
    | Some series => Json (PriceListing dates_ {[ key := series ]})
    | None => Json (PriceListing dates_ (list_to_map prices_))
    end
  else if arg_given region then
    Json (PriceListing dates_
            (list_to_map (filter (fun kv => py_contains region_ kv.1 = true) prices_)))
  else if arg_given price_type then
    Json (PriceListing dates_
            (list_to_map (filter (fun kv => py_contains type_ kv.1 = true) prices_)))
  else Json (PriceListing dates_ (list_to_map prices_)).

(** ** The data generator ([data_generator.py]) *)

(** One entry of [self.price_config]. *)
Record price_config_t : Type := PriceConfig {
  cfg_base : Q;
  cfg_range : Q;
  cfg_volatility : Q
}.

(** [self.price_config] *)
Definition price_config : list (string * price_config_t) :=
  [ ("us_ech", PriceConfig 0.65 0.12 0.03);
    ("eu_ech", PriceConfig 0.96 0.10 0.04);
    ("asia_ech", PriceConfig 0.65 0.06 0.035);
    ("china_ech", PriceConfig 0.50 0.10 0.04);
    ("glycerin", PriceConfig 0.36 0.07 0.06);
    ("propylene", PriceConfig 0.45 0.09 0.05) ].

(** [pd.date_range(start=start, periods=n, freq='M')]: the ends of [n]
    consecutive months, the first being the month of [start]. *)
Definition month_end_range (start : date) (n : nat) : list date :=
  (fun k : nat =>
     let t := (month start - 1 + Z.of_nat k)%Z in
     let y := (year start + t / 12)%Z in
     let m := (t mod 12 + 1)%Z in
     Date y m (days_in_month y m)) <$> seq 0 n.

(** The state of an [ECHDataGenerator]. *)
Record generator : Type := Generator {
  gen_start_date : date;
  gen_periods : nat;
  gen_dates : list date;
  gen_price_config : list (string * price_config_t)
}.

(** [ECHDataGenerator(start_date, periods)] *)
Definition ECHDataGenerator (start_date : date) (periods : nat) : generator :=
  Generator start_date periods (month_end_range start_date periods) price_config.

Section DataGenerator.

Context `{RT : Runtime}.

(** [np.sin(2 * np.pi * i / 12)] for the period index [i]. *)
Variable np_sin_twelfths : nat → Q.

(** The body of the loop of [generate_price_series]. *)
Definition price_step (config : price_config_t) (prices_ : list Q) (i : nat) : M (list Q) :=
  let base := cfg_base config in
  let range_val := cfg_range config in
  let vol := cfg_volatility config in
  change ← np_random_normal 0 (base * vol);
  last_price ← lift (py_last prices_);
  let reversion := (base - last_price) * 0.05 in
  let seasonal := range_val * 0.3 * np_sin_twelfths i in
  let new_price := last_price + change + reversion + seasonal in
  let new_price := py_max (base - range_val) (py_min (base + range_val) new_price) in
  mret (prices_ ++ [py_round new_price 4])%list.

Definition generate_price_series (self : generator) (config : price_config_t) : M (list Q) :=
  _ ← seed_generator 42;
  for_each (seq 1 (gen_periods self - 1)) (price_step config) [cfg_base config].

(** The body of the loop of [generate_all_data]. *)
Definition series_step (self : generator) (prices_ : list (string * list Q))
    (item : string * price_config_t) : M (list (string * list Q)) :=
  series ← generate_price_series self item.2;
  mret (prices_ ++ [(item.1, series)])%list.

(** [generate_all_data], called when the clock reads [now]: the metadata,
    the dates and the price series.  The dict literal is built, clock
    reading included, before the loop over the configurations runs. *)
Definition generate_all_data (now : string) (self : generator) : M data_file :=
  let metadata_ :=
    Metadata now (gen_start_date self) (gen_periods self) "USD/lb"
             "Prices in USD/lb based on real market ranges" in
  prices_ ← for_each (gen_price_config self) (series_step self) [];
  mret (DataFile (Some metadata_) (gen_dates self) prices_).

End DataGenerator.

(** [ScenarioEngine(data_path)] for a data file with the given content. *)
Definition ScenarioEngine_init (data : data_file) : engine :=
  Engine (data_dates data) (list_to_map (data_prices data)) default_prophet_config.

(** A stand-in for the sine of the sample runtime. *)
Definition sample_sine (i : nat) : Q := if Nat.even i then 0.5 else -0.5.

(** ** [update_prophet_config] *)

(** A value of the configuration dict, or of a keyword argument: the
    method stores whatever it is given. *)
Inductive config_value : Type :=
| CBool (b : bool)
| CNum (q : Q)
| CStr (s : string).

(** [self.prophet_config] as the dict [__init__] writes. *)
Definition initial_prophet_config : gmap string config_value :=
  list_to_map
    [ ("yearly_seasonality", CBool true);
      ("weekly_seasonality", CBool false);
      ("daily_seasonality", CBool false);
      ("seasonality_mode", CStr "multiplicative");
      ("changepoint_prior_scale", CNum 0.05);
      ("seasonality_prior_scale", CNum 10);
      ("interval_width", CNum 0.95) ].

(** The configuration and the keys warned about so far. *)
Record config_update : Type := ConfigUpdate {
  updated_config : gmap string config_value;
  warned_keys : list string
}.

(** The body of the loop of [update_prophet_config]. *)
Definition config_step (acc : config_update) (kv : string * config_value) : config_update :=
  if decide (is_Some (updated_config acc !! kv.1))
  then ConfigUpdate (<[kv.1 := kv.2]> (updated_config acc)) (warned_keys acc)
  else ConfigUpdate (updated_config acc) (warned_keys acc ++ [kv.1])%list.

(** [update_prophet_config] called with the keyword arguments [kwargs]:
    the new configuration, and the keys of the warnings printed. *)
Definition update_prophet_config (config : gmap string config_value)
    (kwargs : list (string * config_value)) : config_update :=
  foldl config_step (ConfigUpdate config []) kwargs.

(** ** More notions used in the statements *)

(** The overrides [apply_scenario] merges for a request: those of a body
    that is an object with an object for ['custom_params']. *)
Definition request_overrides (req : simulate_request) : option (list (string * value)) :=
  match req with
  | JsonObject (Overrides items) => Some items
  | _ => None
  end.

(** The numbers among the overrides of a request are within the range of a
    float. *)
Definition float_range_request (req : simulate_request) : Prop :=
  match request_overrides req with
  | Some items => Forall (fun kv => float_range_value kv.2) items
  | None => True
  end.

(** The body was read, and ['custom_params'] is something whose [items()]
    can be asked for, or is skipped. *)
Definition usable_request (req : simulate_request) : Prop :=
  req ≠ MalformedJson ∧ req ≠ JsonOther ∧ req ≠ JsonObject (NotAnObject true).

(** A computation that raises nothing but the exceptions listed. *)
Definition raises_only {A : Type} (r : result A) (es : list exn) : Prop :=
  ∀ e, r = Raise e → e ∈ es.

(** The formulas that cap the duration, each with the number of months at
    which its cap is reached: [min(duration_years, c)] at [12 * c] months
    and, for the plant shutdown, [min(duration_months / 6, 1.5)] at 9. *)
Definition duration_caps : list ((gmap string value → result (gmap string Q)) * Q) :=
  [ (_logic_eu_regulatory, 24); (_logic_asian_advantage, 18); (_logic_plant_shutdown, 9);
    (_logic_europe_elevation, 18); (_logic_apac_pressure, 12); (_logic_asian_undercut, 18);
    (_logic_eu_constraints, 24) ].

(** The engine with every baseline price multiplied by [k] (the same data
    in another unit). *)
Definition scale_baseline (k : Q) (self : engine) : engine :=
  Engine (dates self) ((fun series : list Q => Qmult k <$> series) <$> prices self)
         (prophet_config self).

(** [ys] is [xs] with every value multiplied by [k]. *)
Definition scaled_by (k : Q) (xs ys : list Q) : Prop :=
  Forall2 (fun x y => y == k * x) xs ys.

(** * Properties *)

(** ** Parameter merging *)

Lemma merge_step_dom params kv : dom (merge_step params kv) = dom params.
Proof.
  unfold merge_step. case_decide as Hk; [|done].
  rewrite dom_insert_L. apply elem_of_dom in Hk. set_solver.
Qed.

Lemma merge_fold_dom items :
  ∀ defaults, dom (foldl merge_step defaults items) = dom defaults.
Proof.
  induction items as [|kv items IH]; intros defaults; simpl; [done|].
  by rewrite IH, merge_step_dom.
Qed.

Lemma merge_params_dom defaults custom : dom (merge_params defaults custom) = dom defaults.
Proof. destruct custom as [items|]; simpl; [apply merge_fold_dom | done]. Qed.

Lemma merge_fold_known items :
  ∀ defaults params,
    dom params = dom defaults →
    foldl merge_step params items = foldl merge_step params (known_items defaults items).
Proof.
  induction items as [|kv items IH]; intros defaults params Hdom; [done|].
  unfold known_items. rewrite filter_cons. simpl.
  case_decide as Hk.
  - simpl. apply IH. by rewrite merge_step_dom.
  - assert (merge_step params kv = params) as ->.
    { unfold merge_step. case_decide as Hk'; [|done].
      exfalso. apply Hk. apply elem_of_dom. rewrite <- Hdom. by apply elem_of_dom. }
    by apply IH.
Qed.

Lemma merge_fold_untouched items :
  ∀ params k, k ∉ items.*1 → foldl merge_step params items !! k = params !! k.
Proof.
  induction items as [|kv items IH]; intros params k Hk; [done|].
  simpl in *. apply not_elem_of_cons in Hk as [Hne Hk].
  rewrite IH by done. unfold merge_step. case_decide; [|done].
  by rewrite lookup_insert_ne.
Qed.

Lemma merge_fold_last items params k v front :
  is_Some (params !! k) → k ∉ items.*1 →
  foldl merge_step params (front ++ (k, v) :: items) !! k = Some v.
Proof.
  intros Hk Hnot.
  rewrite foldl_app. simpl.
  rewrite merge_fold_untouched by done.
  unfold merge_step. simpl.
  assert (is_Some (foldl merge_step params front !! k)) as Hs.
  { apply elem_of_dom. rewrite merge_fold_dom. by apply elem_of_dom. }
  case_decide; [|done]. by rewrite lookup_insert_eq.
Qed.

Lemma merge_params_known defaults items :
  merge_params defaults (Some items) = merge_params defaults (Some (known_items defaults items)).
Proof. simpl. by apply merge_fold_known. Qed.

Lemma merge_params_untouched defaults items k :
  k ∉ (known_items defaults items).*1 →
  merge_params defaults (Some items) !! k = defaults !! k.
Proof.
  intros Hk. rewrite merge_params_known. simpl. by apply merge_fold_untouched.
Qed.

Lemma known_items_none defaults items :
  (∀ kv, kv ∈ items → defaults !! kv.1 = None) → known_items defaults items = [].
Proof.
  intros Hall. unfold known_items.
  induction items as [|kv items IH]; [done|].
  rewrite filter_cons. case_decide as Hk.
  - rewrite (Hall kv) in Hk by left. by destruct Hk.
  - apply IH. intros kv' Hin. apply Hall. by right.
Qed.

Lemma apply_scenario_params `{RT : Runtime} self scenario_id sc custom st r st' :
  get_scenario scenario_id = Some sc →
  apply_scenario self scenario_id custom st = (Ok r, st') →
  parameters_used r = merge_params (sc_parameters sc) custom.
Proof.
  intros Hget. unfold apply_scenario. rewrite Hget.
  unfold mbind, M_mbind, M_bind, lift, mret, M_mret, M_ret.
  repeat (match goal with
          | |- context [match ?x with _ => _ end] => destruct x
          end; try discriminate).
  intros [= <- _]. reflexivity.
Qed.

(** C7.  Override keys that are not among the scenario's default parameters
    are ignored by [apply_scenario]: the call behaves exactly as the call
    without them (so they raise nothing), overrides made up of unknown keys
    only behave as no overrides at all, [parameters_used] has the keys of
    the defaults and nothing else, every key that no known override names
    keeps its default, and a known key takes the value of its last
    override. *)
Theorem C7_unknown_override_keys_ignored `{RT : Runtime}
    (self : engine) (scenario_id : Z) (sc : scenario)
    (items : list (string * value)) (st : rng) :
  get_scenario scenario_id = Some sc →
  let defaults := sc_parameters sc in
  let params := merge_params defaults (Some items) in
  apply_scenario self scenario_id (Some items) st
    = apply_scenario self scenario_id (Some (known_items defaults items)) st
  ∧ ((∀ kv, kv ∈ items → defaults !! kv.1 = None) →
     apply_scenario self scenario_id (Some items) st
       = apply_scenario self scenario_id None st)
  ∧ dom params = dom defaults
  ∧ (∀ k, k ∉ (known_items defaults items).*1 → params !! k = defaults !! k)
  ∧ (∀ k v front back,
       items = (front ++ (k, v) :: back)%list → is_Some (defaults !! k) → k ∉ back.*1 →
       params !! k = Some v)
  ∧ (∀ r st',
       apply_scenario self scenario_id (Some items) st = (Ok r, st') →
       parameters_used r = params).
Proof.
  intros Hget defaults params.
  assert (apply_scenario self scenario_id (Some items) st
          = apply_scenario self scenario_id (Some (known_items defaults items)) st) as Hsame.
  { unfold apply_scenario. rewrite Hget. fold defaults.
    by rewrite (merge_params_known defaults items). }
  split; [exact Hsame|].
  split.
  { intros Hnone. rewrite Hsame, (known_items_none defaults items Hnone).
    unfold apply_scenario. rewrite Hget. reflexivity. }
  split; [apply merge_params_dom|].
  split; [intros k Hk; by apply merge_params_untouched|].
  split.
  { intros k v front back -> Hk Hback. unfold params. simpl.
    by apply merge_fold_last. }
  intros r st' Hrun. by eapply apply_scenario_params.
Qed.

(** ** The comparison route *)

Lemma engine_has_no_compare_scenarios : engine_getattr "compare_scenarios" = Raise AttributeError.
Proof. reflexivity. Qed.

(** C8.  The route answers 400 for an empty id list and for a list of six
    ids.  For a list of five ids (and for every non-empty list of at most
    five) it evaluates [engine.compare_scenarios]; the engine class defines
    no such attribute, the lookup raises [AttributeError], and the route
    answers 500 with a comparison error instead of succeeding. *)
Theorem C8_compare_route_statuses :
  status (compare_scenarios (CompareRequest true (Some []))) = 400%Z
  ∧ status (compare_scenarios (CompareRequest true (Some [1; 2; 3; 4; 5; 6]%Z))) = 400%Z
  ∧ compare_scenarios (CompareRequest true (Some [1; 2; 3; 4; 5]%Z))
    = Response (ErrorBody "Comparison error") 500
  ∧ (∀ ids : list Z, ids ≠ [] → (length ids ≤ 5)%nat →
       compare_scenarios (CompareRequest true (Some ids))
       = Response (ErrorBody "Comparison error") 500).
Proof.
  repeat split; try reflexivity.
  intros ids Hne Hlen. unfold compare_scenarios. simpl.
  rewrite bool_decide_eq_false_2 by done.
  destruct (decide (5 < length ids)%nat) as [Hgt|_]; [lia|].
  reflexivity.
Qed.

(** ** Effect formulas *)

Lemma effects_dict_dom us eu asia china : dom (effects_dict us eu asia china) = region_keys.
Proof. unfold effects_dict. rewrite !dom_insert_L, dom_empty_L. reflexivity. Qed.

Lemma insert_region_dom (eff : gmap string Q) r v :
  dom eff = region_keys → r ∈ region_keys → dom (<[r := v]> eff) = region_keys.
Proof.
  intros Hdom Hr. rewrite dom_insert_L, Hdom.
  apply leibniz_equiv. apply (subseteq_union_1 (C:=gset string)).
  by apply singleton_subseteq_l.
Qed.

Lemma region_keys_elem r : r ∈ regions → r ∈ region_keys.
Proof. intros Hr. unfold region_keys. by apply elem_of_list_to_set. Qed.

Lemma zero_vector_lookup r : r ∈ regions → ∃ z, zero_vector !! r = Some z ∧ z == 0.
Proof.
  unfold regions. rewrite !elem_of_cons, elem_of_nil.
  intros [-> | [-> | [-> | [-> | []]]]]; eexists; (split; [reflexivity | reflexivity]).
Qed.

Lemma param_num_ok params key d :
  numeric_params params → key ≠ "region_affected" → ∃ q, param_num params key d = Ok q.
Proof.
  intros Hnum Hkey. unfold param_num, param_get.
  destruct (params !! key) as [v|] eqn:Hv; [|by eexists].
  specialize (Hnum key v Hv Hkey). destruct v as [q|]; [by eexists | done].
Qed.

Lemma param_num_duration params d q :
  nonzero_duration params → ¬ d == 0 → param_num params "duration_months" d = Ok q → ¬ q == 0.
Proof.
  unfold nonzero_duration, param_num, param_get. intros Hnz Hd.
  destruct (params !! "duration_months") as [v|] eqn:Hv.
  - destruct v as [q'|]; simpl; [|discriminate]. by intros [= <-].
  - simpl. by intros [= <-].
Qed.

Lemma py_truediv_ok a b : ¬ b == 0 → py_truediv a b = Ok (a / b).
Proof.
  intros Hb. unfold py_truediv.
  destruct (Qeq_bool b 0) eqn:E; [|done].
  apply Qeq_bool_iff in E. contradiction.
Qed.

Lemma py_truediv_zero a b : b == 0 → py_truediv a b = Raise ZeroDivisionError.
Proof.
  intros Hb. unfold py_truediv. apply Qeq_bool_iff in Hb. by rewrite Hb.
Qed.

(** Replace every parameter read by the number it yields. *)
Ltac fetch_params Hnum :=
  repeat match goal with
         | |- context [param_num ?p ?k ?d] =>
             let q := fresh "q" in
             let E := fresh "E" in
             destruct (param_num_ok p k d Hnum ltac:(done)) as [q E]; rewrite E;
             cbn [mbind result_mbind result_bind]
         end.

(** Discharge the division by twice the duration. *)
Ltac duration_nonzero Hnz :=
  match goal with
  | E : param_num _ "duration_months" ?d = Ok ?q |- _ =>
      let Hq := fresh "Hq" in
      assert (¬ q == 0) as Hq by (eapply (param_num_duration _ d); [exact Hnz | lra | exact E]);
      rewrite py_truediv_ok by (intros ?; apply Hq; lra);
      cbn [mbind result_mbind result_bind]
  end.

(** The result is a dict literal over the four regions, possibly updated
    at some of them. *)
Ltac four_regions :=
  eexists; split; [reflexivity|];
  repeat first [ apply effects_dict_dom
               | apply insert_region_dom;
                 [|apply region_keys_elem; unfold regions;
                   rewrite !elem_of_cons; tauto] ].

Section Handlers.

Variable params : gmap string value.
Hypothesis Hnum : numeric_params params.

Lemma demand_growth_regions : four_region_result (_logic_demand_growth params).
Proof. unfold _logic_demand_growth. fetch_params Hnum. four_regions. Qed.

Lemma apac_growth_regions : four_region_result (_logic_apac_growth params).
Proof. unfold _logic_apac_growth. fetch_params Hnum. four_regions. Qed.

Lemma bio_adoption_regions : four_region_result (_logic_bio_adoption params).
Proof. unfold _logic_bio_adoption. fetch_params Hnum. four_regions. Qed.

Lemma epoxy_demand_regions : four_region_result (_logic_epoxy_demand params).
Proof. unfold _logic_epoxy_demand. fetch_params Hnum. four_regions. Qed.

Lemma feedstock_shift_regions : four_region_result (_logic_feedstock_shift params).
Proof. unfold _logic_feedstock_shift. fetch_params Hnum. four_regions. Qed.

Lemma eu_regulatory_regions : four_region_result (_logic_eu_regulatory params).
Proof. unfold _logic_eu_regulatory. fetch_params Hnum. four_regions. Qed.

Lemma asian_advantage_regions : four_region_result (_logic_asian_advantage params).
Proof. unfold _logic_asian_advantage. fetch_params Hnum. four_regions. Qed.

Lemma plant_shutdown_regions : four_region_result (_logic_plant_shutdown params).
Proof.
  unfold _logic_plant_shutdown. fetch_params Hnum.
  repeat case_match; four_regions.
Qed.

Lemma supply_disruption_regions :
  nonzero_duration params → four_region_result (_logic_supply_disruption params).
Proof.
  intros Hnz. unfold _logic_supply_disruption. fetch_params Hnum.
  duration_nonzero Hnz. four_regions.
Qed.

Lemma capacity_expansion_regions :
  nonzero_duration params → four_region_result (_logic_capacity_expansion params).
Proof.
  intros Hnz. unfold _logic_capacity_expansion. fetch_params Hnum.
  duration_nonzero Hnz. four_regions.
Qed.

Lemma americas_stability_regions : four_region_result (_logic_americas_stability params).
Proof. unfold _logic_americas_stability. fetch_params Hnum. four_regions. Qed.

Lemma europe_elevation_regions : four_region_result (_logic_europe_elevation params).
Proof. unfold _logic_europe_elevation. fetch_params Hnum. four_regions. Qed.

Lemma apac_pressure_regions : four_region_result (_logic_apac_pressure params).
Proof. unfold _logic_apac_pressure. fetch_params Hnum. four_regions. Qed.

Lemma asian_undercut_regions : four_region_result (_logic_asian_undercut params).
Proof. unfold _logic_asian_undercut. fetch_params Hnum. four_regions. Qed.

Lemma eu_constraints_regions : four_region_result (_logic_eu_constraints params).
Proof. unfold _logic_eu_constraints. fetch_params Hnum. four_regions. Qed.

End Handlers.

Lemma us_stable_regions params : four_region_result (_logic_us_stable params).
Proof. unfold _logic_us_stable. four_regions. Qed.

Lemma logic_default_zero params : _logic_default params = Ok zero_vector.
Proof. reflexivity. Qed.

Lemma unrecognized_tag_default sc params :
  default "default" (sc_logic sc) ∉ recognized_tags →
  _calculate_price_effects sc params = Ok zero_vector.
Proof.
  intros Htag. unfold _calculate_price_effects, handlers.
  rewrite (not_elem_of_list_to_map_1 handlers_table _ Htag). reflexivity.
Qed.

Lemma get_scenario_cases scenario_id sc :
  get_scenario scenario_id = Some sc → sc ∈ SCENARIOS_list.
Proof.
  unfold get_scenario, SCENARIOS. intros H.
  apply elem_of_list_to_map_2 in H.
  apply list_elem_of_fmap in H as (sc' & [= _ ->] & Hin). exact Hin.
Qed.

Lemma catalog_effects sc params :
  sc ∈ SCENARIOS_list →
  numeric_params params →
  (divides_by_duration sc → nonzero_duration params) →
  four_region_result (_calculate_price_effects sc params).
Proof.
  unfold SCENARIOS_list. rewrite !elem_of_cons, elem_of_nil.
  intros Hsc Hnum Hdur.
  repeat (destruct Hsc as [-> | Hsc]); [..|destruct Hsc].
  - change (four_region_result (_logic_demand_growth params)). by apply demand_growth_regions.
  - change (four_region_result (_logic_apac_growth params)). by apply apac_growth_regions.
  - change (four_region_result (_logic_bio_adoption params)). by apply bio_adoption_regions.
  - change (four_region_result (_logic_epoxy_demand params)). by apply epoxy_demand_regions.
  - change (four_region_result (_logic_feedstock_shift params)). by apply feedstock_shift_regions.
  - change (four_region_result (_logic_eu_regulatory params)). by apply eu_regulatory_regions.
  - change (four_region_result (_logic_asian_advantage params)). by apply asian_advantage_regions.
  - change (four_region_result (_logic_plant_shutdown params)). by apply plant_shutdown_regions.
  - change (four_region_result (_logic_supply_disruption params)).
    apply supply_disruption_regions; [done|]. apply Hdur. by left.
  - change (four_region_result (_logic_capacity_expansion params)).
    apply capacity_expansion_regions; [done|]. apply Hdur. by right.
  - change (four_region_result (_logic_americas_stability params)).
    by apply americas_stability_regions.
  - change (four_region_result (_logic_europe_elevation params)).
    by apply europe_elevation_regions.
  - change (four_region_result (_logic_apac_pressure params)). by apply apac_pressure_regions.
  - change (four_region_result (_logic_asian_undercut params)). by apply asian_undercut_regions.
  - change (four_region_result (_logic_eu_constraints params)). by apply eu_constraints_regions.
  - change (four_region_result (_logic_us_stable params)). by apply us_stable_regions.
Qed.

Lemma catalog_defaults sc :
  sc ∈ SCENARIOS_list →
  numeric_params (sc_parameters sc) ∧ nonzero_duration (sc_parameters sc).
Proof.
  unfold SCENARIOS_list. rewrite !elem_of_cons, elem_of_nil.
  intros Hsc.
  repeat (destruct Hsc as [-> | Hsc]); [..|destruct Hsc];
    (split; [unfold numeric_params; apply (bool_decide_unpack _); vm_compute; exact I
            | vm_compute; discriminate]).
Qed.

(** ** Magnitudes *)

Lemma bound_mult x y a b : Qabs x <= a → Qabs y <= b → Qabs (x * y) <= a * b.
Proof.
  intros Hx Hy. rewrite Qabs_Qmult.
  pose proof (Qabs_nonneg x). pose proof (Qabs_nonneg y). nra.
Qed.

Lemma bound_plus x y a b : Qabs x <= a → Qabs y <= b → Qabs (x + y) <= a + b.
Proof. intros Hx Hy. pose proof (Qabs_triangle x y). lra. Qed.

Lemma bound_opp x a : Qabs x <= a → Qabs (- x) <= a.
Proof. intros Hx. by rewrite Qabs_opp. Qed.

Lemma bound_minus x y a b : Qabs x <= a → Qabs y <= b → Qabs (x - y) <= a + b.
Proof. intros Hx Hy. unfold Qminus. apply bound_plus; [done | by apply bound_opp]. Qed.

Lemma bound_div x y a b : Qabs x <= a → Qabs (/ y) <= b → Qabs (x / y) <= a * b.
Proof. intros Hx Hy. unfold Qdiv. by apply bound_mult. Qed.

Lemma bound_min x c a b : Qabs x <= a → Qabs c <= b → Qabs (py_min x c) <= a + b.
Proof.
  intros Hx Hc. pose proof (Qabs_nonneg x). pose proof (Qabs_nonneg c).
  unfold py_min. destruct (Qle_bool x c); lra.
Qed.

Lemma bound_inv y l : 0 < l → l <= Qabs y → Qabs (/ y) <= / l.
Proof.
  intros Hl Hy. rewrite Qabs_Qinv.
  apply Qle_shift_inv_l; [done|].
  assert (/ Qabs y * l == l / Qabs y) as -> by (unfold Qdiv; ring).
  apply Qle_shift_div_r; lra.
Qed.

Lemma param_num_moderate params key d q :
  moderate_params params → Qabs d <= moderate_bound →
  param_num params key d = Ok q → Qabs q <= moderate_bound.
Proof.
  intros Hmod Hd. unfold param_num, param_get.
  destruct (params !! key) as [v|] eqn:Hv.
  - specialize (Hmod key v Hv). destruct v as [q'|]; simpl; [|discriminate].
    by intros [= <-].
  - simpl. by intros [= <-].
Qed.

Lemma param_num_not_tiny params d q :
  duration_not_tiny params → / moderate_bound <= Qabs d →
  param_num params "duration_months" d = Ok q → / moderate_bound <= Qabs q.
Proof.
  unfold duration_not_tiny, param_num, param_get. intros Hnt Hd.
  destruct (params !! "duration_months") as [v|] eqn:Hv.
  - destruct v as [q'|]; simpl; [|discriminate]. by intros [= <-].
  - simpl. by intros [= <-].
Qed.

Lemma finite_vector_insert (eff : gmap string Q) r v :
  in_float_range v → finite_vector eff → finite_vector (<[r := v]> eff).
Proof. intros Hv Heff. by apply map_Forall_insert_2. Qed.

Lemma finite_vector_empty : finite_vector ∅.
Proof. apply map_Forall_empty. Qed.

(** A bound on the magnitude of an expression, read off its structure. *)
Ltac magnitude :=
  match goal with
  | H : Qabs ?x <= _ |- Qabs ?x <= _ => exact H
  | |- Qabs (?x * ?y) <= _ => eapply bound_mult; magnitude
  | |- Qabs (?x + ?y) <= _ => eapply bound_plus; magnitude
  | |- Qabs (?x - ?y) <= _ => eapply bound_minus; magnitude
  | |- Qabs (- ?x) <= _ => eapply bound_opp; magnitude
  | |- Qabs (?x / ?y) <= _ => eapply bound_div; magnitude
  | |- Qabs (py_min ?x ?y) <= _ => eapply bound_min; magnitude
  | |- Qabs _ <= _ => apply Qle_refl
  end.

(** Every entry of a dict literal is within the range of a float. *)
Ltac finite_entries :=
  unfold effects_dict;
  repeat (apply finite_vector_insert;
          [unfold in_float_range; eapply Qle_trans; [magnitude | vm_compute; discriminate]|]);
  apply finite_vector_empty.

(** The numbers read so far are moderate. *)
Ltac moderate_reads Hmod :=
  repeat match goal with
         | E : param_num ?p ?k ?d = Ok ?q |- _ =>
             lazymatch goal with
             | _ : Qabs q <= moderate_bound |- _ => fail
             | _ => assert (Qabs q <= moderate_bound)
                      by (eapply (param_num_moderate p k d);
                          [exact Hmod | vm_compute; discriminate | exact E])
             end
         end.

Section Finite.

Variable params : gmap string value.
Hypothesis Hnum : numeric_params params.
Hypothesis Hmod : moderate_params params.

(** A formula without division: read the parameters, then bound the four
    entries. *)
Ltac finite_formula f :=
  unfold f; fetch_params Hnum; moderate_reads Hmod;
  cbv zeta; eexists; (split; [reflexivity|]); finite_entries.

Lemma demand_growth_finite : ∃ eff, _logic_demand_growth params = Ok eff ∧ finite_vector eff.
Proof. finite_formula _logic_demand_growth. Qed.

Lemma apac_growth_finite : ∃ eff, _logic_apac_growth params = Ok eff ∧ finite_vector eff.
Proof. finite_formula _logic_apac_growth. Qed.

Lemma bio_adoption_finite : ∃ eff, _logic_bio_adoption params = Ok eff ∧ finite_vector eff.
Proof. finite_formula _logic_bio_adoption. Qed.

Lemma epoxy_demand_finite : ∃ eff, _logic_epoxy_demand params = Ok eff ∧ finite_vector eff.
Proof. finite_formula _logic_epoxy_demand. Qed.

Lemma feedstock_shift_finite : ∃ eff, _logic_feedstock_shift params = Ok eff ∧ finite_vector eff.
Proof. finite_formula _logic_feedstock_shift. Qed.

Lemma eu_regulatory_finite : ∃ eff, _logic_eu_regulatory params = Ok eff ∧ finite_vector eff.
Proof. finite_formula _logic_eu_regulatory. Qed.

Lemma asian_advantage_finite : ∃ eff, _logic_asian_advantage params = Ok eff ∧ finite_vector eff.
Proof. finite_formula _logic_asian_advantage. Qed.

Lemma plant_shutdown_finite : ∃ eff, _logic_plant_shutdown params = Ok eff ∧ finite_vector eff.
Proof.
  unfold _logic_plant_shutdown. fetch_params Hnum. moderate_reads Hmod.
  cbv zeta. repeat case_match; (eexists; split; [reflexivity|]); finite_entries.
Qed.

(** The quotient by twice a duration that is not tiny. *)
Lemma twice_duration_inverse q :
  / moderate_bound <= Qabs q →
  ¬ q * 2 == 0 ∧ Qabs (/ (q * 2)) <= / (/ moderate_bound * 2).
Proof.
  intros Hq.
  assert (0 < / moderate_bound) as Hpos by reflexivity.
  assert (/ moderate_bound * 2 <= Qabs (q * 2)) as Hle.
  { rewrite Qabs_Qmult. change (Qabs 2) with 2. lra. }
  split.
  - intros Hz. rewrite Hz in Hle. change (Qabs 0) with 0 in Hle. lra.
  - apply bound_inv; [lra | exact Hle].
Qed.

(** A formula that divides by twice the duration. *)
Ltac finite_quotient f Htiny :=
  unfold f; fetch_params Hnum; moderate_reads Hmod;
  match goal with
  | E : param_num _ "duration_months" ?d = Ok ?q |- _ =>
      let Hq := fresh "Hq" in
      assert (/ moderate_bound <= Qabs q) as Hq
        by (eapply (param_num_not_tiny _ d); [exact Htiny | vm_compute; discriminate | exact E]);
      destruct (twice_duration_inverse q Hq) as [? ?];
      rewrite py_truediv_ok by done;
      cbn [mbind result_mbind result_bind]
  end;
  cbv zeta; eexists; (split; [reflexivity|]); finite_entries.

Lemma supply_disruption_finite :
  duration_not_tiny params →
  ∃ eff, _logic_supply_disruption params = Ok eff ∧ finite_vector eff.
Proof. intros Htiny. finite_quotient _logic_supply_disruption Htiny. Qed.

Lemma capacity_expansion_finite :
  duration_not_tiny params →
  ∃ eff, _logic_capacity_expansion params = Ok eff ∧ finite_vector eff.
Proof. intros Htiny. finite_quotient _logic_capacity_expansion Htiny. Qed.

Lemma americas_stability_finite :
  ∃ eff, _logic_americas_stability params = Ok eff ∧ finite_vector eff.
Proof. finite_formula _logic_americas_stability. Qed.

Lemma europe_elevation_finite :
  ∃ eff, _logic_europe_elevation params = Ok eff ∧ finite_vector eff.
Proof. finite_formula _logic_europe_elevation. Qed.

Lemma apac_pressure_finite : ∃ eff, _logic_apac_pressure params = Ok eff ∧ finite_vector eff.
Proof. finite_formula _logic_apac_pressure. Qed.

Lemma asian_undercut_finite : ∃ eff, _logic_asian_undercut params = Ok eff ∧ finite_vector eff.
Proof. finite_formula _logic_asian_undercut. Qed.

Lemma eu_constraints_finite : ∃ eff, _logic_eu_constraints params = Ok eff ∧ finite_vector eff.
Proof. finite_formula _logic_eu_constraints. Qed.

End Finite.

Lemma us_stable_finite params : ∃ eff, _logic_us_stable params = Ok eff ∧ finite_vector eff.
Proof.
  unfold _logic_us_stable. cbv zeta. eexists. split; [reflexivity|]. finite_entries.
Qed.

Lemma catalog_finite sc params :
  sc ∈ SCENARIOS_list →
  numeric_params params → moderate_params params →
  (divides_by_duration sc → duration_not_tiny params) →
  ∃ eff, _calculate_price_effects sc params = Ok eff ∧ finite_vector eff.
Proof.
  unfold SCENARIOS_list. rewrite !elem_of_cons, elem_of_nil.
  intros Hsc Hnum Hmod Hdur.
  repeat (destruct Hsc as [-> | Hsc]); [..|destruct Hsc].
  - by apply demand_growth_finite.
  - by apply apac_growth_finite.
  - by apply bio_adoption_finite.
  - by apply epoxy_demand_finite.
  - by apply feedstock_shift_finite.
  - by apply eu_regulatory_finite.
  - by apply asian_advantage_finite.
  - by apply plant_shutdown_finite.
  - apply supply_disruption_finite; [done..|]. apply Hdur. by left.
  - apply capacity_expansion_finite; [done..|]. apply Hdur. by right.
  - by apply americas_stability_finite.
  - by apply europe_elevation_finite.
  - by apply apac_pressure_finite.
  - by apply asian_undercut_finite.
  - by apply eu_constraints_finite.
  - by apply us_stable_finite.
Qed.

Lemma catalog_defaults_moderate sc :
  sc ∈ SCENARIOS_list →
  float_range_params (sc_parameters sc)
  ∧ moderate_params (sc_parameters sc) ∧ duration_not_tiny (sc_parameters sc).
Proof.
  unfold SCENARIOS_list. rewrite !elem_of_cons, elem_of_nil.
  intros Hsc.
  repeat (destruct Hsc as [-> | Hsc]); [..|destruct Hsc];
    (split; [|split];
     [ unfold float_range_params; apply (bool_decide_unpack _); vm_compute; exact I
     | unfold moderate_params; apply (bool_decide_unpack _); vm_compute; exact I
     | vm_compute; discriminate ]).
Qed.




Lemma C7_witness :
  get_scenario 6 = Some scenario_6
  ∧ merge_params (sc_parameters scenario_6)
      (Some [("unknown_key", VNum 1); ("supply_reduction", VNum 0.30)]) !! "unknown_key"
    = sc_parameters scenario_6 !! "unknown_key".
Proof.
  split; [reflexivity|].
  refine (proj1 (proj2 (proj2 (proj2
            (C7_unknown_override_keys_ignored (RT := sample_runtime) sample_engine 6 scenario_6
               [("unknown_key", VNum 1); ("supply_reduction", VNum 0.30)] 0%Z eq_refl))))
            "unknown_key" _).
  apply (bool_decide_unpack _). vm_compute. exact I.
Defined.

(** ** Numbers *)

Lemma Qltb_true a b : Qltb a b = true ↔ a < b.
Proof.
  unfold Qltb. rewrite negb_true_iff.
  destruct (Qle_bool b a) eqn:E.
  - apply Qle_bool_iff in E. split; [discriminate | intros H; exfalso; lra].
  - split; [intros _ | done].
    apply Qnot_le_lt. intros H. apply Qle_bool_iff in H. congruence.
Qed.

Lemma Qltb_false a b : Qltb a b = false ↔ b <= a.
Proof.
  destruct (Qltb a b) eqn:E.
  - apply Qltb_true in E. split; [discriminate | intros H; exfalso; lra].
  - split; [intros _ | done].
    apply Qnot_lt_le. intros H. apply Qltb_true in H. congruence.
Qed.

Lemma py_min_l a b : a <= b → py_min a b = a.
Proof. intros H. unfold py_min. apply Qle_bool_iff in H. by rewrite H. Qed.

Lemma py_min_r a b : b < a → py_min a b = b.
Proof.
  intros H. unfold py_min. destruct (Qle_bool a b) eqn:E; [|done].
  apply Qle_bool_iff in E. exfalso. lra.
Qed.

Lemma py_min_cases a b : (a <= b ∧ py_min a b = a) ∨ (b < a ∧ py_min a b = b).
Proof.
  destruct (Qlt_le_dec b a) as [H|H]; [right | left]; split; auto using py_min_l, py_min_r.
Qed.

Lemma QN_le i j : (i ≤ j)%nat ↔ QN i <= QN j.
Proof. unfold QN. rewrite <- Zle_Qle. lia. Qed.

Lemma QN_lt i j : (i < j)%nat ↔ QN i < QN j.
Proof. unfold QN. rewrite <- Zlt_Qlt. lia. Qed.

Lemma QN_plus i j : QN (i + j) == QN i + QN j.
Proof. unfold QN. rewrite Nat2Z.inj_add, inject_Z_plus. reflexivity. Qed.

Lemma QN_S i : QN (S i) == QN i + 1.
Proof. replace (S i) with (i + 1)%nat by lia. rewrite QN_plus. reflexivity. Qed.

Lemma scenario_start_fifth total : scenario_start total = (total / 5)%nat.
Proof.
  unfold scenario_start, py_int.
  assert (0 <= QN total * 0.2) as Hnn.
  { assert (0 <= QN total) by (apply (QN_le 0); lia). lra. }
  apply Qle_bool_iff in Hnn. rewrite Hnn.
  unfold Qfloor, QN. simpl.
  change (Z.pos (1 * 10)) with (5 * 2)%Z.
  replace (Z.of_nat total * 2 / (5 * 2))%Z with (Z.of_nat total / 5)%Z.
  - change 5%Z with (Z.of_nat 5). rewrite <- (Nat2Z.inj_div total 5). apply Nat2Z.id.
  - symmetry. apply Z.div_mul_cancel_r; lia.
Qed.

Lemma scenario_start_le total : (scenario_start total ≤ total)%nat.
Proof.
  rewrite scenario_start_fifth. apply Nat.Div0.div_le_upper_bound. lia.
Qed.

(** The ramp is an integer: positive means at least one. *)
Lemma ramp_of_integer d : ∃ z : Z, ramp_of d = inject_Z z.
Proof.
  unfold ramp_of, py_min. destruct (Qle_bool _ _).
  - by exists 6%Z.
  - by eexists.
Qed.

Lemma ramp_of_positive d : 0 < ramp_of d → 1 <= ramp_of d.
Proof.
  destruct (ramp_of_integer d) as [z ->].
  change 0 with (inject_Z 0). change 1 with (inject_Z 1).
  rewrite <- Zlt_Qlt, <- Zle_Qle. lia.
Qed.

(** ** The generator *)

Lemma state_after_S `{RT : Runtime} st n :
  state_after st (S n) = state_after (standard_normal st).2 n.
Proof. unfold state_after. apply Nat.iter_succ_r. Qed.

Lemma nth_draw_0 `{RT : Runtime} st : nth_draw st 0 = (standard_normal st).1.
Proof. reflexivity. Qed.

Lemma nth_draw_S `{RT : Runtime} st n :
  nth_draw st (S n) = nth_draw (standard_normal st).2 n.
Proof. unfold nth_draw. by rewrite state_after_S. Qed.

Lemma state_after_plus `{RT : Runtime} st n m :
  state_after st (n + m) = state_after (state_after st n) m.
Proof.
  revert st. induction n as [|n IH]; intros st; [done|].
  simpl plus. by rewrite !state_after_S, IH.
Qed.

Lemma nth_draw_plus `{RT : Runtime} st n m :
  nth_draw st (n + m) = nth_draw (state_after st n) m.
Proof. unfold nth_draw. by rewrite state_after_plus. Qed.

Lemma noise_draw `{RT : Runtime} st :
  np_random_normal 0 0.008 st = (Ok (period_noise st 0), (standard_normal st).2).
Proof.
  unfold np_random_normal, period_noise. rewrite nth_draw_0.
  change (Qltb 0.008 0) with false. cbv iota.
  by destruct (standard_normal st).
Qed.

(** ** The period loop of [_apply_effects] *)

Section PeriodLoop.

Context `{RT : Runtime}.
Variables (baseline : list Q) (effect : Q) (start : nat) (ramp end_ : Q).

(** The ramp branch is only taken with a positive ramp. *)
Lemma ramp_branch_positive i :
  (start ≤ i)%nat → QN i < QN start + ramp → 0 < ramp.
Proof. intros Hi%QN_le Hlt. lra. Qed.

Lemma current_effect_envelope i :
  (start ≤ i)%nat →
  current_effect effect start ramp end_ i = Ok (envelope effect start ramp end_ i).
Proof.
  intros Hi. unfold current_effect, envelope.
  destruct (Qltb (QN i) (QN start + ramp)) eqn:E; [|by destruct (Qltb (QN i) end_)].
  apply Qltb_true in E. pose proof (ramp_branch_positive i Hi E) as Hpos.
  rewrite py_truediv_ok by (intros H0; lra). reflexivity.
Qed.

(** Before [start] the division of the ramp branch may be by zero, but the
    loop never visits such an index. *)
Lemma current_effect_no_zero_division i :
  (start ≤ i)%nat → current_effect effect start ramp end_ i ≠ Raise ZeroDivisionError.
Proof. intros Hi. by rewrite current_effect_envelope. Qed.

Lemma apply_period_run result_ i st b :
  (start ≤ i)%nat → baseline !! i = Some b → (i < length result_)%nat →
  apply_period baseline effect start ramp end_ result_ i st
  = (Ok (<[i := simulated_value effect start ramp end_ st i i b]> result_), (standard_normal st).2).
Proof.
  intros Hi Hb Hlen. unfold apply_period.
  unfold mbind, M_mbind, M_bind, lift.
  rewrite current_effect_envelope by done.
  rewrite noise_draw. unfold py_index. rewrite Hb.
  unfold py_setitem. rewrite decide_True by done.
  unfold simulated_value. by rewrite Nat.sub_diag.
Qed.

Lemma apply_period_index_error result_ i st :
  (start ≤ i)%nat → (baseline !! i = None ∨ (length result_ ≤ i)%nat) →
  apply_period baseline effect start ramp end_ result_ i st
  = (Raise IndexError, (standard_normal st).2).
Proof.
  intros Hi Hbad. unfold apply_period.
  unfold mbind, M_mbind, M_bind, lift.
  rewrite current_effect_envelope by done.
  rewrite noise_draw. unfold py_index, py_setitem.
  destruct (baseline !! i) as [b|]; [|done].
  destruct Hbad as [|Hlen]; [done|].
  rewrite decide_False by lia. done.
Qed.

Lemma period_loop n :
  ∀ s result_ st,
    (start ≤ s)%nat → (s + n ≤ length baseline)%nat → length result_ = length baseline →
    ∃ sim,
      for_each (seq s n) (apply_period baseline effect start ramp end_) result_ st
      = (Ok sim, state_after st n)
      ∧ length sim = length baseline
      ∧ (∀ i, (i < s ∨ s + n ≤ i)%nat → sim !! i = result_ !! i)
      ∧ (∀ i b, (s ≤ i < s + n)%nat → baseline !! i = Some b →
           sim !! i = Some (simulated_value effect start ramp end_ st s i b)).
Proof.
  induction n as [|n IH]; intros s result_ st Hs Hlen Hres.
  - exists result_. simpl. repeat split; [done..|]. intros; lia.
  - destruct (lookup_lt_is_Some_2 baseline s ltac:(lia)) as [b Hb].
    simpl seq. cbn [for_each]. unfold mbind, M_mbind, M_bind.
    rewrite (apply_period_run result_ s st b) by (done || lia).
    destruct (IH (S s) (<[s := simulated_value effect start ramp end_ st s s b]> result_) (standard_normal st).2)
      as (sim & Hrun & Hsl & Hout & Hin);
      [lia | lia | by rewrite length_insert |].
    exists sim. rewrite state_after_S. split; [exact Hrun|]. split; [exact Hsl|]. split.
    + intros i Hi. rewrite Hout by lia. apply list_lookup_insert_ne. lia.
    + intros i b' [Hlo Hhi] Hb'.
      destruct (decide (i = s)) as [->|Hne].
      * rewrite Hout by lia. rewrite list_lookup_insert_eq by lia.
        congruence.
      * rewrite (Hin i b') by (done || lia).
        unfold simulated_value, period_noise. f_equal. f_equal. f_equal. f_equal.
        replace (i - s)%nat with (S (i - S s)) by lia. by rewrite nth_draw_S.
Qed.

(** The loop raises nothing but [IndexError], and that only when the
    baseline is shorter than the period range. *)
Lemma period_loop_errors n :
  ∀ s result_ st,
    (start ≤ s)%nat → length result_ = length baseline →
    ∀ e st', 
      for_each (seq s n) (apply_period baseline effect start ramp end_) result_ st
      = (Raise e, st') → e = IndexError.
Proof.
  induction n as [|n IH]; intros s result_ st Hs Hres e st'.
  - simpl. discriminate.
  - simpl seq. cbn [for_each]. unfold mbind, M_mbind, M_bind.
    destruct (baseline !! s) as [b|] eqn:Hb.
    + rewrite (apply_period_run result_ s st b); [|done..|].
      * apply IH; [lia | by rewrite length_insert].
      * rewrite Hres. by eapply lookup_lt_Some.
    + rewrite apply_period_index_error by (done || by left). by intros [= <- _].
Qed.

End PeriodLoop.

(** ** The region loop of [_apply_effects] *)

Section RegionLoop.

Context `{RT : Runtime}.

Lemma apply_region_num baseline effect d total st :
  apply_region baseline effect (VNum d) total st
  = for_each (seq (scenario_start total) (total - scenario_start total))
      (apply_period baseline effect (scenario_start total) (ramp_of d) (end_of total d))
      baseline st.
Proof. reflexivity. Qed.

Lemma apply_region_str baseline effect s total st :
  apply_region baseline effect (VStr s) total st = (Raise TypeError, st).
Proof. reflexivity. Qed.

Lemma apply_region_spec baseline effect d total st :
  (total ≤ length baseline)%nat →
  ∃ sim,
    apply_region baseline effect (VNum d) total st
    = (Ok sim, state_after st (total - scenario_start total))
    ∧ region_simulated baseline effect d total st sim.
Proof.
  intros Hlen. rewrite apply_region_num.
  pose proof (scenario_start_le total) as Hstart.
  destruct (period_loop baseline effect (scenario_start total) (ramp_of d) (end_of total d)
              (total - scenario_start total) (scenario_start total) baseline st)
    as (sim & Hrun & Hsl & Hout & Hin); [lia | lia | done |].
  exists sim. split; [exact Hrun|]. split; [exact Hsl|]. split.
  - intros i Hi. apply Hout. lia.
  - intros i b Hi Hb. apply Hin; [lia | done].
Qed.

(** Whatever the duration and the baseline, the region loop never divides
    by zero: it returns, or raises [TypeError] (a duration that is not a
    number) or [IndexError] (a baseline shorter than the dates). *)
Lemma apply_region_errors baseline effect duration total st e st' :
  apply_region baseline effect duration total st = (Raise e, st') →
  e = TypeError ∨ e = IndexError.
Proof.
  destruct duration as [d|s].
  - rewrite apply_region_num. intros Hrun. right.
    eapply period_loop_errors; [| |exact Hrun]; done.
  - rewrite apply_region_str. intros [= <- _]. by left.
Qed.

Variables (self : engine) (effects : gmap string Q) (d : Q).

#[local] Abbreviation total := (length (dates self)).
#[local] Abbreviation per_region := (total - scenario_start total)%nat.

Hypothesis Hcovers : baseline_covers_dates self.

Lemma region_loop rs :
  ∀ acc st,
    ∃ sims,
      for_each rs (region_step self effects (VNum d) total) acc st
      = (Ok (acc ++ sims)%list,
         state_after st (length (filter (fun r => is_Some (prices self !! r)) rs) * per_region))
      ∧ sims.*1 = filter (fun r => is_Some (prices self !! r)) rs
      ∧ ∀ j r sim, sims !! j = Some (r, sim) →
          ∃ baseline,
            prices self !! r = Some baseline
            ∧ region_simulated baseline (default 0 (effects !! r)) d total
                (state_after st (j * per_region)) sim.
Proof.
  induction rs as [|r rs IH]; intros acc st.
  - exists []. simpl. rewrite app_nil_r. split; [done|]. split; [done|].
    intros j r sim [=].
  - cbn [for_each]. unfold mbind, M_mbind, M_bind. unfold region_step at 1.
    rewrite filter_cons.
    destruct (prices self !! r) as [baseline|] eqn:Hr.
    + destruct (apply_region_spec baseline (default 0 (effects !! r)) d total st
                  (Hcovers r baseline Hr)) as (sim & Hrun & Hsim).
      unfold mbind, M_mbind, M_bind. rewrite Hrun. cbn [mret M_mret M_ret].
      destruct (IH (acc ++ [(r, sim)])%list (state_after st per_region))
        as (sims & Hloop & Hkeys & Hall).
      exists ((r, sim) :: sims). rewrite decide_True by (by eexists).
      split.
      { rewrite Hloop. rewrite <- app_assoc. simpl. f_equal.
        rewrite <- state_after_plus. f_equal. }
      split; [by rewrite fmap_cons, Hkeys|].
      intros [|j] r' sim' Hj; simpl in Hj.
      * injection Hj as <- <-. exists baseline. split; [done|]. exact Hsim.
      * destruct (Hall j r' sim' Hj) as (baseline' & Hb' & Hsim').
        exists baseline'. split; [done|].
        replace (S j * per_region)%nat with (per_region + j * per_region)%nat by lia.
        by rewrite state_after_plus.
    + cbn [mret M_mret M_ret].
      destruct (IH acc st) as (sims & Hloop & Hkeys & Hall).
      exists sims. rewrite decide_False by (intros [? ?]; done).
      split; [exact Hloop|]. split; [exact Hkeys | exact Hall].
Qed.

End RegionLoop.

Lemma _apply_effects_spec `{RT : Runtime} self effects params d st :
  param_get params "duration_months" (VNum 12) = VNum d →
  baseline_covers_dates self →
  let total := length (dates self) in
  let per_region := (total - scenario_start total)%nat in
  let seeded := np_random_seed (params_seed params) in
  ∃ simulated,
    _apply_effects self effects params st
    = (Ok simulated, state_after seeded (length (present_regions self) * per_region))
    ∧ simulated.*1 = present_regions self
    ∧ ∀ j r sim, simulated !! j = Some (r, sim) →
        ∃ baseline,
          prices self !! r = Some baseline
          ∧ region_simulated baseline (default 0 (effects !! r)) d total
              (state_after seeded (j * per_region)) sim.
Proof.
  intros Hd Hcov total per_region seeded.
  unfold _apply_effects. rewrite Hd.
  unfold mbind, M_mbind, M_bind, seed_generator.
  destruct (region_loop self effects d Hcov regions [] seeded) as (sims & Hrun & Hkeys & Hall).
  exists sims. split; [exact Hrun|]. split; [exact Hkeys | exact Hall].
Qed.

(** ** The three phases *)

Section Phases.

Variables (effect : Q) (start : nat) (ramp end_ : Q) (i : nat).

Lemma envelope_ramp :
  QN i < QN start + ramp →
  envelope effect start ramp end_ i == effect * (QN i - QN start + 1) / ramp.
Proof.
  intros H%Qltb_true. unfold envelope. rewrite H. unfold Qdiv. ring.
Qed.

Lemma envelope_plateau :
  QN start + ramp <= QN i → QN i < end_ → envelope effect start ramp end_ i == effect.
Proof.
  intros H1%Qltb_false H2%Qltb_true. unfold envelope. rewrite H1, H2. reflexivity.
Qed.

Lemma envelope_decay :
  QN start + ramp <= QN i → end_ <= QN i →
  envelope effect start ramp end_ i
  == effect * (1 - py_min ((QN i - end_) / 12) 1.0 * 0.4).
Proof.
  intros H1%Qltb_false H2%Qltb_false. unfold envelope. rewrite H1, H2. reflexivity.
Qed.

End Phases.

Lemma ramp_of_le_6 d : ramp_of d <= 6.
Proof. unfold ramp_of. destruct (py_min_cases 6 (inject_Z (Qfloor (d / 3)))) as [[? ->]|[? ->]]; lra. Qed.

Lemma ramp_of_le_third d : ramp_of d * 3 <= d.
Proof.
  pose proof (Qfloor_le (d / 3)) as Hf.
  assert (d / 3 * 3 == d) as Hd by field.
  unfold ramp_of. destruct (py_min_cases 6 (inject_Z (Qfloor (d / 3)))) as [[? ->]|[? ->]]; lra.
Qed.

(** Past the end of the scenario the loop is past the ramp as well. *)
Lemma decay_after_ramp d total i :
  (scenario_start total ≤ i < total)%nat →
  end_of total d <= QN i →
  QN (scenario_start total) + ramp_of d <= QN i.
Proof.
  intros [Hlo%QN_le Hhi%QN_lt] Hend.
  pose proof (ramp_of_le_third d) as Hr.
  unfold end_of in Hend.
  destruct (py_min_cases (QN (scenario_start total) + d) (QN total)) as [[? E]|[? E]];
    rewrite E in Hend; [|lra].
  destruct (Qlt_le_dec d 0); lra.
Qed.

Lemma ramp_of_6 : ramp_of 6 = 2.
Proof. reflexivity. Qed.

Lemma end_of_6 total : end_of total 6 <= QN (scenario_start total) + 6.
Proof.
  unfold end_of. destruct (py_min_cases (QN (scenario_start total) + 6) (QN total)) as [[? ->]|[? ->]]; lra.
Qed.

Lemma end_of_6_inside total i :
  (i < total)%nat → QN i < QN (scenario_start total) + 6 → QN i < end_of total 6.
Proof.
  intros Hi%QN_lt H6. unfold end_of.
  destruct (py_min_cases (QN (scenario_start total) + 6) (QN total)) as [[? ->]|[? ->]]; lra.
Qed.

Lemma end_of_6_outside total i :
  (i < total)%nat → end_of total 6 <= QN i → end_of total 6 = QN (scenario_start total) + 6.
Proof.
  intros Hi%QN_lt H6. unfold end_of in *.
  destruct (py_min_cases (QN (scenario_start total) + 6) (QN total)) as [[? E]|[? E]];
    rewrite E in *; [done | lra].
Qed.

Lemma py_min_compat a a' b : a == a' → py_min a b == py_min a' b.
Proof.
  intros Ha.
  destruct (py_min_cases a b) as [[? ->]|[? ->]], (py_min_cases a' b) as [[? ->]|[? ->]]; lra.
Qed.

Lemma py_min_zero : py_min 0 1.0 = 0.
Proof. reflexivity. Qed.

Lemma py_min_positive a b : 0 < a → 0 < b → 0 < py_min a b.
Proof. intros Ha Hb. destruct (py_min_cases a b) as [[? ->]|[? ->]]; lra. Qed.


Lemma sample_draw_unit (st : Z) : (sample_draw st).1 = 1 ∨ (sample_draw st).1 = -1.
Proof. unfold sample_draw. simpl. destruct (st mod 2 =? 0)%Z; [by left | by right]. Qed.

Lemma sample_noise (st : Z) (k : nat) :
  period_noise (RT := sample_runtime) st k = 0 + 0.008 * 1
  ∨ period_noise (RT := sample_runtime) st k = 0 + 0.008 * -1.
Proof.
  destruct (sample_draw_unit (state_after (RT := sample_runtime) st k)) as [H | H];
    [left | right]; unfold period_noise; do 2 f_equal; exact H.
Qed.



Lemma params_seed_range `{RT : Runtime} params : (0 ≤ params_seed params < 100000)%Z.
Proof. unfold params_seed. apply Z.mod_pos_bound. lia. Qed.

(** Two dicts with the same items, inserted in any order, get the same seed. *)
Lemma params_seed_order `{RT : Runtime} (items1 items2 : list (string * value)) :
  NoDup items1.*1 → items1 ≡ₚ items2 →
  params_seed (list_to_map items1) = params_seed (list_to_map items2).
Proof.
  intros Hnd Hperm. f_equal. by apply list_to_map_proper.
Qed.


Lemma sample_engine_covers : baseline_covers_dates sample_engine.
Proof. unfold baseline_covers_dates. apply (bool_decide_unpack _). vm_compute. exact I. Qed.

Lemma in_float_range_36 : in_float_range 36.
Proof. vm_compute. discriminate. Qed.



(** ** Short and negative durations *)

Lemma ramp_of_short d : d < 3 → ramp_of d <= 0.
Proof.
  intros Hd.
  assert (Qfloor (d / 3) ≤ 0)%Z as Hf.
  { assert (Qfloor (d / 3) < 1)%Z; [|lia].
    rewrite Zlt_Qlt. eapply Qle_lt_trans; [apply Qfloor_le|].
    change (inject_Z 1) with 1.
    apply Qlt_shift_div_r; [reflexivity | lra]. }
  rewrite Zle_Qle in Hf. change (inject_Z 0) with 0 in Hf.
  unfold ramp_of. destruct (py_min_cases 6 (inject_Z (Qfloor (d / 3)))) as [[? ->]|[? ->]]; lra.
Qed.

Lemma envelope_short effect total d :
  0 <= d → d < 3 → (scenario_start total < total)%nat →
  envelope effect (scenario_start total) (ramp_of d) (end_of total d) (scenario_start total)
  == effect.
Proof.
  intros Hd0 Hd3 Hlt%QN_lt.
  pose proof (ramp_of_short d Hd3) as Hramp.
  destruct (Qlt_le_dec (QN (scenario_start total)) (end_of total d)) as [Hend | Hend].
  - apply envelope_plateau; lra.
  - rewrite envelope_decay by lra.
    assert ((QN (scenario_start total) - end_of total d) / 12 == 0) as Hz.
    { unfold end_of in *.
      destruct (py_min_cases (QN (scenario_start total) + d) (QN total)) as [[? E]|[? E]];
        rewrite E in *; [|lra].
      assert (d == 0) as Hd by lra. rewrite Hd. field. }
    rewrite (py_min_compat _ 0 _ Hz), py_min_zero. ring.
Qed.

Lemma envelope_negative effect total d :
  d < 0 →
  envelope effect (scenario_start total) (ramp_of d) (end_of total d) (scenario_start total)
  == effect * (1 - py_min (- d / 12) 1.0 * 0.4).
Proof.
  intros Hd.
  pose proof (ramp_of_short d ltac:(lra)) as Hramp.
  pose proof (scenario_start_le total) as Hle%QN_le.
  assert (end_of total d = QN (scenario_start total) + d) as Hend.
  { unfold end_of. apply py_min_l. lra. }
  rewrite envelope_decay by (rewrite ?Hend; lra).
  rewrite Hend.
  rewrite (py_min_compat _ (- d / 12)) by field. reflexivity.
Qed.




(** ** Rounding *)

Lemma round_half_even_range x :
  round_half_even x = Qfloor x ∨ round_half_even x = (Qfloor x + 1)%Z.
Proof.
  unfold round_half_even.
  destruct (Qcompare _ _); [destruct (Z.even _)|..]; auto.
Qed.

Lemma round_half_even_mono x y : x <= y → (round_half_even x ≤ round_half_even y)%Z.
Proof.
  intros Hxy.
  pose proof (Qfloor_resp_le x y Hxy) as Hf.
  destruct (Z.eq_dec (Qfloor x) (Qfloor y)) as [Heq | Hne].
  - unfold round_half_even. rewrite Heq.
    destruct (Qcompare_spec (x - inject_Z (Qfloor y)) 0.5) as [Ex | Ex | Ex];
      destruct (Qcompare_spec (y - inject_Z (Qfloor y)) 0.5) as [Ey | Ey | Ey];
      try (destruct (Z.even (Qfloor y))); try lia; exfalso; lra.
  - destruct (round_half_even_range x) as [-> | ->],
             (round_half_even_range y) as [-> | ->]; lia.
Qed.

Lemma scale_positive n : 0 < inject_Z (10 ^ Z.of_nat n).
Proof.
  change 0 with (inject_Z 0). rewrite <- Zlt_Qlt. apply Z.pow_pos_nonneg; lia.
Qed.

Lemma py_round_mono x y n : x <= y → py_round x n <= py_round y n.
Proof.
  intros Hxy. unfold py_round.
  pose proof (scale_positive n) as Hs.
  set (s := inject_Z (10 ^ Z.of_nat n)) in *.
  assert (x * s <= y * s) as Hm by nra.
  apply round_half_even_mono in Hm. rewrite Zle_Qle in Hm.
  apply Qle_shift_div_l; [exact Hs|].
  assert (inject_Z (round_half_even (x * s)) / s * s == inject_Z (round_half_even (x * s))) as ->
    by (field; lra).
  exact Hm.
Qed.

(** ** Loops *)

Section Loops.

Context `{RT : Runtime} {A S : Type}.
Variable body : S → A → M S.

(** An invariant indexed by the number of iterations done, for a loop whose
    body always returns. *)
Lemma for_each_total (I : nat → S → Prop) (xs : list A) :
  (∀ k x acc st, xs !! k = Some x → I k acc →
     ∃ acc' st', body acc x st = (Ok acc', st') ∧ I (Datatypes.S k) acc') →
  ∀ acc st, I 0%nat acc →
    ∃ acc' st', for_each xs body acc st = (Ok acc', st') ∧ I (length xs) acc'.
Proof.
  revert I. induction xs as [|x xs IH]; intros I Hstep acc st H0.
  - by exists acc, st.
  - destruct (Hstep 0%nat x acc st eq_refl H0) as (acc1 & st1 & Hrun & H1).
    destruct (IH (fun k => I (Datatypes.S k)) (fun k => Hstep (Datatypes.S k)) acc1 st1 H1)
      as (acc' & st' & Hloop & Hend).
    exists acc', st'. split; [|exact Hend].
    cbn [for_each]. unfold mbind, M_mbind, M_bind. by rewrite Hrun.
Qed.

(** The same invariant for a loop whose body may raise: it holds whenever
    the loop returns. *)
Lemma for_each_partial (I : nat → S → Prop) (xs : list A) :
  (∀ k x acc st acc' st', xs !! k = Some x → I k acc →
     body acc x st = (Ok acc', st') → I (Datatypes.S k) acc') →
  ∀ acc st acc' st', I 0%nat acc →
    for_each xs body acc st = (Ok acc', st') → I (length xs) acc'.
Proof.
  revert I. induction xs as [|x xs IH]; intros I Hstep acc st acc' st' H0.
  - simpl. by intros [= <- _].
  - cbn [for_each]. unfold mbind, M_mbind, M_bind.
    destruct (body acc x st) as [[acc1|e] st1] eqn:Hrun; [|discriminate].
    apply (IH (fun k => I (Datatypes.S k)) (fun k => Hstep (Datatypes.S k))).
    by eapply (Hstep 0%nat x).
Qed.

End Loops.

(** ** The fallback forecast *)

Lemma _estimate_seasonality_length prices_ s :
  _estimate_seasonality prices_ = Some s → length s = 12%nat.
Proof.
  unfold _estimate_seasonality. cbv zeta. case_decide; [discriminate|].
  intros Hs. apply (inj Some) in Hs. rewrite <- Hs, !length_fmap. apply length_seq.
Qed.

Section Fallback.

Context `{RT : Runtime}.
Hypothesis Hsqrt : sqrt_nonneg.

Lemma np_std_nonneg xs : 0 <= np_std xs.
Proof. unfold np_std. apply Hsqrt. Qed.

Lemma simple_step_spec trend_ mean_price prices_ last_month_idx acc i st k :
  step_invariant k acc →
  ∃ acc' st',
    simple_step trend_ mean_price (np_std prices_) (_estimate_seasonality prices_)
      last_month_idx acc i st = (Ok acc', st')
    ∧ step_invariant (Datatypes.S k) acc'.
Proof.
  intros (Hlen & Hlow & Hup).
  pose proof (np_std_nonneg prices_) as Hstd.
  unfold simple_step, mbind, M_mbind, M_bind, lift.
  assert (∃ seasonal,
            match _estimate_seasonality prices_ with
            | Some s_ => py_index s_ ((last_month_idx + i) mod 12)
            | None => Ok 0
            end = Ok seasonal) as [seasonal ->].
  { destruct (_estimate_seasonality prices_) as [s|] eqn:Es; [|by eexists].
    apply _estimate_seasonality_length in Es.
    destruct (lookup_lt_is_Some_2 s ((last_month_idx + i) mod 12)) as [v Hv].
    { rewrite Es. apply Nat.mod_upper_bound. lia. }
    exists v. unfold py_index. by rewrite Hv. }
  unfold np_random_normal.
  assert (Qltb (np_std prices_ * 0.03) 0 = false) as -> by (apply Qltb_false; lra).
  destruct (standard_normal st) as [z st1].
  eexists _, _. split; [reflexivity|].
  pose proof (Hsqrt (QN i + 1)) as Hroot.
  assert (0 <= 1.96 * (np_std prices_ * np_sqrt (QN i + 1) * 0.2)) as Hunc by nra.
  unfold step_invariant. cbn [point_forecast lower_bound upper_bound].
  split; [rewrite length_app; simpl; lia|].
  split; (apply Forall2_app; [done|]); apply Forall2_cons; (split; [|constructor]);
    apply py_round_mono; lra.
Qed.

End Fallback.

Lemma py_last_ok {A : Type} (xs : list A) : xs ≠ [] → ∃ x, py_last xs = Ok x ∧ last xs = Some x.
Proof.
  intros Hne. apply last_is_Some in Hne as [x Hx].
  exists x. unfold py_last. by rewrite Hx.
Qed.

Lemma py_last_inv {A : Type} (xs : list A) x : py_last xs = Ok x → last xs = Some x ∧ xs ≠ [].
Proof.
  unfold py_last. destruct (last xs) as [y|] eqn:Hy; [|discriminate].
  intros [= <-]. split; [done|]. apply last_is_Some. by eexists.
Qed.

Section FallbackRegion.

Context `{RT : Runtime}.
Hypothesis Hsqrt : sqrt_nonneg.

Lemma simple_region_spec prices_ months st :
  prices_ ≠ [] →
  ∃ f st',
    simple_region prices_ months st = (Ok f, st')
    ∧ interval_ordered f ∧ horizon_length months f.
Proof.
  intros Hne. destruct (py_last_ok prices_ Hne) as (last_price & Hlast & _).
  unfold simple_region, mbind, M_mbind, M_bind, lift, seed_generator.
  rewrite Hlast.
  match goal with
  | |- context [for_each ?xs ?body ?acc0 ?st0] =>
      destruct (for_each_total body step_invariant xs) with (acc := acc0) (st := st0)
        as (acc & st' & Hloop & Hlen & Hlow & Hup)
  end.
  { intros k x acc st0 _ Hinv. by apply simple_step_spec. }
  { repeat split; constructor. }
  rewrite Hloop. eexists _, _. split; [reflexivity|].
  rewrite length_seq in Hlen.
  split; [by split|].
  unfold horizon_length. cbn [point lower_95 upper_95].
  split; [done|]. split.
  - by rewrite (Forall2_length _ _ _ Hlow).
  - by rewrite <- (Forall2_length _ _ _ Hup).
Qed.

Lemma simple_region_returns prices_ months st f st' :
  simple_region prices_ months st = (Ok f, st') →
  interval_ordered f ∧ horizon_length months f.
Proof.
  intros Hrun.
  destruct prices_ as [|p prices_]; [discriminate|].
  destruct (simple_region_spec (p :: prices_) months st ltac:(done))
    as (f0 & st0 & Hrun0 & Hord & Hlen).
  rewrite Hrun in Hrun0. by injection Hrun0 as <- <-.
Qed.

End FallbackRegion.

(** ** The region loop of the forecasts *)

Section ForecastLoop.

Context `{RT : Runtime}.
Variable region_fn : list Q → M region_forecast.
Variable P : region_forecast → Prop.

Lemma forecast_loop_returns simulated :
  (∀ prices_ st f st', region_fn prices_ st = (Ok f, st') → P f) →
  ∀ acc st acc' st',
    Forall (fun p => P p.2) acc →
    for_each simulated (forecast_region_step region_fn) acc st = (Ok acc', st') →
    Forall (fun p => P p.2) acc' ∧ acc'.*1 = (acc.*1 ++ simulated.*1)%list.
Proof.
  intros Hfn. induction simulated as [|item simulated IH]; intros acc st acc' st' Hacc.
  - simpl. intros [= <- _]. by rewrite app_nil_r.
  - cbn [for_each]. unfold mbind, M_mbind, M_bind.
    unfold forecast_region_step at 1. unfold mbind, M_mbind, M_bind.
    destruct (region_fn item.2 st) as [[f|e] st1] eqn:Hf; [|discriminate].
    cbn [mret M_mret M_ret]. intros Hloop.
    apply IH in Hloop as [Hall Hkeys].
    + split; [exact Hall|]. rewrite Hkeys, fmap_app, <- app_assoc. reflexivity.
    + apply Forall_app. split; [exact Hacc|]. constructor; [|constructor].
      by eapply Hfn.
Qed.

Lemma forecast_loop_total simulated :
  (∀ item st, item ∈ simulated → ∃ f st', region_fn item.2 st = (Ok f, st')) →
  ∀ acc st, ∃ acc' st',
    for_each simulated (forecast_region_step region_fn) acc st = (Ok acc', st').
Proof.
  induction simulated as [|item simulated IH]; intros Hfn acc st.
  - by exists acc, st.
  - cbn [for_each]. unfold mbind, M_mbind, M_bind.
    unfold forecast_region_step at 1. unfold mbind, M_mbind, M_bind.
    destruct (Hfn item st ltac:(left)) as (f & st1 & ->).
    cbn [mret M_mret M_ret]. apply IH.
    intros item' st0 Hin. apply Hfn. by right.
Qed.

End ForecastLoop.

(** ** The Prophet forecast *)

Section ProphetRegion.

Context `{RT : Runtime}.

Lemma rounded_column_length (f : prophet_row → Q) rows months :
  (months ≤ length rows)%nat →
  length ((fun r => py_round (f r) 4) <$> py_tail months rows) = months.
Proof.
  intros Hle. rewrite length_fmap. unfold py_tail. rewrite length_drop. lia.
Qed.

Lemma rounded_columns_ordered (f g : prophet_row → Q) rows :
  Forall (fun r => f r <= g r) rows →
  Forall2 Qle ((fun r => py_round (f r) 4) <$> rows) ((fun r => py_round (g r) 4) <$> rows).
Proof.
  intros Hrows. apply Forall2_fmap. apply Forall_Forall2_diag.
  eapply Forall_impl; [exact Hrows|]. intros r Hr. by apply py_round_mono.
Qed.

(** The rounding keeps the order of Prophet's values. *)
Lemma rounded_rows_ordered rows f :
  rounded_rows rows f → Forall row_ordered rows → interval_ordered f.
Proof.
  intros (Hp & Hl & Hu) Hrows. unfold interval_ordered. rewrite Hp, Hl, Hu.
  split; apply rounded_columns_ordered;
    (eapply Forall_impl; [exact Hrows|]); by intros r [? ?].
Qed.

(** What the Prophet strategy returns for a region is what Prophet
    predicted, rounded. *)
Lemma prophet_region_returns self params months ongoing prices_ st f st' :
  prophet_region self params months ongoing prices_ st = (Ok f, st') →
  (∃ rows, predicted_rows self months rows ∧ rounded_rows rows f)
  ∧ (prophet_frame_complete → horizon_length months f).
Proof.
  unfold prophet_region, mbind, M_mbind, M_bind, lift.
  case_decide; [|discriminate].
  destruct (if ongoing then _ else _) as [hist_reg|]; [|discriminate].
  destruct (if ongoing then _ else _) as [future_reg|]; [|discriminate].
  destruct (prophet_fit_predict _ _ _ _ _ _ _) as [[frame|e] st1] eqn:Hp; [|discriminate].
  cbn [mret M_mret M_ret]. intros [= <- _]. split.
  - exists (py_tail months (pf_rows frame)). split; [|by repeat split].
    by eexists _, _, _, _, _, _.
  - intros Hcomplete. specialize (Hcomplete _ _ _ _ _ _ _ _ _ Hp).
    unfold horizon_length. cbn [point lower_95 upper_95].
    repeat split; apply rounded_column_length; lia.
Qed.

End ProphetRegion.

(** ** Forecast dates *)

Lemma forecast_dates_length last_date months : length (forecast_dates last_date months) = months.
Proof. unfold forecast_dates. by rewrite length_fmap, length_seq. Qed.

Lemma forecast_dates_lookup last_date months i :
  (i < months)%nat →
  forecast_dates last_date months !! i = Some (add_months last_date (Z.of_nat i + 1)).
Proof.
  intros Hi. unfold forecast_dates.
  rewrite list_lookup_fmap, lookup_seq_lt by done. reflexivity.
Qed.

Lemma add_months_index d k : month_index (add_months d k) = (month_index d + k)%Z.
Proof.
  unfold month_index, add_months. simpl.
  pose proof (Z.div_mod (month d - 1 + k) 12 ltac:(lia)). lia.
Qed.

Lemma add_months_month d k : (1 ≤ month (add_months d k) ≤ 12)%Z.
Proof.
  unfold add_months. simpl.
  pose proof (Z.mod_pos_bound (month d - 1 + k) 12 ltac:(lia)). lia.
Qed.

Lemma add_months_day d k :
  day (add_months d k)
  = Z.min (day d) (days_in_month (year (add_months d k)) (month (add_months d k))).
Proof. reflexivity. Qed.

(** ** The fallback forecast: lengths, with any square root *)

Section FallbackLengths.

Context `{RT : Runtime}.

Lemma simple_step_lengths trend_ mean_price std_price seasonality last_month_idx
    acc i st acc' st' k :
  horizon_length k (RegionForecast (point_forecast acc) (lower_bound acc) (upper_bound acc)
                      None None) →
  simple_step trend_ mean_price std_price seasonality last_month_idx acc i st = (Ok acc', st') →
  horizon_length (S k) (RegionForecast (point_forecast acc') (lower_bound acc')
                          (upper_bound acc') None None).
Proof.
  unfold horizon_length. cbn [point lower_95 upper_95]. intros (H1 & H2 & H3).
  unfold simple_step, mbind, M_mbind, M_bind, lift.
  destruct (match seasonality with Some _ => _ | None => _ end) as [seasonal|]; [|discriminate].
  destruct (np_random_normal _ _ _) as [[noise|] st1]; [|discriminate].
  cbn [mret M_mret M_ret]. intros [= <- _].
  cbn [point_forecast lower_bound upper_bound]. rewrite !length_app. simpl. lia.
Qed.

Lemma simple_region_lengths prices_ months st f st' :
  simple_region prices_ months st = (Ok f, st') → horizon_length months f.
Proof.
  unfold simple_region, mbind, M_mbind, M_bind, lift, seed_generator.
  destruct (py_last prices_) as [last_price|]; [|discriminate].
  match goal with
  | |- context [for_each ?xs ?body ?acc0 ?st0] =>
      destruct (for_each xs body acc0 st0) as [[acc|] st1] eqn:Hloop; [|discriminate];
      apply (for_each_partial body
               (fun k a => horizon_length k
                  (RegionForecast (point_forecast a) (lower_bound a) (upper_bound a)
                     None None)) xs) in Hloop
  end.
  - rewrite length_seq in Hloop. cbn [mret M_mret M_ret]. intros [= <- _]. exact Hloop.
  - intros k x a s a' s' _ Hk Hstep. by eapply simple_step_lengths.
  - by repeat split.
Qed.

End FallbackLengths.

(** ** The forecast as a whole *)

Section Forecast.

Context `{RT : Runtime}.
Variables (self : engine) (simulated : list (string * list Q))
          (params : gmap string value) (months : nat).
Variable P : region_forecast → Prop.

#[local] Abbreviation forecast_shape := (forecast_shape_of self simulated months P).

Hypothesis P_simple :
  ∀ prices_ st f st', simple_region prices_ months st = (Ok f, st') → P f.
Hypothesis P_prophet :
  ∀ ongoing prices_ st f st',
    prophet_region self params months ongoing prices_ st = (Ok f, st') → P f.

Lemma simple_forecast_returns st fc st' :
  _generate_simple_forecast self simulated params months st = (Ok fc, st') →
  forecast_shape fc.
Proof.
  unfold _generate_simple_forecast, mbind, M_mbind, M_bind, lift.
  destruct (for_each simulated _ [] st) as [[per_region|] st1] eqn:Hloop; [|discriminate].
  destruct (py_last (dates self)) as [last_date|] eqn:Hlast; [|discriminate].
  cbn [mret M_mret M_ret]. intros [= <- _].
  apply (forecast_loop_returns _ P) in Hloop as [Hall Hkeys]; [|exact P_simple|constructor].
  apply py_last_inv in Hlast as [Hlast _].
  unfold forecast_shape_of. cbn [fc_regions fc_dates fc_model].
  split; [exact Hall|]. split; [exact Hkeys|]. split; [by exists last_date | by right].
Qed.

Lemma prophet_forecast_returns st fc st' :
  _generate_prophet_forecast self simulated params months st = (Ok fc, st') →
  forecast_shape fc.
Proof.
  unfold _generate_prophet_forecast, mbind, M_mbind, M_bind, lift.
  destruct (num _) as [d|]; [|discriminate].
  destruct (for_each simulated _ [] st) as [[per_region|] st1] eqn:Hloop; [|discriminate].
  destruct (py_last (dates self)) as [last_date|] eqn:Hlast; [|discriminate].
  cbn [mret M_mret M_ret]. intros [= <- _].
  apply (forecast_loop_returns _ P) in Hloop as [Hall Hkeys];
    [|intros ? ? ? ?; apply P_prophet|constructor].
  apply py_last_inv in Hlast as [Hlast _].
  unfold forecast_shape_of. cbn [fc_regions fc_dates fc_model].
  split; [exact Hall|]. split; [exact Hkeys|]. split; [by exists last_date | by left].
Qed.

Lemma _generate_forecast_returns st fc st' :
  _generate_forecast self simulated params months st = (Ok fc, st') →
  forecast_shape fc.
Proof.
  unfold _generate_forecast, try_except.
  destruct PROPHET_AVAILABLE; [|apply simple_forecast_returns].
  destruct (_generate_prophet_forecast self simulated params months st)
    as [[fc0|e] st0] eqn:Hp.
  - intros [= <- _]. by eapply prophet_forecast_returns.
  - apply simple_forecast_returns.
Qed.

End Forecast.

Section ForecastTotal.

Context `{RT : Runtime}.
Hypothesis Hsqrt : sqrt_nonneg.

Lemma simple_forecast_total self simulated params months st :
  dates self ≠ [] → Forall (fun p => p.2 ≠ []) simulated →
  ∃ fc st', _generate_simple_forecast self simulated params months st = (Ok fc, st').
Proof.
  intros Hdates Hne.
  unfold _generate_simple_forecast, mbind, M_mbind, M_bind, lift.
  destruct (forecast_loop_total (fun prices_ => simple_region prices_ months) simulated)
    with (acc := @nil (string * region_forecast)) (st := st) as (per_region & st1 & ->).
  { intros item st0 Hin.
    destruct (simple_region_spec Hsqrt item.2 months st0) as (f & st2 & Hrun & _).
    - rewrite Forall_forall in Hne. by apply Hne.
    - by exists f, st2. }
  destruct (py_last_ok (dates self) Hdates) as (last_date & -> & _).
  by eexists _, _.
Qed.

Lemma _generate_forecast_total self simulated params months st :
  dates self ≠ [] → Forall (fun p => p.2 ≠ []) simulated →
  ∃ fc st', _generate_forecast self simulated params months st = (Ok fc, st').
Proof.
  intros Hdates Hne. unfold _generate_forecast, try_except.
  destruct PROPHET_AVAILABLE; [|by apply simple_forecast_total].
  destruct (_generate_prophet_forecast self simulated params months st) as [[fc|e] st0].
  - by exists fc, st0.
  - by apply simple_forecast_total.
Qed.

End ForecastTotal.

Lemma interval_ordered_steps f : interval_ordered f → ordered_at_every_step f.
Proof.
  intros [Hlow Hup].
  split; [exact (Forall2_length _ _ _ Hlow)|].
  split; [symmetry; exact (Forall2_length _ _ _ Hup)|].
  intros i lo p up Hlo Hp Hu. split.
  - by eapply (Forall2_lookup_lr _ _ _ _ _ _ Hlow).
  - by eapply (Forall2_lookup_lr _ _ _ _ _ _ Hup).
Qed.

Section Strategies.

Context `{RT : Runtime}.
Variables (self : engine) (simulated : list (string * list Q))
          (params : gmap string value) (months : nat).

Lemma simple_forecast_model st fc st' :
  _generate_simple_forecast self simulated params months st = (Ok fc, st') →
  fc_model fc = "simple_fallback".
Proof.
  unfold _generate_simple_forecast, mbind, M_mbind, M_bind, lift.
  destruct (for_each simulated _ [] st) as [[per_region|] st1]; [|discriminate].
  destruct (py_last (dates self)) as [last_date|]; [|discriminate].
  cbn [mret M_mret M_ret]. by intros [= <- _].
Qed.

Lemma prophet_forecast_model st fc st' :
  _generate_prophet_forecast self simulated params months st = (Ok fc, st') →
  fc_model fc = "prophet".
Proof.
  unfold _generate_prophet_forecast, mbind, M_mbind, M_bind, lift.
  destruct (num _) as [d|]; [|discriminate].
  destruct (for_each simulated _ [] st) as [[per_region|] st1]; [|discriminate].
  destruct (py_last (dates self)) as [last_date|]; [|discriminate].
  cbn [mret M_mret M_ret]. by intros [= <- _].
Qed.

(** The fallback strategy orders its bounds itself. *)
Lemma simple_forecast_ordered st fc st' :
  sqrt_nonneg →
  _generate_simple_forecast self simulated params months st = (Ok fc, st') →
  ∀ region f, (region, f) ∈ fc_regions fc → ordered_at_every_step f.
Proof.
  intros Hsqrt Hrun region f Hin.
  assert (forecast_shape_of self simulated months interval_ordered fc) as (Hall & _).
  { eapply simple_forecast_returns; [|exact Hrun].
    intros ? ? ? ? Hr. by apply (simple_region_returns Hsqrt) in Hr as [? _]. }
  rewrite Forall_forall in Hall. apply interval_ordered_steps. exact (Hall _ Hin).
Qed.

(** The Prophet strategy hands on what Prophet predicted. *)
Lemma prophet_forecast_rows st fc st' :
  _generate_prophet_forecast self simulated params months st = (Ok fc, st') →
  ∀ region f, (region, f) ∈ fc_regions fc →
    ∃ rows, predicted_rows self months rows ∧ rounded_rows rows f.
Proof.
  intros Hrun region f Hin.
  assert (forecast_shape_of self simulated months
            (fun g => ∃ rows, predicted_rows self months rows ∧ rounded_rows rows g) fc)
    as (Hall & _).
  { eapply prophet_forecast_returns; [|exact Hrun].
    intros ? ? ? ? ? Hr. by apply prophet_region_returns in Hr as [Hr _]. }
  rewrite Forall_forall in Hall. exact (Hall _ Hin).
Qed.

(** [_generate_forecast] returns what one of the two strategies returned. *)
Lemma _generate_forecast_strategy st fc st' :
  _generate_forecast self simulated params months st = (Ok fc, st') →
  _generate_prophet_forecast self simulated params months st = (Ok fc, st')
  ∨ ∃ st0, _generate_simple_forecast self simulated params months st0 = (Ok fc, st').
Proof.
  unfold _generate_forecast, try_except.
  destruct PROPHET_AVAILABLE; [|intros Hrun; right; by exists st].
  destruct (_generate_prophet_forecast self simulated params months st)
    as [[fc0|e] st0] eqn:Hp.
  - intros [= <- <-]. by left.
  - intros Hrun. right. by exists st0.
Qed.

End Strategies.


(** C9.  Whenever a forecast is returned, by either strategy or by
    [_generate_forecast] (Prophet being taken to predict one row per
    history and horizon period), it has one entry per simulated region,
    each with exactly [months] points, lower and upper bounds, and [months]
    dates; date [i] is the last date of the baseline moved by [i + 1]
    calendar months: its month index is [i + 1] larger, its month lies in
    1..12, and its day is the day of the last date clipped to the length of
    that month.  A forecast is returned whenever the baseline has a date
    and every simulated series has a value (the square root being
    non-negative). *)
Theorem C9_forecast_horizon_and_dates `{RT : Runtime}
    (self : engine) (simulated : list (string * list Q))
    (params : gmap string value) (months : nat) (st : rng) :
  prophet_frame_complete →
  (∀ fc st',
     _generate_forecast self simulated params months st = (Ok fc, st')
     ∨ _generate_prophet_forecast self simulated params months st = (Ok fc, st')
     ∨ _generate_simple_forecast self simulated params months st = (Ok fc, st') →
     length (fc_dates fc) = months
     ∧ (fc_regions fc).*1 = simulated.*1
     ∧ (∀ region f, (region, f) ∈ fc_regions fc → horizon_length months f)
     ∧ ∃ last_date,
         last (dates self) = Some last_date
         ∧ ∀ i, (i < months)%nat →
             ∃ dt, fc_dates fc !! i = Some dt
               ∧ dt = add_months last_date (Z.of_nat i + 1)
               ∧ month_index dt = (month_index last_date + (Z.of_nat i + 1))%Z
               ∧ (1 ≤ month dt ≤ 12)%Z
               ∧ day dt = Z.min (day last_date) (days_in_month (year dt) (month dt)))
  ∧ (sqrt_nonneg → dates self ≠ [] → Forall (fun p => p.2 ≠ []) simulated →
     ∃ fc st', _generate_forecast self simulated params months st = (Ok fc, st')).
Proof.
  intros Hcomplete. split; [|intros Hsqrt; by apply _generate_forecast_total].
  intros fc st' Hrun.
  assert (forecast_shape_of self simulated months (horizon_length months) fc)
    as (Hall & Hkeys & (last_date & Hlast & Hdates) & _).
  { assert (∀ ongoing prices_ s g s',
              prophet_region self params months ongoing prices_ s = (Ok g, s') →
              horizon_length months g)
      as Hproph by (intros ? ? ? ? ? Hr; apply prophet_region_returns in Hr as [_ Hr]; auto).
    destruct Hrun as [Hrun | [Hrun | Hrun]].
    - eapply _generate_forecast_returns; [| |exact Hrun]; eauto using simple_region_lengths.
    - eapply prophet_forecast_returns; [|exact Hrun]; eauto.
    - eapply simple_forecast_returns; [|exact Hrun]; eauto using simple_region_lengths. }
  split; [rewrite Hdates; apply forecast_dates_length|].
  split; [exact Hkeys|]. split.
  { intros region f Hin. rewrite Forall_forall in Hall. exact (Hall _ Hin). }
  exists last_date. split; [exact Hlast|].
  intros i Hi. eexists. split; [rewrite Hdates; by apply forecast_dates_lookup|].
  split; [reflexivity|]. split; [apply add_months_index|].
  split; [apply add_months_month | apply add_months_day].
Qed.

(** ** The sample runtime meets the assumptions on the libraries *)

Lemma sample_sqrt_nonneg : sqrt_nonneg (RT := sample_runtime).
Proof.
  intros x. simpl. unfold sample_sqrt. change 0 with (inject_Z 0).
  rewrite <- Zle_Qle. apply Z.sqrt_nonneg.
Qed.

Lemma sample_prophet_complete : prophet_frame_complete (RT := sample_runtime).
Proof.
  intros cfg ds y hr fr months st frame st'. simpl. unfold sample_prophet.
  destruct (sample_draw st) as [z st1]. intros [= <- _]. simpl.
  by rewrite length_fmap, length_seq.
Qed.



Lemma C9_witness :
  prophet_frame_complete (RT := sample_runtime)
  ∧ ∃ fc st',
      _generate_forecast (RT := sample_runtime) sample_engine [("us_ech", sample_baseline)]
        (sc_parameters scenario_6) 12 0%Z = (Ok fc, st').
Proof.
  split; [exact sample_prophet_complete|].
  refine (proj2 (C9_forecast_horizon_and_dates (RT := sample_runtime) sample_engine
                   [("us_ech", sample_baseline)] (sc_parameters scenario_6) 12 0%Z
                   sample_prophet_complete) sample_sqrt_nonneg _ _).
  - discriminate.
  - repeat constructor. discriminate.
Defined.

(** ** Metrics *)

Lemma assoc_get_lookup {A : Type} (kvs : list (string * A)) key v :
  assoc_get kvs key = Some v → ∃ j, kvs !! j = Some (key, v).
Proof.
  induction kvs as [|[k x] kvs IH]; [discriminate|]. simpl.
  case_decide as Hk.
  - intros [= <-]. subst k. by exists 0%nat.
  - intros Hget. destruct (IH Hget) as [j Hj]. by exists (S j).
Qed.

Lemma QN_positive n : (0 < n)%nat → 0 < QN n.
Proof. intros Hn. change 0 with (QN 0). by apply QN_lt. Qed.

Lemma region_metrics_ok baseline sim :
  baseline ≠ [] → sim ≠ [] → Qeq_bool (Qsum baseline) 0 = false →
  ∃ m, region_metrics_of baseline sim = Ok m.
Proof.
  intros Hb Hs Hsum. unfold region_metrics_of.
  destruct baseline as [|b0 baseline]; [done|]. destruct sim as [|s0 sim]; [done|].
  cbn [np_mean np_max np_min mbind result_mbind result_bind].
  rewrite py_truediv_ok.
  - cbn [mbind result_mbind result_bind]. by eexists.
  - intros Hzero.
    assert (0 < QN (length (b0 :: baseline))) as Hn by (apply QN_positive; simpl; lia).
    fold (QN (length (b0 :: baseline))) in Hzero.
    assert (Qsum (b0 :: baseline) == 0) as H0.
    { rewrite <- (Qmult_0_l (QN (length (b0 :: baseline)))), <- Hzero. field. lra. }
    apply Qeq_bool_iff in H0. congruence.
Qed.

Lemma metrics_loop_ok self simulated rs :
  (∀ r sim baseline, assoc_get simulated r = Some sim → prices self !! r = Some baseline →
     ∃ m, region_metrics_of baseline sim = Ok m) →
  ∀ acc, ∃ ms, metrics_loop self simulated rs acc = Ok ms.
Proof.
  intros Hok. induction rs as [|r rs IH]; intros acc; [by eexists|].
  simpl. destruct (assoc_get simulated r) as [sim|] eqn:Hs; [|apply IH].
  destruct (prices self !! r) as [baseline|] eqn:Hp; [|apply IH].
  destruct (Hok r sim baseline Hs Hp) as [m ->].
  cbn [mbind result_mbind result_bind]. apply IH.
Qed.

(** ** [apply_scenario] returns on a well-formed baseline *)

Lemma well_formed_covers self : well_formed_engine self → baseline_covers_dates self.
Proof.
  intros [_ Hall] r baseline Hr. destruct (Hall r baseline Hr) as [-> _]. done.
Qed.

Lemma apply_scenario_total `{RT : Runtime} self scenario_id sc custom st d eff :
  sqrt_nonneg → well_formed_engine self →
  get_scenario scenario_id = Some sc →
  _calculate_price_effects sc (merge_params (sc_parameters sc) custom) = Ok eff →
  param_get (merge_params (sc_parameters sc) custom) "duration_months" (VNum 12) = VNum d →
  ∃ r st',
    apply_scenario self scenario_id custom st = (Ok r, st')
    ∧ parameters_used r = merge_params (sc_parameters sc) custom
    ∧ price_effects r = (fun v => py_round (v * 100) 2) <$> eff.
Proof.
  intros Hsqrt Hwf Hget Heff Hd.
  pose proof (well_formed_covers self Hwf) as Hcov.
  destruct Hwf as [Hdates Hall].
  assert (0 < length (dates self))%nat as Hpos.
  { destruct (dates self); [done | simpl; lia]. }
  unfold apply_scenario. rewrite Hget.
  unfold mbind, M_mbind, M_bind, lift. rewrite Heff.
  destruct (_apply_effects_spec self eff _ d st Hd Hcov) as (simulated & -> & Hkeys & Hsims).
  assert (∀ j r sim, simulated !! j = Some (r, sim) →
            ∃ baseline, prices self !! r = Some baseline ∧ length sim = length (dates self))
    as Hlen.
  { intros j r sim Hj. destruct (Hsims j r sim Hj) as (baseline & Hb & Hl & _).
    exists baseline. split; [done|]. rewrite Hl. by destruct (Hall r baseline Hb). }
  destruct (metrics_loop_ok self simulated regions) with (acc := @nil (string * region_metrics))
    as [ms Hms].
  { intros r sim baseline Hs Hp.
    apply assoc_get_lookup in Hs as [j Hj].
    destruct (Hlen j r sim Hj) as (baseline' & Hb' & Hl).
    destruct (Hall r baseline Hp) as [Hbl Hsum].
    apply region_metrics_ok; [| |done].
    - intros ->. simpl in Hbl. lia.
    - intros ->. simpl in Hl. lia. }
  unfold _calculate_metrics. rewrite Hms.
  destruct (_generate_forecast_total Hsqrt self simulated
              (merge_params (sc_parameters sc) custom) 12
              (state_after (np_random_seed (params_seed (merge_params (sc_parameters sc) custom)))
                 (length (present_regions self)
                  * (length (dates self) - scenario_start (length (dates self))))))
    as (fc & st' & ->); [done| |].
  { apply Forall_forall. intros [r sim] Hin.
    apply list_elem_of_lookup in Hin as [j Hj].
    destruct (Hlen j r sim Hj) as (_ & _ & Hl). simpl. intros ->. simpl in Hl. lia. }
  cbn [mret M_mret M_ret]. eexists _, _. split; [reflexivity|]. by split.
Qed.

(** ** The regulatory scenario *)

Lemma eu_regulatory_formula params supply_cut compliance duration :
  param_num params "supply_reduction" 0.15 = Ok supply_cut →
  param_num params "compliance_cost" 0.10 = Ok compliance →
  param_num params "duration_months" 36 = Ok duration →
  ∃ eff,
    _logic_eu_regulatory params = Ok eff
    ∧ eff !! "eu_ech" = Some ((supply_cut * 0.5 + compliance) * py_min (duration / 12) 2)
    ∧ eff !! "us_ech" = Some (supply_cut * 0.02)
    ∧ eff !! "asia_ech" = Some (- supply_cut * 0.02)
    ∧ eff !! "china_ech" = Some (- supply_cut * 0.03).
Proof.
  intros Hs Hc Hd. unfold _logic_eu_regulatory. rewrite Hs, Hc, Hd.
  cbn [mbind result_mbind result_bind]. eexists. split; [reflexivity|].
  repeat split; reflexivity.
Qed.

(** C3.  With the default parameters of scenario 6 the EU effect is
    [(0.15 * 0.5 + 0.10) * min(36 / 12, 2)], which is 0.35, and on a
    well-formed baseline [apply_scenario] returns and reports
    [round(0.35 * 100, 2)], which is 35.0, for ['eu_ech'].  For every
    parameter set whose three numbers are within the range of a float the
    formula gives the US region [supply_cut * 0.02] and the two Asian
    regions [-supply_cut * 0.02] and [-supply_cut * 0.03]. *)
Theorem C3_eu_regulatory_defaults `{RT : Runtime} (self : engine) (st : rng) :
  sqrt_nonneg →
  well_formed_engine self →
  get_scenario 6 = Some scenario_6
  ∧ (∃ eff eu,
       _calculate_price_effects scenario_6 (sc_parameters scenario_6) = Ok eff
       ∧ eff !! "eu_ech" = Some eu
       ∧ eu = (0.15 * 0.5 + 0.10) * py_min (36 / 12) 2
       ∧ py_min (36 / 12) 2 = 2
       ∧ eu == 0.35
       ∧ ∃ r st' pe,
           apply_scenario self 6 None st = (Ok r, st')
           ∧ price_effects r !! "eu_ech" = Some pe
           ∧ pe = py_round (eu * 100) 2
           ∧ pe == 35.0)
  ∧ (∀ params supply_cut compliance duration,
       param_num params "supply_reduction" 0.15 = Ok supply_cut →
       param_num params "compliance_cost" 0.10 = Ok compliance →
       param_num params "duration_months" 36 = Ok duration →
       in_float_range supply_cut → in_float_range compliance → in_float_range duration →
       ∃ eff,
         _logic_eu_regulatory params = Ok eff
         ∧ eff !! "eu_ech" = Some ((supply_cut * 0.5 + compliance) * py_min (duration / 12) 2)
         ∧ eff !! "us_ech" = Some (supply_cut * 0.02)
         ∧ eff !! "asia_ech" = Some (- supply_cut * 0.02)
         ∧ eff !! "china_ech" = Some (- supply_cut * 0.03)).
Proof.
  intros Hsqrt Hwf. split; [reflexivity|].
  split; [|intros params supply_cut compliance duration Hs Hc Hd _ _ _;
           by apply eu_regulatory_formula].
  destruct (eu_regulatory_formula (sc_parameters scenario_6) 0.15 0.10 36
              eq_refl eq_refl eq_refl) as (eff & Heff & Heu & _).
  change (_logic_eu_regulatory (sc_parameters scenario_6))
    with (_calculate_price_effects scenario_6 (sc_parameters scenario_6)) in Heff.
  exists eff, ((0.15 * 0.5 + 0.10) * py_min (36 / 12) 2).
  split; [exact Heff|]. split; [exact Heu|]. split; [reflexivity|].
  split; [reflexivity|]. split; [reflexivity|].
  destruct (apply_scenario_total self 6 scenario_6 None st 36 eff Hsqrt Hwf eq_refl Heff eq_refl)
    as (r & st' & Hrun & _ & Hpe).
  exists r, st', (py_round ((0.15 * 0.5 + 0.10) * py_min (36 / 12) 2 * 100) 2).
  split; [exact Hrun|]. split; [by rewrite Hpe, lookup_fmap, Heu|].
  split; reflexivity.
Qed.

Lemma sample_engine_well_formed : well_formed_engine sample_engine.
Proof.
  split; [discriminate|]. apply (bool_decide_unpack _). vm_compute. exact I.
Qed.

Lemma C3_witness :
  sqrt_nonneg (RT := sample_runtime)
  ∧ well_formed_engine sample_engine
  ∧ ∃ r st' pe,
      apply_scenario (RT := sample_runtime) sample_engine 6 None 0%Z = (Ok r, st')
      ∧ price_effects r !! "eu_ech" = Some pe
      ∧ pe == 35.0.
Proof.
  split; [exact sample_sqrt_nonneg|]. split; [exact sample_engine_well_formed|].
  destruct (proj1 (proj2 (C3_eu_regulatory_defaults (RT := sample_runtime) sample_engine 0%Z
                            sample_sqrt_nonneg sample_engine_well_formed)))
    as (eff & eu & _ & _ & _ & _ & _ & r & st' & pe & Hrun & Hpe & _ & H35).
  exists r, st', pe. split; [exact Hrun|]. split; [exact Hpe | exact H35].
Defined.

(** ** Determinism *)

Lemma apply_scenario_state_independent `{RT : Runtime} self scenario_id custom st1 st2 :
  (apply_scenario self scenario_id custom st1).1 = (apply_scenario self scenario_id custom st2).1.
Proof.
  unfold apply_scenario. destruct (get_scenario scenario_id) as [sc|]; [|reflexivity].
  unfold mbind, M_mbind, M_bind, lift.
  destruct (_calculate_price_effects sc _) as [eff|e]; [|reflexivity].
  unfold _apply_effects, mbind, M_mbind, M_bind, seed_generator. reflexivity.
Qed.

(** C4.  The outcome of [apply_scenario] (the returned result, or the
    exception) does not depend on the state in which earlier calls left
    the random generator: the generator is re-seeded from the parameters
    before the first draw.  So a second call with the same scenario id and
    overrides on the same engine returns the same result as the first, in
    particular the same [simulated_prices] and the same [forecast]. *)
Theorem C4_determinism `{RT : Runtime}
    (self : engine) (scenario_id : Z) (custom : option (list (string * value)))
    (st1 st2 : rng) :
  (apply_scenario self scenario_id custom st1).1 = (apply_scenario self scenario_id custom st2).1
  ∧ ∀ r1 st1',
      apply_scenario self scenario_id custom st1 = (Ok r1, st1') →
      ∃ r2 st2',
        apply_scenario self scenario_id custom st1' = (Ok r2, st2')
        ∧ r2 = r1
        ∧ simulated_prices r2 = simulated_prices r1
        ∧ forecast r2 = forecast r1.
Proof.
  split; [apply apply_scenario_state_independent|].
  intros r1 st1' Hrun.
  pose proof (apply_scenario_state_independent self scenario_id custom st1' st1) as Hsame.
  rewrite Hrun in Hsame. simpl in Hsame.
  destruct (apply_scenario self scenario_id custom st1') as [res st2'] eqn:Hrun2.
  simpl in Hsame. subst res. by exists r1, st2'.
Qed.

(** * Further properties of the code *)

(** ** The entries of the metrics *)

Lemma metrics_loop_entries self simulated rs :
  ∀ acc ms,
    metrics_loop self simulated rs acc = Ok ms →
    ∃ new,
      ms = (acc ++ new)%list
      ∧ new.*1 = filter (fun r => is_Some (assoc_get simulated r) ∧ is_Some (prices self !! r)) rs
      ∧ Forall (fun p => ∃ sim baseline,
                  assoc_get simulated p.1 = Some sim ∧ prices self !! p.1 = Some baseline
                  ∧ region_metrics_of baseline sim = Ok p.2) new.
Proof.
  induction rs as [|r rs IH]; intros acc ms; simpl.
  - intros [= <-]. exists []. by rewrite app_nil_r.
  - rewrite filter_cons.
    destruct (assoc_get simulated r) as [sim|] eqn:Hs.
    + destruct (prices self !! r) as [baseline|] eqn:Hp.
      * destruct (region_metrics_of baseline sim) as [m|] eqn:Hm; [|discriminate].
        cbn [mbind result_mbind result_bind]. intros Hloop.
        destruct (IH _ _ Hloop) as (new & -> & Hkeys & Hall).
        exists ((r, m) :: new). rewrite <- app_assoc. split; [done|].
        rewrite decide_True by (split; by eexists).
        split; [by rewrite fmap_cons, Hkeys|].
        constructor; [|done]. by exists sim, baseline.
      * intros Hloop. destruct (IH _ _ Hloop) as (new & -> & Hkeys & Hall).
        exists new. rewrite decide_False by (intros [_ [? ?]]; done). done.
    + intros Hloop. destruct (IH _ _ Hloop) as (new & -> & Hkeys & Hall).
      exists new. rewrite decide_False by (intros [[? ?] _]; done). done.
Qed.

(** ** The seasonal pattern of the fallback forecast *)

Lemma Qsum_deviations xs c k :
  Qsum ((fun x => (x - c) * k) <$> xs) == (Qsum xs - QN (length xs) * c) * k.
Proof.
  induction xs as [|x xs IH].
  - simpl. change (QN 0) with 0. ring.
  - cbn [fmap list_fmap Qsum foldr length]. fold (Qsum xs).
    change (foldr Qplus 0 ((fun x => (x - c) * k) <$> xs))
      with (Qsum ((fun x => (x - c) * k) <$> xs)).
    rewrite IH, QN_S. ring.
Qed.

(** X3.  [_estimate_seasonality] gives no pattern for a history of less than two
    years.  With two years or more it gives twelve monthly adjustments that
    sum to zero (they are deviations from their own mean), and only the
    complete years count: the months after the last complete year do not
    change the result. *)
Theorem seasonality_adjustments_cancel (prices_ : list Q) :
  ((length prices_ < 24)%nat → _estimate_seasonality prices_ = None)
  ∧ ((24 ≤ length prices_)%nat →
     ∃ seasonal,
       _estimate_seasonality prices_ = Some seasonal
       ∧ length seasonal = 12%nat
       ∧ Qsum seasonal == 0
       ∧ _estimate_seasonality (take (length prices_ / 12 * 12) prices_) = Some seasonal).
Proof.
  split.
  - intros Hshort. unfold _estimate_seasonality. cbv zeta. by rewrite decide_True by lia.
  - intros Hlong.
    assert (length prices_ / 12 * 12 ≤ length prices_)%nat as Hcut
      by (rewrite Nat.mul_comm; apply Nat.Div0.mul_div_le).
    assert (2 ≤ length prices_ / 12)%nat as Hyears
      by (apply (Nat.Div0.div_le_mono 24 _ 12) in Hlong; exact Hlong).
    unfold _estimate_seasonality. cbv zeta.
    rewrite decide_False by lia.
    eexists. split; [reflexivity|]. split; [by rewrite !length_fmap, length_seq|].
    split.
    + rewrite Qsum_deviations. rewrite !length_fmap, length_seq.
      change (QN 12) with 12. field.
    + rewrite length_take, Nat.min_l by exact Hcut.
      rewrite decide_False by lia.
      rewrite Nat.div_mul by lia.
      rewrite take_take, Nat.min_id. reflexivity.
Qed.

(** ** The scenario regressor *)

Lemma mapM_result_total {A B : Type} (f : A → result B) (P : A → B → Prop) xs :
  (∀ x, x ∈ xs → ∃ y, f x = Ok y ∧ P x y) →
  ∃ ys, mapM f xs = Ok ys ∧ Forall2 P xs ys.
Proof.
  induction xs as [|x xs IH]; intros Hall.
  - exists []. split; [reflexivity | constructor].
  - destruct (Hall x ltac:(left)) as (y & Hy & HP).
    destruct IH as (ys & Hys & HF); [intros x' Hin; apply Hall; by right|].
    exists (y :: ys). split; [|by constructor].
    cbn [mapM]. rewrite Hy. cbn [mbind result_mbind result_bind].
    rewrite Hys. reflexivity.
Qed.

Lemma seq_indexed {B : Type} (P : nat → B → Prop) n (ys : list B) :
  Forall2 P (seq 0 n) ys →
  length ys = n ∧ ∀ i y, ys !! i = Some y → P i y.
Proof.
  intros HF. split.
  - rewrite <- (Forall2_length _ _ _ HF). apply length_seq.
  - intros i y Hy.
    destruct (Forall2_lookup_r _ _ _ _ _ HF Hy) as (j & Hj & HP).
    apply lookup_seq in Hj as [-> _]. exact HP.
Qed.

(** The ramp counts whole periods: inside it, [i - start + 1] is at most
    the ramp. *)
Lemma ramp_progress_bounds d start i :
  (start ≤ i)%nat → QN i < QN start + ramp_of d →
  1 <= ramp_of d ∧ 1 <= QN i - QN start + 1 ∧ QN i - QN start + 1 <= ramp_of d.
Proof.
  intros Hi Hlt. pose proof Hi as Hq%QN_le.
  assert (0 < ramp_of d) as Hpos by lra.
  split; [by apply ramp_of_positive|]. split; [lra|].
  destruct (ramp_of_integer d) as [z Hz]. rewrite Hz in *.
  assert (QN i - QN start + 1 == inject_Z (Z.of_nat i - Z.of_nat start + 1)) as ->.
  { unfold QN, Z.sub. rewrite !inject_Z_plus, inject_Z_opp. ring. }
  rewrite <- Zle_Qle.
  assert (inject_Z (Z.of_nat i) < inject_Z (Z.of_nat start + z)) as Hz'.
  { rewrite inject_Z_plus. exact Hlt. }
  rewrite <- Zlt_Qlt in Hz'. lia.
Qed.

Lemma decay_factor_bounds x k :
  0 <= x → 0 <= k → k <= 1 → 1 - k <= 1 - py_min (x / 12) 1.0 * k ∧ 1 - py_min (x / 12) 1.0 * k <= 1.
Proof.
  intros Hx Hk0 Hk1.
  assert (0 <= x / 12) as Hx12 by (apply Qle_shift_div_l; lra).
  destruct (py_min_cases (x / 12) 1.0) as [[H ->]|[H ->]]; nra.
Qed.

Section Regressor.

Variables (total : nat) (d : Q).

#[local] Abbreviation start := (scenario_start total).

(** One entry of the regressor, against the effect the simulation applies
    at the same period. *)
Lemma regressor_entry_spec effect i :
  ∃ x,
    regressor_entry start (ramp_of d) (end_of total d) i = Ok x
    ∧ ((i < start)%nat → x = 0)
    ∧ ((start ≤ i)%nat →
       1 # 6 <= x ∧ x <= 1
       ∧ ∃ ce, current_effect effect start (ramp_of d) (end_of total d) i = Ok ce
               ∧ ce == effect * x).
Proof.
  unfold regressor_entry. case_decide as Hlt.
  - exists 0. split; [done|]. split; [done | lia].
  - assert (start ≤ i)%nat as Hi by lia.
    rewrite current_effect_envelope by done. unfold envelope.
    destruct (Qltb (QN i) (QN start + ramp_of d)) eqn:E1.
    + apply Qltb_true in E1.
      destruct (ramp_progress_bounds d start i Hi E1) as (Hr & Hlo & Hhi).
      pose proof (ramp_of_le_6 d) as H6.
      rewrite py_truediv_ok by (intros H0; lra).
      eexists. split; [reflexivity|]. split; [lia|]. intros _.
      split; [|split; [|eexists; split; reflexivity]].
      * apply Qle_shift_div_l; [lra|]. lra.
      * apply Qle_shift_div_r; [lra|]. lra.
    + destruct (Qltb (QN i) (end_of total d)) eqn:E2.
      * exists 1.0. split; [done|]. split; [lia|]. intros _.
        split; [lra|]. split; [lra|]. eexists. split; [reflexivity | ring].
      * apply Qltb_false in E2.
        destruct (decay_factor_bounds (QN i - end_of total d) 0.4) as [Hlo Hhi]; [lra..|].
        eexists. split; [reflexivity|]. split; [lia|]. intros _.
        split; [lra|]. split; [lra|]. eexists. split; reflexivity.
Qed.

End Regressor.

Lemma create_regressor_num n_periods params total d :
  param_get params "duration_months" (VNum 12) = VNum d →
  _create_scenario_regressor n_periods params total
  = mapM (regressor_entry (scenario_start total) (ramp_of d) (end_of total d)) (seq 0 n_periods).
Proof. intros Hd. unfold _create_scenario_regressor. rewrite Hd. reflexivity. Qed.

Lemma create_regressor_returns n_periods params total d :
  param_get params "duration_months" (VNum 12) = VNum d →
  ∃ regressor,
    _create_scenario_regressor n_periods params total = Ok regressor
    ∧ length regressor = n_periods.
Proof.
  intros Hd. rewrite (create_regressor_num _ _ _ d Hd).
  destruct (mapM_result_total
              (regressor_entry (scenario_start total) (ramp_of d) (end_of total d))
              (fun _ _ => True) (seq 0 n_periods)) as (reg & Hreg & HF).
  { intros i _. destruct (regressor_entry_spec total d 0 i) as (x & Hx & _). by exists x. }
  exists reg. split; [exact Hreg|]. by destruct (seq_indexed _ _ _ HF).
Qed.

(** X4.  For every numeric duration within the range of a float, zero, short
    and negative ones included, [_create_scenario_regressor] returns (it
    never divides by a zero ramp)
    an array of [n_periods] entries; the entries before the start of the
    scenario are 0 and every entry from the start on lies between 1/6 and
    1. *)
Theorem scenario_regressor_range (n_periods : nat) (params : gmap string value)
    (total_periods : nat) (d : Q) :
  param_get params "duration_months" (VNum 12) = VNum d →
  in_float_range d →
  ∃ regressor,
    _create_scenario_regressor n_periods params total_periods = Ok regressor
    ∧ length regressor = n_periods
    ∧ ∀ i x, regressor !! i = Some x →
        ((i < scenario_start total_periods)%nat → x = 0)
        ∧ ((scenario_start total_periods ≤ i)%nat → 1 # 6 <= x ∧ x <= 1).
Proof.
  intros Hd _. rewrite (create_regressor_num _ _ _ d Hd).
  destruct (mapM_result_total
              (regressor_entry (scenario_start total_periods) (ramp_of d) (end_of total_periods d))
              (fun i x => ((i < scenario_start total_periods)%nat → x = 0)
                          ∧ ((scenario_start total_periods ≤ i)%nat → 1 # 6 <= x ∧ x <= 1))
              (seq 0 n_periods)) as (reg & Hreg & HF).
  { intros i _. destruct (regressor_entry_spec total_periods d 0 i) as (x & Hx & Hbefore & Hafter).
    exists x. split; [exact Hx|]. split; [exact Hbefore|].
    intros Hi. destruct (Hafter Hi) as (H1 & H2 & _). by split. }
  exists reg. split; [exact Hreg|]. by apply seq_indexed.
Qed.

Lemma scenario_regressor_range_witness :
  ∃ regressor,
    _create_scenario_regressor 10 (sc_parameters scenario_6) 10 = Ok regressor
    ∧ length regressor = 10%nat.
Proof.
  destruct (scenario_regressor_range 10 (sc_parameters scenario_6) 10 36 eq_refl
              in_float_range_36)
    as (regressor & Hrun & Hlen & _).
  by exists regressor.
Defined.



Lemma py_min_mono a a' b : a <= a' → py_min a b <= py_min a' b.
Proof.
  intros Ha.
  destruct (py_min_cases a b) as [[? ->]|[? ->]], (py_min_cases a' b) as [[? ->]|[? ->]]; lra.
Qed.

Lemma py_max_r a b : a < b → py_max a b = b.
Proof.
  intros H. unfold py_max. destruct (Qle_bool b a) eqn:E; [|done].
  apply Qle_bool_iff in E. lra.
Qed.

Lemma extended_decay_value end_ i :
  end_ <= QN i →
  extended_entry end_ i = 1 - py_min ((QN i - end_) / 12) 1.0 * 0.6.
Proof.
  intros Hi. unfold extended_entry.
  rewrite (proj2 (Qltb_false _ _)) by done.
  apply py_max_r.
  destruct (decay_factor_bounds (QN i - end_) 0.6); lra.
Qed.

Lemma extended_entry_range end_ i : 0.4 <= extended_entry end_ i ∧ extended_entry end_ i <= 1.
Proof.
  destruct (Qlt_le_dec (QN i) end_) as [Hlt|Hge].
  - unfold extended_entry. rewrite (proj2 (Qltb_true _ _)) by done. lra.
  - rewrite extended_decay_value by done.
    destruct (decay_factor_bounds (QN i - end_) 0.6); lra.
Qed.

Lemma extended_entry_decreasing end_ i j :
  (i ≤ j)%nat → extended_entry end_ j <= extended_entry end_ i.
Proof.
  intros Hij%QN_le.
  destruct (Qlt_le_dec (QN i) end_) as [Hlt|Hge].
  - unfold extended_entry at 2. rewrite (proj2 (Qltb_true _ _)) by done.
    destruct (extended_entry_range end_ j). lra.
  - rewrite !extended_decay_value by lra.
    assert (py_min ((QN i - end_) / 12) 1.0 <= py_min ((QN j - end_) / 12) 1.0).
    { apply py_min_mono. apply Qle_shift_div_l; [lra|].
      assert ((QN i - end_) / 12 * 12 == QN i - end_) as -> by field. lra. }
    lra.
Qed.

Lemma extend_regressor_num n_total params total months d hist :
  param_get params "duration_months" (VNum 12) = VNum d →
  (total ≤ n_total)%nat →
  _create_scenario_regressor total params total = Ok hist →
  _extend_scenario_regressor n_total params total months
  = Ok (hist ++ (extended_entry (QN (scenario_start total) + d) <$> seq total (n_total - total)))%list.
Proof.
  intros Hd Hle Hhist. unfold _extend_scenario_regressor. rewrite Hd. cbn [num].
  cbn [mbind result_mbind result_bind]. rewrite Hhist.
  cbn [mbind result_mbind result_bind]. by rewrite decide_True.
Qed.

(** X6.  For a numeric duration within the range of a float and a future
    frame at least as long as the history, [_extend_scenario_regressor]
    returns one entry per row of the frame: the first [total_periods] entries are the historical regressor
    unchanged, and the entries over the forecast horizon lie between 0.4
    and 1 and never increase from one row to the next.  The argument
    [forecast_months] plays no part in the result. *)
Theorem extended_regressor_shape (n_total : nat) (params : gmap string value)
    (total_periods forecast_months : nat) (d : Q) :
  param_get params "duration_months" (VNum 12) = VNum d →
  in_float_range d →
  (total_periods ≤ n_total)%nat →
  ∃ historical extended,
    _create_scenario_regressor total_periods params total_periods = Ok historical
    ∧ _extend_scenario_regressor n_total params total_periods forecast_months = Ok extended
    ∧ length extended = n_total
    ∧ take total_periods extended = historical
    ∧ (∀ i x, (total_periods ≤ i)%nat → extended !! i = Some x → 0.4 <= x ∧ x <= 1)
    ∧ (∀ i j x y, (total_periods ≤ i ≤ j)%nat →
         extended !! i = Some x → extended !! j = Some y → y <= x)
    ∧ ∀ other_months,
        _extend_scenario_regressor n_total params total_periods other_months = Ok extended.
Proof.
  intros Hd _ Hle.
  destruct (create_regressor_returns total_periods params total_periods d Hd)
    as (hist & Hhist & Hlen).
  exists hist. eexists. split; [exact Hhist|].
  split; [by apply (extend_regressor_num _ _ _ _ d hist)|].
  assert (∀ i x, (total_periods ≤ i)%nat →
            (hist ++ (extended_entry (QN (scenario_start total_periods) + d)
                        <$> seq total_periods (n_total - total_periods)))%list !! i = Some x →
            x = extended_entry (QN (scenario_start total_periods) + d) i) as Hfuture.
  { intros i x Hi. rewrite lookup_app_r by lia. rewrite Hlen, list_lookup_fmap.
    destruct (seq _ _ !! _) as [k|] eqn:Hk; [|discriminate].
    apply lookup_seq in Hk as [-> _]. simpl. intros [= <-]. f_equal. lia. }
  split; [rewrite length_app, length_fmap, length_seq; lia|].
  split; [by rewrite take_app_length' by done|].
  split.
  { intros i x Hi Hx. rewrite (Hfuture i x Hi Hx). apply extended_entry_range. }
  split.
  { intros i j x y [Hi Hij] Hx Hy.
    rewrite (Hfuture i x Hi Hx), (Hfuture j y ltac:(lia) Hy).
    by apply extended_entry_decreasing. }
  intros other. by apply (extend_regressor_num _ _ _ _ d hist).
Qed.

Lemma extended_regressor_shape_witness :
  ∃ historical extended,
    _create_scenario_regressor 10 (sc_parameters scenario_6) 10 = Ok historical
    ∧ _extend_scenario_regressor 22 (sc_parameters scenario_6) 10 12 = Ok extended
    ∧ length extended = 22%nat.
Proof.
  destruct (extended_regressor_shape 22 (sc_parameters scenario_6) 10 12 36 eq_refl
              in_float_range_36 ltac:(lia))
    as (historical & extended & Hh & He & Hlen & _).
  by exists historical, extended.
Defined.

(** X7.  While the scenario is still running at the end of the history
    ([start + duration > total_periods], the only case in which the Prophet
    forecast uses the regressor), the regressor has no decay inside the
    scenario: every row from the end of the ramp up to [start + duration],
    in the history and in the forecast horizon alike, holds exactly 1.0. *)
Theorem ongoing_scenario_full_effect (n_total : nat) (params : gmap string value)
    (total_periods forecast_months : nat) (d : Q) :
  param_get params "duration_months" (VNum 12) = VNum d →
  (total_periods ≤ n_total)%nat →
  QN total_periods < QN (scenario_start total_periods) + d →
  ∃ extended,
    _extend_scenario_regressor n_total params total_periods forecast_months = Ok extended
    ∧ ∀ i, (scenario_start total_periods ≤ i < n_total)%nat →
        QN (scenario_start total_periods) + ramp_of d <= QN i →
        QN i < QN (scenario_start total_periods) + d →
        extended !! i = Some 1.0.
Proof.
  intros Hd Hle Hongoing.
  destruct (mapM_result_total
              (regressor_entry (scenario_start total_periods) (ramp_of d) (end_of total_periods d))
              (fun i x => (scenario_start total_periods ≤ i)%nat →
                 QN (scenario_start total_periods) + ramp_of d <= QN i →
                 QN i < end_of total_periods d → x = 1.0)
              (seq 0 total_periods)) as (hist & Hhist & HF).
  { intros i _. unfold regressor_entry. case_decide as Hlt.
    - eexists. split; [reflexivity|]. lia.
    - destruct (Qltb (QN i) (QN (scenario_start total_periods) + ramp_of d)) eqn:E1.
      + apply Qltb_true in E1.
        destruct (ramp_progress_bounds d (scenario_start total_periods) i ltac:(lia) E1)
          as (Hr & _ & _).
        rewrite py_truediv_ok by (intros H0; lra).
        eexists. split; [reflexivity|]. intros; exfalso; lra.
      + destruct (Qltb (QN i) (end_of total_periods d)) eqn:E2.
        * by eexists.
        * apply Qltb_false in E2. eexists. split; [reflexivity|]. intros; exfalso; lra. }
  rewrite <- (create_regressor_num total_periods params total_periods d Hd) in Hhist.
  destruct (seq_indexed _ _ _ HF) as [Hlen Hentries].
  eexists. split; [by apply (extend_regressor_num _ _ _ _ d hist)|].
  intros i [Hlo Hhi] Hramp Hend.
  destruct (decide (i < total_periods)%nat) as [Hin|Hout].
  - rewrite lookup_app_l by lia.
    destruct (lookup_lt_is_Some_2 hist i ltac:(lia)) as [x Hx].
    rewrite Hx. f_equal. apply (Hentries i x Hx); [done..|].
    unfold end_of.
    destruct (py_min_cases (QN (scenario_start total_periods) + d) (QN total_periods))
      as [[? ->]|[? ->]]; [lra|]. by apply QN_lt.
  - rewrite lookup_app_r by lia. rewrite Hlen, list_lookup_fmap.
    rewrite lookup_seq_lt by lia. simpl.
    replace (total_periods + (i - total_periods))%nat with i by lia.
    unfold extended_entry. by rewrite (proj2 (Qltb_true _ _)) by done.
Qed.

Lemma ongoing_scenario_full_effect_witness :
  ∃ extended,
    _extend_scenario_regressor 22 (sc_parameters scenario_6) 10 12 = Ok extended
    ∧ extended !! 15%nat = Some 1.0.
Proof.
  destruct (ongoing_scenario_full_effect 22 (sc_parameters scenario_6) 10 12 36 eq_refl
              ltac:(lia) ltac:(reflexivity)) as (extended & Hrun & Hall).
  exists extended. split; [exact Hrun|].
  apply Hall; [vm_compute; lia | vm_compute; discriminate | reflexivity].
Defined.

(** ** When a forecast is returned *)

Section ForecastOutcome.

Context `{RT : Runtime}.
Hypothesis Hsqrt : sqrt_nonneg.

Lemma simple_region_empty months st : simple_region [] months st = (Raise IndexError, st).
Proof. reflexivity. Qed.

(** The region loop of the fallback stops with [IndexError] at the first
    empty series. *)
Lemma simple_loop_raises months simulated :
  Exists (fun p : string * list Q => p.2 = []) simulated →
  ∀ acc st, ∃ st',
    for_each simulated (forecast_region_step (fun prices_ => simple_region prices_ months)) acc st
    = (Raise IndexError, st').
Proof.
  induction simulated as [|item simulated IH]; intros Hex acc st.
  - by apply Exists_nil in Hex.
  - cbn [for_each]. unfold mbind, M_mbind, M_bind.
    unfold forecast_region_step at 1. unfold mbind, M_mbind, M_bind.
    destruct (decide (item.2 = [])) as [Hempty|Hne].
    + rewrite Hempty, simple_region_empty. by eexists.
    + destruct (simple_region_spec Hsqrt item.2 months st Hne) as (f & st1 & -> & _).
      cbn [mret M_mret M_ret]. apply IH.
      apply Exists_cons in Hex as [Hex|Hex]; [done | exact Hex].
Qed.

Lemma simple_forecast_raises self simulated params months st :
  dates self = [] ∨ Exists (fun p : string * list Q => p.2 = []) simulated →
  ∃ st', _generate_simple_forecast self simulated params months st = (Raise IndexError, st').
Proof.
  intros Hbad. unfold _generate_simple_forecast, mbind, M_mbind, M_bind, lift.
  destruct (decide (Exists (fun p : string * list Q => p.2 = []) simulated)) as [Hex|Hall].
  - destruct (simple_loop_raises months simulated Hex [] st) as [st' ->]. by eexists.
  - destruct Hbad as [Hdates|Hex]; [|done].
    apply not_Exists_Forall in Hall; [|intros p; apply _].
    destruct (forecast_loop_total (fun prices_ => simple_region prices_ months) simulated)
      with (acc := @nil (string * region_forecast)) (st := st) as (per_region & st1 & ->).
    { intros item st0 Hin.
      destruct (simple_region_spec Hsqrt item.2 months st0) as (f & st2 & Hrun & _).
      - rewrite Forall_forall in Hall. by apply Hall.
      - by exists f, st2. }
    rewrite Hdates. by eexists.
Qed.

(** A Prophet forecast is only returned for series that have one value per
    date, and for a baseline that has a date. *)
Lemma prophet_loop_lengths self params months ongoing simulated :
  ∀ acc st acc' st',
    for_each simulated (forecast_region_step (prophet_region self params months ongoing)) acc st
    = (Ok acc', st') →
    Forall (fun p : string * list Q => length p.2 = length (dates self)) simulated.
Proof.
  induction simulated as [|item simulated IH]; intros acc st acc' st'; [constructor|].
  cbn [for_each]. unfold mbind, M_mbind, M_bind.
  unfold forecast_region_step at 1. unfold mbind, M_mbind, M_bind.
  destruct (prophet_region self params months ongoing item.2 st) as [[f|e] st1] eqn:Hf;
    [|discriminate].
  cbn [mret M_mret M_ret]. intros Hloop. constructor; [|by eapply IH].
  revert Hf. unfold prophet_region, mbind, M_mbind, M_bind, lift.
  case_decide; [done | discriminate].
Qed.

Lemma prophet_forecast_inputs self simulated params months st fc st' :
  _generate_prophet_forecast self simulated params months st = (Ok fc, st') →
  dates self ≠ [] ∧ Forall (fun p : string * list Q => p.2 ≠ []) simulated.
Proof.
  unfold _generate_prophet_forecast, mbind, M_mbind, M_bind, lift.
  destruct (num _) as [d|]; [|discriminate].
  destruct (for_each simulated _ [] st) as [[per_region|] st1] eqn:Hloop; [|discriminate].
  destruct (py_last (dates self)) as [last_date|] eqn:Hlast; [|discriminate].
  intros _. apply py_last_inv in Hlast as [_ Hdates]. split; [exact Hdates|].
  apply prophet_loop_lengths in Hloop.
  eapply Forall_impl; [exact Hloop|]. intros p Hlen Hempty. simpl in Hlen. rewrite Hempty in Hlen.
  destruct (dates self); [done | discriminate].
Qed.

End ForecastOutcome.

(** X8.  With a square root that is never negative, [_generate_forecast]
    returns a forecast exactly when the baseline has at least one date and
    no simulated series is empty; in every other case it raises
    [IndexError] (from [prices_arr[-1]] or [self.dates[-1]] of the
    fallback), whatever Prophet did before. *)
Theorem forecast_returned_iff `{RT : Runtime} (self : engine)
    (simulated : list (string * list Q)) (params : gmap string value)
    (months : nat) (st : rng) :
  sqrt_nonneg →
  (is_ok (_generate_forecast self simulated params months st).1 = true
   ↔ dates self ≠ [] ∧ Forall (fun p => p.2 ≠ []) simulated)
  ∧ ∀ e st', _generate_forecast self simulated params months st = (Raise e, st') →
             e = IndexError.
Proof.
  intros Hsqrt.
  assert (dates self ≠ [] ∧ Forall (fun p : string * list Q => p.2 ≠ []) simulated
          ∨ (dates self = [] ∨ Exists (fun p : string * list Q => p.2 = []) simulated))
    as Hcases.
  { destruct (decide (dates self = [])) as [Hd|Hd]; [right; by left|].
    destruct (decide (Exists (fun p : string * list Q => p.2 = []) simulated)) as [Hex|Hall];
      [right; by right|].
    left. split; [done|]. apply not_Exists_Forall in Hall; [done | intros p; apply _]. }
  assert (∀ st0, dates self = [] ∨ Exists (fun p : string * list Q => p.2 = []) simulated →
            ∃ st', _generate_forecast self simulated params months st0 = (Raise IndexError, st'))
    as Hraise.
  { intros st0 Hbad. unfold _generate_forecast, try_except.
    destruct PROPHET_AVAILABLE; [|by apply simple_forecast_raises].
    destruct (_generate_prophet_forecast self simulated params months st0)
      as [[fc|e] st1] eqn:Hp; [|by apply simple_forecast_raises].
    apply prophet_forecast_inputs in Hp as [Hd Hall]. exfalso.
    destruct Hbad as [Hbad|Hbad]; [done|].
    apply Exists_exists in Hbad as (p & Hin & Hp). rewrite Forall_forall in Hall.
    by apply (Hall p Hin). }
  destruct Hcases as [[Hd Hall]|Hbad].
  - destruct (_generate_forecast_total Hsqrt self simulated params months st Hd Hall)
      as (fc & st' & Hrun).
    rewrite Hrun. split; [done|]. intros e st0. discriminate.
  - destruct (Hraise st Hbad) as [st' Hrun]. rewrite Hrun. simpl. split.
    + split; [discriminate|]. intros [Hd Hall]. exfalso.
      destruct Hbad as [Hbad|Hbad]; [done|].
      apply Exists_exists in Hbad as (p & Hin & Hp). rewrite Forall_forall in Hall.
      by apply (Hall p Hin).
    + by intros e st0 [= <- _].
Qed.

Lemma forecast_returned_iff_witness :
  sqrt_nonneg (RT := sample_runtime)
  ∧ ∃ st',
      _generate_forecast (RT := sample_runtime) sample_engine [("us_ech", [])]
        (sc_parameters scenario_6) 12 0%Z = (Raise IndexError, st').
Proof.
  split; [exact sample_sqrt_nonneg|].
  destruct (_generate_forecast (RT := sample_runtime) sample_engine [("us_ech", [])]
              (sc_parameters scenario_6) 12 0%Z) as [[fc|e] st'] eqn:Hrun.
  - exfalso.
    destruct (proj1 (proj1 (forecast_returned_iff (RT := sample_runtime) sample_engine
                              [("us_ech", [])] (sc_parameters scenario_6) 12 0%Z
                              sample_sqrt_nonneg)))
      as [_ Hall]; [by rewrite Hrun|].
    by apply Forall_cons in Hall as [Hne _].
  - exists st'.
    by rewrite (proj2 (forecast_returned_iff (RT := sample_runtime) sample_engine
                         [("us_ech", [])] (sc_parameters scenario_6) 12 0%Z
                         sample_sqrt_nonneg) e st' Hrun).
Defined.

(** ** When [_apply_effects] returns *)

Section EffectsOutcome.

Context `{RT : Runtime}.

(** The period loop only returns when the baseline has a value for every
    period it visits. *)
Lemma period_loop_covers baseline effect start ramp end_ n :
  ∀ s result_ st sim st',
    (start ≤ s)%nat → (0 < n)%nat →
    for_each (seq s n) (apply_period baseline effect start ramp end_) result_ st = (Ok sim, st') →
    (s + n ≤ length baseline)%nat.
Proof.
  induction n as [|n IH]; intros s result_ st sim st' Hs Hn; [lia|].
  simpl seq. cbn [for_each]. unfold mbind, M_mbind, M_bind.
  destruct (baseline !! s) as [b|] eqn:Hb.
  - pose proof (lookup_lt_Some _ _ _ Hb) as Hlt.
    destruct (apply_period baseline effect start ramp end_ result_ s st) as [[r1|e] st1];
      [|discriminate].
    destruct n as [|n]; [intros _; lia|].
    intros Hloop. apply IH in Hloop; lia.
  - rewrite apply_period_index_error by (done || by left). discriminate.
Qed.

Lemma scenario_start_lt total : (0 < total)%nat → (scenario_start total < total)%nat.
Proof.
  intros Hpos. rewrite scenario_start_fifth.
  apply Nat.Div0.div_lt_upper_bound. lia.
Qed.

(** One region, with a numeric duration: the series is returned when the
    baseline covers the dates, and [IndexError] is raised when it does not. *)
Lemma apply_region_outcome baseline effect d total st :
  ((total ≤ length baseline)%nat →
   ∃ sim st', apply_region baseline effect (VNum d) total st = (Ok sim, st'))
  ∧ ((length baseline < total)%nat →
     ∃ st', apply_region baseline effect (VNum d) total st = (Raise IndexError, st')).
Proof.
  split.
  - intros Hcov. destruct (apply_region_spec baseline effect d total st Hcov) as (sim & Hrun & _).
    by eexists _, _.
  - intros Hshort.
    destruct (apply_region baseline effect (VNum d) total st) as [[sim|e] st'] eqn:Hrun.
    + exfalso. rewrite apply_region_num in Hrun.
      pose proof (scenario_start_lt total ltac:(lia)) as Hstart.
      apply period_loop_covers in Hrun; lia.
    + apply apply_region_errors in Hrun as Herr. destruct Herr as [-> | ->]; [|by eexists].
      rewrite apply_region_num in Hrun.
      eapply period_loop_errors in Hrun; [discriminate | done | done].
Qed.

Variables (self : engine) (effects : gmap string Q).

#[local] Abbreviation total := (length (dates self)).

Lemma region_loop_numeric d rs :
  ∀ acc st,
    (∃ sims st',
       for_each rs (region_step self effects (VNum d) total) acc st = (Ok sims, st')
       ∧ ∀ r baseline, r ∈ rs → prices self !! r = Some baseline →
           (total ≤ length baseline)%nat)
    ∨ (∃ st' r baseline,
         for_each rs (region_step self effects (VNum d) total) acc st = (Raise IndexError, st')
         ∧ r ∈ rs ∧ prices self !! r = Some baseline ∧ (length baseline < total)%nat).
Proof.
  induction rs as [|r rs IH]; intros acc st.
  - left. exists acc, st. split; [done|]. intros r baseline Hin. by apply elem_of_nil in Hin.
  - cbn [for_each]. unfold mbind, M_mbind, M_bind, region_step at 1 3.
    destruct (prices self !! r) as [baseline|] eqn:Hr.
    + unfold mbind, M_mbind, M_bind.
      destruct (decide (total ≤ length baseline)%nat) as [Hcov|Hshort].
      * destruct (proj1 (apply_region_outcome baseline (default 0 (effects !! r)) d total st)
                    Hcov) as (sim & st1 & ->).
        cbn [mret M_mret M_ret].
        destruct (IH (acc ++ [(r, sim)])%list st1)
          as [(sims & st' & -> & Hall) | (st' & r' & b' & -> & Hin & Hb' & Hlt)].
        -- left. exists sims, st'. split; [done|].
           intros r0 b0 Hin Hb0. apply elem_of_cons in Hin as [->|Hin]; [|by eapply Hall].
           rewrite Hr in Hb0. by injection Hb0 as <-.
        -- right. exists st', r', b'. split; [done|]. split; [by right | done].
      * destruct (proj2 (apply_region_outcome baseline (default 0 (effects !! r)) d total st)
                    ltac:(lia)) as (st1 & ->).
        right. exists st1, r, baseline. split; [done|]. split; [by left|]. split; [done | lia].
    + cbn [mret M_mret M_ret].
      destruct (IH acc st) as [(sims & st' & -> & Hall) | (st' & r' & b' & -> & Hin & Hb' & Hlt)].
      * left. exists sims, st'. split; [done|].
        intros r0 b0 Hin Hb0. apply elem_of_cons in Hin as [->|Hin]; [congruence | by eapply Hall].
      * right. exists st', r', b'. split; [done|]. split; [by right | done].
Qed.

Lemma region_loop_string s rs :
  ∀ acc st,
    (filter (fun r => is_Some (prices self !! r)) rs = []
     ∧ for_each rs (region_step self effects (VStr s) total) acc st = (Ok acc, st))
    ∨ (filter (fun r => is_Some (prices self !! r)) rs ≠ []
       ∧ ∃ st', for_each rs (region_step self effects (VStr s) total) acc st
                = (Raise TypeError, st')).
Proof.
  induction rs as [|r rs IH]; intros acc st; [by left|].
  cbn [for_each]. unfold mbind, M_mbind, M_bind, region_step at 1 3.
  rewrite filter_cons.
  destruct (prices self !! r) as [baseline|] eqn:Hr.
  - right. rewrite decide_True by (by eexists). split; [done|].
    unfold mbind, M_mbind, M_bind. rewrite apply_region_str. by eexists.
  - rewrite decide_False by (intros [? ?]; done). cbn [mret M_mret M_ret]. apply IH.
Qed.

End EffectsOutcome.



(** ** Durations beyond the cap *)

Lemma param_num_duration_set params d def :
  param_num (<["duration_months" := VNum d]> params) "duration_months" def = Ok d.
Proof. unfold param_num, param_get. by rewrite lookup_insert_eq. Qed.

Lemma param_get_other params d key def :
  key ≠ "duration_months" →
  param_get (<["duration_months" := VNum d]> params) key def = param_get params key def.
Proof. intros Hne. unfold param_get. by rewrite lookup_insert_ne. Qed.

Lemma param_num_other params d key def :
  key ≠ "duration_months" →
  param_num (<["duration_months" := VNum d]> params) key def = param_num params key def.
Proof. intros Hne. unfold param_num. by rewrite param_get_other. Qed.

Lemma py_min_capped x cap : cap < x → py_min x cap = cap.
Proof. apply py_min_r. Qed.

Lemma months_over_cap d months years :
  months == years * 12 → months < d → years < d / 12.
Proof. intros Hm Hd. apply Qlt_shift_div_l; lra. Qed.

(** Read the parameters of a formula applied to a parameter set with the
    duration replaced. *)
Ltac with_duration :=
  rewrite ?param_num_duration_set, ?param_num_other, ?param_get_other by done.

(** X11.  Past its cap the duration no longer changes a formula's result: two
    durations within the range of a float and beyond the cap of one of the
    seven capped formulas (24 months for the EU regulatory and EU
    constraints formulas, 18 for the Asian advantage, Europe elevation and
    Asian undercut formulas, 12 for the APAC pressure formula, 9 for the
    plant shutdown) give the same outcome, be it an effect vector or an
    error, whatever the other parameters. *)
Theorem effects_saturate_beyond_cap
    (handler : gmap string value → result (gmap string Q)) (cap : Q)
    (params : gmap string value) (d d' : Q) :
  (handler, cap) ∈ duration_caps →
  cap < d → cap < d' →
  in_float_range d → in_float_range d' →
  handler (<["duration_months" := VNum d]> params)
  = handler (<["duration_months" := VNum d']> params).
Proof.
  unfold duration_caps. rewrite !elem_of_cons, elem_of_nil.
  intros Hin Hd Hd' _ _.
  repeat (destruct Hin as [[= -> ->] | Hin]); [..|destruct Hin].
  - unfold _logic_eu_regulatory. with_duration.
    do 2 (destruct (param_num params _ _); cbn [mbind result_mbind result_bind]; [|done]).
    rewrite !(py_min_capped _ 2) by (apply (months_over_cap _ 24); [reflexivity | done]).
    reflexivity.
  - unfold _logic_asian_advantage. with_duration.
    do 2 (destruct (param_num params _ _); cbn [mbind result_mbind result_bind]; [|done]).
    rewrite !(py_min_capped _ 1.5) by (apply (months_over_cap _ 18); [reflexivity | done]).
    reflexivity.
  - unfold _logic_plant_shutdown. with_duration.
    destruct (param_num params _ _); cbn [mbind result_mbind result_bind]; [|done].
    assert (∀ x, 9 < x → py_min (x / 6) 1.5 = 1.5) as Hcap.
    { intros x Hx. apply py_min_capped. apply Qlt_shift_div_l; lra. }
    rewrite !Hcap by done. reflexivity.
  - unfold _logic_europe_elevation. with_duration.
    do 2 (destruct (param_num params _ _); cbn [mbind result_mbind result_bind]; [|done]).
    rewrite !(py_min_capped _ 1.5) by (apply (months_over_cap _ 18); [reflexivity | done]).
    reflexivity.
  - unfold _logic_apac_pressure. with_duration.
    do 2 (destruct (param_num params _ _); cbn [mbind result_mbind result_bind]; [|done]).
    rewrite !(py_min_capped _ 1) by (apply (months_over_cap _ 12); [reflexivity | done]).
    reflexivity.
  - unfold _logic_asian_undercut. with_duration.
    do 2 (destruct (param_num params _ _); cbn [mbind result_mbind result_bind]; [|done]).
    rewrite !(py_min_capped _ 1.5) by (apply (months_over_cap _ 18); [reflexivity | done]).
    reflexivity.
  - unfold _logic_eu_constraints. with_duration.
    do 2 (destruct (param_num params _ _); cbn [mbind result_mbind result_bind]; [|done]).
    rewrite !(py_min_capped _ 2) by (apply (months_over_cap _ 24); [reflexivity | done]).
    reflexivity.
Qed.

Lemma effects_saturate_beyond_cap_witness :
  _logic_eu_regulatory (<["duration_months" := VNum 36]> (sc_parameters scenario_6))
  = _logic_eu_regulatory (<["duration_months" := VNum 60]> (sc_parameters scenario_6)).
Proof.
  apply (effects_saturate_beyond_cap _logic_eu_regulatory 24).
  - unfold duration_caps. apply list_elem_of_here.
  - reflexivity.
  - reflexivity.
  - vm_compute. discriminate.
  - vm_compute. discriminate.
Defined.

(** ** The region of a plant shutdown *)

(** X12.  The plant shutdown formula compares the region with ['eu'], ['us'],
    ['asia'] and ['china'] and has no branch for anything else: with a
    capacity and a duration that are numbers within the range of a float,
    any other region (a misspelt or upper-case name, a number) yields the
    zero vector and no error;
    ['asia'] and ['china'] yield the same vector; and a shutdown in the US
    leaves the two Asian regions at 0.0. *)
Theorem plant_shutdown_regions_handled (params : gmap string value) (offline duration : Q) :
  param_get params "capacity_offline" (VNum 0.10) = VNum offline →
  param_get params "duration_months" (VNum 6) = VNum duration →
  in_float_range offline → in_float_range duration →
  let region := param_get params "region_affected" (VStr "eu") in
  ((∀ name, name ∈ ["eu"; "us"; "asia"; "china"] → region ≠ VStr name) →
   _logic_plant_shutdown params = Ok zero_vector)
  ∧ _logic_plant_shutdown (<["region_affected" := VStr "asia"]> params)
    = _logic_plant_shutdown (<["region_affected" := VStr "china"]> params)
  ∧ (region = VStr "us" →
     ∃ eff, _logic_plant_shutdown params = Ok eff
            ∧ eff !! "asia_ech" = Some 0.0 ∧ eff !! "china_ech" = Some 0.0).
Proof.
  intros Hoff Hdur _ _ region.
  assert (∀ p, param_get p "capacity_offline" (VNum 0.10) = VNum offline →
               param_get p "duration_months" (VNum 6) = VNum duration →
               _logic_plant_shutdown p
               = let region := param_get p "region_affected" (VStr "eu") in
                 let direct_effect := offline * 1.7 in
                 let effects := effects_dict 0.0 0.0 0.0 0.0 in
                 let duration_factor := py_min (duration / 6) 1.5 in
                 if value_is_str region "eu" then
                   Ok (<["china_ech" := direct_effect * 0.1]>
                       (<["asia_ech" := direct_effect * 0.15]>
                        (<["us_ech" := direct_effect * 0.2]>
                         (<["eu_ech" := direct_effect * duration_factor]> effects))))
                 else if value_is_str region "us" then
                   Ok (<["eu_ech" := direct_effect * 0.15]>
                       (<["us_ech" := direct_effect * duration_factor]> effects))
                 else if value_is_str region "asia" || value_is_str region "china" then
                   Ok (<["us_ech" := direct_effect * 0.05]>
                       (<["eu_ech" := direct_effect * 0.1]>
                        (<["china_ech" := direct_effect * duration_factor]>
                         (<["asia_ech" := direct_effect * duration_factor * 0.9]> effects))))
                 else Ok effects) as Hbody.
  { intros p H1 H2. unfold _logic_plant_shutdown, param_num. by rewrite H1, H2. }
  split; [|split].
  - intros Hother. rewrite (Hbody params Hoff Hdur). cbv zeta. fold region.
    assert (∀ name, name ∈ ["eu"; "us"; "asia"; "china"] → value_is_str region name = false)
      as Hno.
    { intros name Hin. specialize (Hother name Hin).
      destruct region as [q|s]; [done|]. simpl. apply bool_decide_eq_false. congruence. }
    rewrite !Hno by (rewrite !elem_of_cons; tauto). reflexivity.
  - rewrite !Hbody by (unfold param_get; by rewrite lookup_insert_ne).
    unfold param_get. rewrite !lookup_insert_eq. reflexivity.
  - intros Hus. rewrite (Hbody params Hoff Hdur). cbv zeta. fold region. rewrite Hus.
    eexists. split; [reflexivity|]. split; reflexivity.
Qed.

Lemma plant_shutdown_regions_handled_witness :
  _logic_plant_shutdown (<["region_affected" := VStr "EU"]> (sc_parameters scenario_8))
  = Ok zero_vector.
Proof.
  set (params := <["region_affected" := VStr "EU"]> (sc_parameters scenario_8)).
  assert (param_get params "capacity_offline" (VNum 0.10) = VNum 0.10) as Hoffline
    by (vm_compute; reflexivity).
  assert (param_get params "duration_months" (VNum 6) = VNum 6) as Hduration
    by (vm_compute; reflexivity).
  assert (in_float_range 0.10) as Hr1 by (vm_compute; discriminate).
  assert (in_float_range 6) as Hr2 by (vm_compute; discriminate).
  apply (proj1 (plant_shutdown_regions_handled params 0.10 6 Hoffline Hduration Hr1 Hr2)).
  assert (param_get params "region_affected" (VStr "eu") = VStr "EU") as -> by reflexivity.
  intros name Hin. rewrite !elem_of_cons, elem_of_nil in Hin.
  destruct Hin as [-> | [-> | [-> | [-> | []]]]]; discriminate.
Defined.

(** ** The forecasting configuration *)

Lemma config_step_dom acc kv : dom (updated_config (config_step acc kv)) = dom (updated_config acc).
Proof.
  unfold config_step. case_decide as Hk; [|done]. simpl.
  rewrite dom_insert_L. apply elem_of_dom in Hk. set_solver.
Qed.

Lemma config_fold_spec kwargs :
  ∀ acc,
    let out := foldl config_step acc kwargs in
    dom (updated_config out) = dom (updated_config acc)
    ∧ warned_keys out
      = (warned_keys acc ++ filter (fun k => k ∉ dom (updated_config acc)) kwargs.*1)%list
    ∧ (∀ k, k ∉ kwargs.*1 → updated_config out !! k = updated_config acc !! k)
    ∧ (NoDup kwargs.*1 →
       ∀ k v, (k, v) ∈ kwargs → k ∈ dom (updated_config acc) → updated_config out !! k = Some v).
Proof.
  induction kwargs as [|kv kwargs IH]; intros acc out; subst out.
  - simpl. rewrite app_nil_r. split; [done|]. split; [done|]. split; [done|].
    intros _ k v Hin. by apply elem_of_nil in Hin.
  - cbn [foldl]. destruct (IH (config_step acc kv)) as (Hdom & Hwarn & Hkeep & Hset).
    rewrite config_step_dom in Hdom, Hwarn, Hset.
    split; [exact Hdom|]. split; [|split].
    + rewrite Hwarn. rewrite fmap_cons, filter_cons. unfold config_step.
      destruct (decide (is_Some (updated_config acc !! kv.1))) as [Hk|Hk]; simpl.
      * rewrite decide_False; [done|]. intros Hnot. apply Hnot. by apply elem_of_dom.
      * rewrite decide_True; [by rewrite <- app_assoc|]. by rewrite elem_of_dom.
    + intros k Hk. rewrite fmap_cons in Hk. apply not_elem_of_cons in Hk as [Hne Hk].
      rewrite Hkeep by done. unfold config_step. case_decide; [|done]. simpl.
      by rewrite lookup_insert_ne.
    + intros Hnd k v Hin Hknown. rewrite fmap_cons in Hnd. apply NoDup_cons in Hnd as [Hnot Hnd].
      apply elem_of_cons in Hin as [Heq|Hin].
      * subst kv. simpl in Hnot. rewrite Hkeep by done. unfold config_step. simpl.
        rewrite decide_True by (by apply elem_of_dom). simpl. by rewrite lookup_insert_eq.
      * by apply Hset.
Qed.

(** X13.  [update_prophet_config] never adds or removes an entry: after any
    sequence of updates of the configuration [__init__] wrote, the dict
    still has exactly its seven keys.  A keyword that is not one of them
    changes nothing and is warned about, in the order given; a keyword
    that is one of them replaces the value, whatever the type of the new
    value; every entry that no keyword names keeps its value. *)
Theorem prophet_config_keys_fixed (updates : list (list (string * config_value)))
    (kwargs : list (string * config_value)) :
  let config :=
    foldl (fun c kw => updated_config (update_prophet_config c kw))
          initial_prophet_config updates in
  let out := update_prophet_config config kwargs in
  dom config = dom initial_prophet_config
  ∧ dom (updated_config out) = dom initial_prophet_config
  ∧ warned_keys out = filter (fun k => k ∉ dom initial_prophet_config) kwargs.*1
  ∧ (∀ k, k ∉ kwargs.*1 → updated_config out !! k = config !! k)
  ∧ (NoDup kwargs.*1 →
     ∀ k v, (k, v) ∈ kwargs → k ∈ dom initial_prophet_config →
            updated_config out !! k = Some v).
Proof.
  intros config out.
  assert (dom config = dom initial_prophet_config) as Hconfig.
  { subst config. generalize initial_prophet_config as c0.
    induction updates as [|kw updates IH]; intros c0; [done|].
    cbn [foldl]. rewrite IH. unfold update_prophet_config.
    by destruct (config_fold_spec kw (ConfigUpdate c0 [])) as (-> & _). }
  destruct (config_fold_spec kwargs (ConfigUpdate config [])) as (Hdom & Hwarn & Hkeep & Hset).
  cbn [updated_config warned_keys app] in *. rewrite Hconfig in *.
  split; [done|]. split; [exact Hdom|]. split; [exact Hwarn|]. split; [exact Hkeep | exact Hset].
Qed.

(** ** What the effect formulas can raise *)

Lemma raises_only_ok {A : Type} (a : A) es : raises_only (Ok a) es.
Proof. intros e. discriminate. Qed.

Lemma raises_only_bind {A B : Type} (m : result A) (k : A → result B) es :
  raises_only m es → (∀ a, raises_only (k a) es) → raises_only (m ≫= k) es.
Proof.
  intros Hm Hk e. destruct m as [a|e0]; cbn [mbind result_mbind result_bind].
  - exact (Hk a e).
  - intros [= <-]. by apply Hm.
Qed.

Lemma raises_only_param_num params key d es :
  TypeError ∈ es → raises_only (param_num params key d) es.
Proof.
  intros Hes e. unfold param_num. destruct (param_get params key (VNum d)); simpl; [done|].
  by intros [= <-].
Qed.

Lemma raises_only_truediv a b es :
  ZeroDivisionError ∈ es → raises_only (py_truediv a b) es.
Proof.
  intros Hes e. unfold py_truediv. destruct (Qeq_bool b 0); [|done]. by intros [= <-].
Qed.

Lemma raises_only_if {A : Type} (c : bool) (x y : result A) es :
  raises_only x es → raises_only y es → raises_only (if c then x else y) es.
Proof. by destruct c. Qed.

(** The errors of arithmetic: a string operand, a zero divisor. *)
Ltac arithmetic_errors :=
  repeat first
    [ apply raises_only_ok
    | apply raises_only_param_num; [rewrite !elem_of_cons; tauto]
    | apply raises_only_truediv; [rewrite !elem_of_cons; tauto]
    | apply raises_only_if
    | apply raises_only_bind; [|intros ?] ].

Lemma price_effects_errors sc params :
  raises_only (_calculate_price_effects sc params) [TypeError; ZeroDivisionError].
Proof.
  unfold _calculate_price_effects.
  destruct (handlers !! default "default" (sc_logic sc)) as [h|] eqn:Hh; simpl.
  - unfold handlers in Hh. apply elem_of_list_to_map_2 in Hh.
    unfold handlers_table in Hh. rewrite !elem_of_cons, elem_of_nil in Hh.
    repeat (destruct Hh as [[= _ ->] | Hh]); [..|destruct Hh];
      match goal with |- raises_only (?f params) _ => unfold f end;
      cbv zeta; arithmetic_errors.
  - apply raises_only_ok.
Qed.

(** ** The simulation route *)

Section ApplyScenarioErrors.

Context `{RT : Runtime}.
Hypothesis Hsqrt : sqrt_nonneg.
Variable self : engine.
Hypothesis Hwf : well_formed_engine self.

(** With a duration that is a string, the region loop raises [TypeError]
    at the first region the baseline has, and does nothing without one. *)
Lemma region_loop_string_duration effects s total rs :
  ∀ acc st,
    (∃ st', for_each rs (region_step self effects (VStr s) total) acc st
            = (Raise TypeError, st'))
    ∨ for_each rs (region_step self effects (VStr s) total) acc st = (Ok acc, st).
Proof.
  induction rs as [|r rs IH]; intros acc st; [by right|].
  cbn [for_each]. unfold mbind, M_mbind, M_bind, region_step at 1 3.
  destruct (prices self !! r) as [baseline|].
  - left. unfold mbind, M_mbind, M_bind. rewrite apply_region_str. by eexists.
  - cbn [mret M_mret M_ret]. apply IH.
Qed.

Lemma numeric_or_string (v : value) : (∃ d, v = VNum d) ∨ (∃ s, v = VStr s).
Proof. destruct v; [left | right]; by eexists. Qed.

(** On a well-formed baseline a known scenario raises nothing but the
    errors of arithmetic. *)
Lemma apply_scenario_errors scenario_id sc custom st e st' :
  get_scenario scenario_id = Some sc →
  apply_scenario self scenario_id custom st = (Raise e, st') →
  e = TypeError ∨ e = ZeroDivisionError.
Proof.
  intros Hget Hrun.
  set (params := merge_params (sc_parameters sc) custom).
  destruct (_calculate_price_effects sc params) as [eff|e0] eqn:Heff.
  - destruct (numeric_or_string (param_get params "duration_months" (VNum 12)))
      as [[d Hd]|[s Hs]].
    + destruct (apply_scenario_total self scenario_id sc custom st d eff Hsqrt Hwf Hget Heff Hd)
        as (r & st0 & Hok & _).
      rewrite Hok in Hrun. discriminate.
    + revert Hrun. unfold apply_scenario. rewrite Hget. fold params.
      unfold mbind, M_mbind, M_bind, lift. rewrite Heff.
      unfold _apply_effects. rewrite Hs.
      unfold mbind, M_mbind, M_bind, seed_generator.
      destruct (region_loop_string_duration eff s (length (dates self)) regions []
                  (np_random_seed (params_seed params))) as [[st1 ->] | ->].
      * intros [= <- _]. by left.
      * unfold _calculate_metrics. simpl metrics_loop.
        destruct Hwf as [Hdates _].
        destruct (_generate_forecast_total Hsqrt self [] params 12
                    (np_random_seed (params_seed params)) Hdates ltac:(constructor))
          as (fc & st1 & ->).
        discriminate.
  - revert Hrun. unfold apply_scenario. rewrite Hget. fold params.
    unfold mbind, M_mbind, M_bind, lift. rewrite Heff. intros [= <- _].
    pose proof (price_effects_errors sc params e0 Heff) as Hin.
    rewrite !elem_of_cons, elem_of_nil in Hin. tauto.
Qed.

End ApplyScenarioErrors.

Lemma apply_scenario_unknown `{RT : Runtime} self scenario_id custom st :
  get_scenario scenario_id = None →
  apply_scenario self scenario_id custom st = (Raise ValueError, st).
Proof. intros Hget. unfold apply_scenario. by rewrite Hget. Qed.

(** For a usable request the route runs [apply_scenario] on the overrides
    of the request. *)
Lemma simulate_usable `{RT : Runtime} self scenario_id req st :
  usable_request req →
  simulate_scenario self scenario_id req st
  = match apply_scenario self scenario_id (request_overrides req) st with
    | (Ok result_, st') => (Json result_, st')
    | (Raise ValueError, st') => (Failure (FromException "" ValueError) 404, st')
    | (Raise e, st') => (Failure (FromException "Simulation error: " e) 500, st')
    end.
Proof.
  intros (Hm & Ho & Hn).
  destruct req as [| |[|items|[|]]|]; try done.
Qed.



(** ** The sensitivity route *)

Lemma engine_has_no_sensitivity_analysis :
  engine_getattr "sensitivity_analysis" = Raise AttributeError.
Proof. reflexivity. Qed.

(** X15.  The route [/api/sensitivity] never answers 200.  It answers 400 when
    the body is not JSON or when one of [scenario_id], [parameter] and
    [values] is missing or false in a condition (null, [false], 0, an empty
    string, list or dict; so scenario id 0 and an empty list of values are
    refused); every other request reaches [engine.sensitivity_analysis],
    which [ScenarioEngine] does not define, and is answered 500 from the
    [AttributeError]. *)
Theorem sensitivity_route_never_succeeds (req : sensitivity_request) :
  let answer := sensitivity_analysis req in
  let complete :=
    py_bool (sensitivity_scenario_id req) && py_bool (sensitivity_parameter req)
    && py_bool (sensitivity_values req) in
  (∀ call, answer ≠ Json call)
  ∧ (status_code answer = 400%Z ↔ sensitivity_is_json req = false ∨ complete = false)
  ∧ (status_code answer = 500%Z ↔ sensitivity_is_json req = true ∧ complete = true)
  ∧ (status_code answer = 500%Z →
     answer = Failure (FromException "Analysis error: " AttributeError) 500).
Proof.
  intros answer complete. subst answer complete. unfold sensitivity_analysis.
  rewrite engine_has_no_sensitivity_analysis. cbn [forallb].
  rewrite andb_true_r, andb_assoc.
  destruct (sensitivity_is_json req); simpl.
  - destruct (py_bool (sensitivity_scenario_id req) && py_bool (sensitivity_parameter req)
              && py_bool (sensitivity_values req)); simpl.
    + split; [discriminate|]. split; [split; [discriminate | intros [|]; discriminate]|].
      split; [done|]. done.
    + split; [discriminate|]. split; [split; [by right | done]|].
      split; [split; [discriminate | intros [_ ?]; discriminate]|]. discriminate.
  - split; [discriminate|]. split; [split; [by left | done]|].
    split; [split; [discriminate | intros [? _]; discriminate]|]. discriminate.
Qed.

(** ** The catalog and its routes *)

Lemma get_scenario_range scenario_id :
  is_Some (get_scenario scenario_id) ↔ (1 ≤ scenario_id ≤ 16)%Z.
Proof.
  split.
  - intros [sc Hsc]. unfold get_scenario, SCENARIOS in Hsc.
    apply elem_of_list_to_map_2 in Hsc.
    apply list_elem_of_fmap in Hsc as (sc' & [= -> ->] & Hin).
    unfold SCENARIOS_list in Hin. rewrite !elem_of_cons, elem_of_nil in Hin.
    repeat (destruct Hin as [-> | Hin]); [..|destruct Hin]; simpl; lia.
  - intros Hrange.
    assert (scenario_id ∈ (Z.of_nat <$> seq 1 16)) as Hin.
    { apply list_elem_of_fmap. exists (Z.to_nat scenario_id). split; [lia|].
      apply elem_of_seq. lia. }
    simpl in Hin. rewrite !elem_of_cons, elem_of_nil in Hin.
    repeat (destruct Hin as [-> | Hin]); [..|destruct Hin]; by eexists.
Qed.

(** X16.  The catalog is consistent with the engine and the routes that read
    it: [get_scenario] (and with it the route [/api/scenarios/<id>], which
    answers 200 or 404) knows exactly the ids 1 to 16; the entry stored
    under an id carries that id; its logic tag is one the dispatch table
    recognizes, so the zero-effect fallback is never used for a catalog
    scenario; and its parameters include a ['duration_months'] that is a
    positive number, so the default of 12 is never used either. *)
Theorem catalog_consistent (scenario_id : Z) :
  (status_code (get_scenario_detail scenario_id) = 200%Z ↔ (1 ≤ scenario_id ≤ 16)%Z)
  ∧ (status_code (get_scenario_detail scenario_id) = 404%Z ↔ ¬ (1 ≤ scenario_id ≤ 16)%Z)
  ∧ ∀ sc, get_scenario_detail scenario_id = Json sc →
      get_scenario scenario_id = Some sc
      ∧ sc_id sc = scenario_id
      ∧ (∃ tag, sc_logic sc = Some tag ∧ tag ∈ recognized_tags)
      ∧ ∃ d, sc_parameters sc !! "duration_months" = Some (VNum d) ∧ 0 < d.
Proof.
  pose proof (get_scenario_range scenario_id) as Hrange.
  unfold get_scenario_detail.
  destruct (get_scenario scenario_id) as [sc|] eqn:Hget; simpl.
  - assert (1 ≤ scenario_id ≤ 16)%Z as Hin by (apply Hrange; by eexists).
    split; [done|]. split; [split; [discriminate | done]|].
    intros sc' [= <-]. split; [done|].
    unfold get_scenario, SCENARIOS in Hget. apply elem_of_list_to_map_2 in Hget.
    apply list_elem_of_fmap in Hget as (sc' & [= -> ->] & Hsc).
    split; [done|].
    unfold SCENARIOS_list in Hsc. rewrite !elem_of_cons, elem_of_nil in Hsc.
    repeat (destruct Hsc as [-> | Hsc]); [..|destruct Hsc];
      (split; [eexists; split; [reflexivity|];
               unfold recognized_tags, handlers_table; simpl;
               rewrite !elem_of_cons; tauto
              |eexists; split; [reflexivity | reflexivity]]).
  - assert (¬ (1 ≤ scenario_id ≤ 16)%Z) as Hout.
    { intros Hin. apply Hrange in Hin as [? ?]. discriminate. }
    split; [split; [discriminate | done]|]. split; [done|]. discriminate.
Qed.

(** ** Categories *)

Section Counting.

Context {A : Type} (key : A → string).

Lemma count_insert_fold (xs : list A) (cats : list string) :
  ∀ counts : gmap string nat,
    let result_ :=
      foldl (fun counts cat => <[cat := length (filter (fun s => key s = cat) xs)]> counts)
            counts cats in
    ∀ c, result_ !! c
         = if decide (c ∈ cats) then Some (length (filter (fun s => key s = c) xs))
           else counts !! c.
Proof.
  induction cats as [|cat cats IH]; intros counts result_ c; subst result_; cbn [foldl].
  - destruct (decide (c ∈ [])) as [Hin|_]; [by apply elem_of_nil in Hin | done].
  - rewrite IH. destruct (decide (c ∈ cats)) as [Hin|Hout].
    + destruct (decide (c ∈ cat :: cats)) as [_|Hout]; [done|].
      exfalso. apply Hout. by right.
    + destruct (decide (c = cat)) as [->|Hne].
      * rewrite lookup_insert_eq.
        destruct (decide (cat ∈ cat :: cats)) as [_|Hout']; [done|].
        exfalso. apply Hout'. by left.
      * rewrite lookup_insert_ne by done.
        destruct (decide (c ∈ cat :: cats)) as [Hin|_]; [|done].
        apply elem_of_cons in Hin as [?|?]; done.
Qed.

Lemma sum_list_cons (x : nat) (xs : list nat) : sum_list (x :: xs) = (x + sum_list xs)%nat.
Proof. reflexivity. Qed.

Lemma no_category_matches (c : string) (cats : list string) :
  c ∉ cats →
  sum_list ((fun cat => if decide (c = cat) then 1 else 0)%nat <$> cats) = 0%nat.
Proof.
  induction cats as [|cat cats IH]; intros Hnot; [done|].
  apply not_elem_of_cons in Hnot as [Hne Hnot].
  rewrite fmap_cons, sum_list_cons, IH by done.
  by destruct (decide (c = cat)).
Qed.

Lemma one_category_matches (c : string) (cats : list string) :
  NoDup cats → c ∈ cats →
  sum_list ((fun cat => if decide (c = cat) then 1 else 0)%nat <$> cats) = 1%nat.
Proof.
  induction 1 as [|cat cats Hnot Hnd IH]; intros Hin; [by apply elem_of_nil in Hin|].
  rewrite fmap_cons, sum_list_cons.
  destruct (decide (c = cat)) as [Heq|Hne].
  - subst cat. by rewrite no_category_matches.
  - apply elem_of_cons in Hin as [->|Hin]; [done|]. by rewrite IH.
Qed.

Lemma counts_add_up (xs : list A) (cats : list string) :
  NoDup cats → (∀ s, s ∈ xs → key s ∈ cats) →
  sum_list ((fun cat => length (filter (fun s => key s = cat) xs)) <$> cats) = length xs.
Proof.
  intros Hnd. induction xs as [|x xs IH]; intros Hall.
  - clear Hnd Hall. induction cats as [|cat cats IHc]; [done|].
    by rewrite fmap_cons, sum_list_cons, IHc.
  - cbn [length]. rewrite <- (IH ltac:(intros s Hs; apply Hall; by right)).
    transitivity
      (sum_list ((fun cat => if decide (key x = cat) then 1 else 0)%nat <$> cats)
       + sum_list ((fun cat => length (filter (fun s => key s = cat) xs)) <$> cats))%nat;
      [|by rewrite (one_category_matches (key x) cats Hnd (Hall x ltac:(left)))].
    clear IH Hall Hnd. induction cats as [|cat cats IHc]; [done|].
    rewrite !fmap_cons, !sum_list_cons, filter_cons, IHc.
    destruct (decide (key x = cat)) as [Heq|Hne]; cbn [length]; lia.
Qed.

End Counting.

Lemma catalog_categories_named sc : sc ∈ get_all_scenarios → sc_category sc ≠ "".
Proof.
  unfold get_all_scenarios, SCENARIOS_list. rewrite !elem_of_cons, elem_of_nil.
  intros Hsc. repeat (destruct Hsc as [-> | Hsc]); [..|destruct Hsc]; discriminate.
Qed.

(** X17.  The route [/api/categories] lists every category of the catalog
    exactly once, and the count it reports for a category is the count the
    route [/api/scenarios?category=...] reports for it, whose scenarios all
    carry that category and are at least one; the counts of all the
    categories add up to the number of scenarios that [/api/scenarios]
    lists without a filter.  A category that no scenario has is answered
    with an empty list, not an error, and an empty [category] argument is
    no filter at all. *)
Theorem category_counts_agree :
  ∃ listing all_,
    get_categories = Json listing
    ∧ list_scenarios None = Json all_
    ∧ list_scenarios (Some "") = Json all_
    ∧ listing_scenarios all_ = get_all_scenarios
    ∧ NoDup (listing_categories listing)
    ∧ (∀ c, c ∈ listing_categories listing ↔ ∃ sc, sc ∈ get_all_scenarios ∧ sc_category sc = c)
    ∧ (∀ c, c ∈ listing_categories listing →
         ∃ sub,
           list_scenarios (Some c) = Json sub
           ∧ listing_counts listing !! c = Some (listing_count sub)
           ∧ (1 ≤ listing_count sub)%nat
           ∧ listing_count sub = length (listing_scenarios sub)
           ∧ Forall (fun sc => sc ∈ get_all_scenarios ∧ sc_category sc = c)
                    (listing_scenarios sub))
    ∧ (∀ c, c ∉ listing_categories listing →
         listing_counts listing !! c = None
         ∧ (c ≠ "" → list_scenarios (Some c) = Json (ScenarioListing 0 [])))
    ∧ sum_list ((fun c => default 0%nat (listing_counts listing !! c))
                  <$> listing_categories listing)
      = listing_count all_.
Proof.
  set (cats := elements (list_to_set (sc_category <$> get_all_scenarios) : gset string)).
  assert (NoDup cats) as Hnd by apply NoDup_elements.
  assert (∀ c, c ∈ cats ↔ ∃ sc, sc ∈ get_all_scenarios ∧ sc_category sc = c) as Hmem.
  { intros c. unfold cats. rewrite elem_of_elements, elem_of_list_to_set, list_elem_of_fmap.
    split; intros (sc & H1 & H2); exists sc; done. }
  assert (∀ c, c ≠ "" →
            list_scenarios (Some c)
            = Json (ScenarioListing (length (get_scenarios_by_category c))
                      (get_scenarios_by_category c))) as Hlist.
  { intros c Hc. unfold list_scenarios, arg_given.
    rewrite bool_decide_eq_false_2 by done. reflexivity. }
  eexists _, _. split; [reflexivity|]. split; [reflexivity|]. split; [reflexivity|].
  cbn [listing_categories listing_counts listing_count listing_scenarios]. fold cats.
  split; [reflexivity|]. split; [exact Hnd|]. split; [exact Hmem|].
  split; [|split].
  - intros c Hc. pose proof Hc as (sc & Hsc & Hcat)%Hmem.
    assert (c ≠ "") as Hne by (rewrite <- Hcat; by apply catalog_categories_named).
    eexists. split; [by apply Hlist|]. cbn [listing_count listing_scenarios].
    split; [|split; [|split]].
    + rewrite (count_insert_fold sc_category get_all_scenarios cats ∅ c).
      by rewrite decide_True by done.
    + unfold get_scenarios_by_category.
      assert (sc ∈ filter (fun s => sc_category s = c) get_all_scenarios) as Hin
        by (apply list_elem_of_filter; done).
      destruct (filter _ _); [by apply elem_of_nil in Hin | simpl; lia].
    + reflexivity.
    + apply Forall_forall. intros s Hs.
      apply list_elem_of_filter in Hs as [? ?]. done.
  - intros c Hc. split.
    + rewrite (count_insert_fold sc_category get_all_scenarios cats ∅ c).
      by rewrite decide_False by done.
    + intros Hne. rewrite Hlist by done. f_equal.
      assert (get_scenarios_by_category c = []) as ->; [|done].
      unfold get_scenarios_by_category.
      destruct (filter _ _) as [|s rest] eqn:Hf; [done|]. exfalso. apply Hc, Hmem.
      assert (s ∈ filter (fun s => sc_category s = c) get_all_scenarios) as Hin
        by (rewrite Hf; left).
      apply list_elem_of_filter in Hin as [? ?]. by exists s.
  - transitivity (length get_all_scenarios); [|reflexivity].
    rewrite <- (counts_add_up sc_category get_all_scenarios cats Hnd)
      by (intros s Hs; apply Hmem; by exists s).
    apply (f_equal sum_list). apply list_fmap_ext. intros i c Hc.
    rewrite (count_insert_fold sc_category get_all_scenarios cats ∅ c).
    rewrite decide_True; [done|]. by eapply list_elem_of_lookup_2.
Qed.

(** ** The price route *)

Lemma prefix_spec needle hay :
  String.prefix needle hay = true ↔ ∃ post, hay = needle +:+ post.
Proof.
  revert hay. induction needle as [|a needle IH]; intros hay.
  - split; [intros _; by exists hay|]. intros _. by destruct hay.
  - destruct hay as [|b hay].
    + split; [discriminate | intros [post Hp]; discriminate].
    + cbn [String.prefix]. destruct (Ascii.ascii_dec a b) as [->|Hne].
      * rewrite IH. split; intros [post Hp]; exists post.
        -- simpl. by rewrite Hp.
        -- simpl in Hp. by injection Hp.
      * split; [discriminate|]. intros [post Hp]. simpl in Hp. injection Hp as Hab _.
        congruence.
Qed.

Lemma py_contains_spec needle hay :
  py_contains needle hay = true ↔ ∃ pre post, hay = pre +:+ needle +:+ post.
Proof.
  induction hay as [|b hay IH]; cbn [py_contains].
  - rewrite orb_false_r, prefix_spec. split.
    + intros [post Hp]. by exists "", post.
    + intros (pre & post & Hp). destruct pre; [by exists post | discriminate].
  - rewrite orb_true_iff, prefix_spec, IH. split.
    + intros [[post Hp] | (pre & post & Hp)].
      * by exists "", post.
      * exists (String b pre), post. simpl. by rewrite Hp.
    + intros (pre & post & Hp). destruct pre as [|c pre].
      * left. by exists post.
      * right. simpl in Hp. injection Hp as _ Hp. by exists pre, post.
Qed.

Lemma assoc_get_elem {A : Type} (kvs : list (string * A)) key v :
  assoc_get kvs key = Some v → (key, v) ∈ kvs.
Proof.
  intros H. apply assoc_get_lookup in H as [j Hj]. by eapply list_elem_of_lookup_2.
Qed.

Lemma selection_lookup (prices_ : list (string * list Q)) (P : string → Prop)
    `{∀ name, Decision (P name)} :
  NoDup prices_.*1 →
  ∀ name series,
    (list_to_map (filter (fun kv => P kv.1) prices_) : gmap string (list Q)) !! name = Some series
    ↔ (name, series) ∈ prices_ ∧ P name.
Proof.
  intros Hnd name series.
  rewrite <- elem_of_list_to_map.
  - by rewrite list_elem_of_filter, (comm and).
  - eapply sublist_NoDup; [exact Hnd | apply fmap_sublist, sublist_filter].
Qed.

(** X18.  The route [/api/prices] always answers 200 with the dates of the file
    and a selection of its series, each as stored, as a JSON object: a map
    from name to series ([jsonify] sorts the keys, so nothing of the order
    of the file is kept).  With a [region] alone the selection is every
    series whose name contains the region as a substring, and likewise for
    a [type] alone.  With both, the series named [region_type] alone is
    returned when the file has it; when it has not, the request is not
    refused and not answered with an empty selection: all the series are
    returned, as for a request without arguments.  An empty argument
    counts as absent. *)
Theorem price_selection (data : data_file) (region price_type : option string) :
  NoDup (data_prices data).*1 →
  let stored name series := (name, series) ∈ data_prices data in
  ∃ selection,
    get_prices data region price_type = Json selection
    ∧ listing_dates selection = data_dates data
    ∧ (∀ name series, listing_prices selection !! name = Some series → stored name series)
    ∧ (arg_given region = false → arg_given price_type = false →
       ∀ name series, listing_prices selection !! name = Some series ↔ stored name series)
    ∧ (∀ r, region = Some r → r ≠ "" → arg_given price_type = false →
       ∀ name series,
         listing_prices selection !! name = Some series
         ↔ stored name series ∧ ∃ pre post, name = pre +:+ r +:+ post)
    ∧ (∀ t, price_type = Some t → t ≠ "" → arg_given region = false →
       ∀ name series,
         listing_prices selection !! name = Some series
         ↔ stored name series ∧ ∃ pre post, name = pre +:+ t +:+ post)
    ∧ (∀ r t, region = Some r → r ≠ "" → price_type = Some t → t ≠ "" →
       match assoc_get (data_prices data) (r +:+ "_" +:+ t) with
       | Some series => listing_prices selection = {[ r +:+ "_" +:+ t := series ]}
       | None =>
           ∀ name series, listing_prices selection !! name = Some series ↔ stored name series
       end).
Proof.
  intros Hnd stored.
  assert (∀ name series,
            (list_to_map (data_prices data) : gmap string (list Q)) !! name = Some series
            ↔ stored name series) as Hall.
  { intros name series. symmetry. by apply elem_of_list_to_map. }
  assert (∀ s name series,
            (list_to_map (filter (fun kv : string * list Q => py_contains s kv.1 = true)
                            (data_prices data)) : gmap string (list Q)) !! name = Some series
            ↔ stored name series ∧ ∃ pre post, name = pre +:+ s +:+ post) as Hfilter.
  { intros s name series.
    etrans;
      [exact (selection_lookup (data_prices data) (fun name => py_contains s name = true)
                Hnd name series)|].
    by rewrite py_contains_spec. }
  assert (∀ s, s ≠ "" → arg_given (Some s) = true) as Hgiven.
  { intros s Hs. simpl. by rewrite bool_decide_eq_false_2. }
  unfold get_prices.
  destruct (arg_given region) eqn:Hr, (arg_given price_type) eqn:Ht; cbn [andb].
  - destruct region as [r|]; [|discriminate]. destruct price_type as [t|]; [|discriminate].
    cbn [default from_option]; unfold id.
    destruct (assoc_get (data_prices data) (r +:+ "_" +:+ t)) as [series|] eqn:Hkey;
      eexists; (split; [reflexivity|]); cbn [listing_dates listing_prices];
      (split; [reflexivity|]); (split; [|split; [discriminate|]]).
    + intros name series' Hin. apply lookup_singleton_Some in Hin as [<- <-].
      by apply assoc_get_elem.
    + split; [intros; discriminate|]. split; [intros; discriminate|].
      intros r' t' [= <-] _ [= <-] _. by rewrite Hkey.
    + intros name series. apply Hall.
    + split; [intros; discriminate|]. split; [intros; discriminate|].
      intros r' t' [= <-] _ [= <-] _. rewrite Hkey. exact Hall.
  - destruct region as [r|]; [|discriminate]. cbn [default from_option]; unfold id.
    eexists. split; [reflexivity|]. cbn [listing_dates listing_prices].
    split; [reflexivity|]. split; [|split; [discriminate|]].
    + intros name series Hin. by apply Hfilter in Hin as [? _].
    + split; [intros r' [= <-] _ _; apply Hfilter|].
      split; [intros; discriminate|].
      intros r' t' _ _ -> Hne. rewrite Hgiven in Ht by done. discriminate.
  - destruct price_type as [t|]; [|discriminate]. cbn [default from_option]; unfold id.
    eexists. split; [reflexivity|]. cbn [listing_dates listing_prices].
    split; [reflexivity|]. split; [|split; [discriminate|]].
    + intros name series Hin. by apply Hfilter in Hin as [? _].
    + split; [intros r' -> Hne; rewrite Hgiven in Hr by done; discriminate|].
      split; [intros t' [= <-] _ _; apply Hfilter|].
      intros r' t' -> Hne. rewrite Hgiven in Hr by done. discriminate.
  - eexists. split; [reflexivity|]. cbn [listing_dates listing_prices].
    split; [reflexivity|]. split; [intros name series; apply Hall|].
    split; [intros _ _; exact Hall|].
    split; [intros r' -> Hne; rewrite Hgiven in Hr by done; discriminate|].
    split; [intros t' -> Hne; rewrite Hgiven in Ht by done; discriminate|].
    intros r' t' -> Hne. rewrite Hgiven in Hr by done. discriminate.
Qed.

Lemma price_selection_witness :
  NoDup [("us_ech", [0.65]); ("eu_ech", [0.96]); ("glycerin", [0.36])].*1
  ∧ ∃ selection,
      get_prices (DataFile None [Date 2020 1 31]
                    [("us_ech", [0.65]); ("eu_ech", [0.96]); ("glycerin", [0.36])])
        None (Some "ech") = Json selection
      ∧ listing_prices selection !! "eu_ech" = Some [0.96]
      ∧ listing_prices selection !! "glycerin" = None.
Proof.
  assert (NoDup [("us_ech", [0.65]); ("eu_ech", [0.96]); ("glycerin", [0.36])].*1) as Hnd
    by (apply (bool_decide_unpack _); vm_compute; exact I).
  split; [exact Hnd|].
  destruct (price_selection
              (DataFile None [Date 2020 1 31]
                 [("us_ech", [0.65]); ("eu_ech", [0.96]); ("glycerin", [0.36])])
              None (Some "ech") Hnd)
    as (selection & Hrun & _ & _ & _ & _ & Htype & _).
  exists selection. split; [exact Hrun|].
  pose proof (Htype "ech" eq_refl ltac:(done) eq_refl) as Hsel. split.
  - apply Hsel. split; [set_solver|]. by exists "eu_", "".
  - destruct (listing_prices selection !! "glycerin") as [series|] eqn:Hg; [|done].
    apply Hsel in Hg as [_ (pre & post & Hname)]. exfalso.
    assert (py_contains "ech" "glycerin" = true) as Hc
      by (apply py_contains_spec; by exists pre, post).
    vm_compute in Hc. discriminate.
Defined.

(** ** The generated price series *)

Lemma py_max_cases a b : (b <= a ∧ py_max a b = a) ∨ (a < b ∧ py_max a b = b).
Proof.
  unfold py_max. destruct (Qle_bool b a) eqn:E.
  - left. by apply Qle_bool_iff in E.
  - right. split; [|done]. apply Qnot_le_lt. intros H. apply Qle_bool_iff in H. congruence.
Qed.

(** [max(lo, min(hi, x))] lies between [lo] and [hi] when [lo <= hi]. *)
Lemma clamp_bounds lo hi x :
  lo <= hi → lo <= py_max lo (py_min hi x) ∧ py_max lo (py_min hi x) <= hi.
Proof.
  intros Hle.
  destruct (py_min_cases hi x) as [[? ->]|[? ->]];
    [destruct (py_max_cases lo hi) as [[? ->]|[? ->]]
    |destruct (py_max_cases lo x) as [[? ->]|[? ->]]]; lra.
Qed.

Section PriceSeries.

Context `{RT : Runtime}.
Variable np_sin_twelfths : nat → Q.
Variable config : price_config_t.

#[local] Abbreviation lo := (py_round (cfg_base config - cfg_range config) 4).
#[local] Abbreviation hi := (py_round (cfg_base config + cfg_range config) 4).

Hypothesis Hscale : 0 <= cfg_base config * cfg_volatility config.
Hypothesis Hrange : 0 <= cfg_range config.

(** What holds of the series after [k] steps of the loop. *)
Lemma price_step_spec prices_ i st :
  prices_ ≠ [] →
  ∃ p st',
    price_step np_sin_twelfths config prices_ i st = (Ok (prices_ ++ [p])%list, st')
    ∧ lo <= p ∧ p <= hi.
Proof.
  intros Hne. unfold price_step, mbind, M_mbind, M_bind, lift, np_random_normal.
  rewrite (proj2 (Qltb_false _ _)) by exact Hscale.
  destruct (standard_normal st) as [z st1].
  destruct (py_last_ok prices_ Hne) as (last_price & -> & _).
  cbn [mret M_mret M_ret]. eexists _, _. split; [reflexivity|].
  match goal with
  | |- context [py_max ?a (py_min ?b ?x)] =>
      destruct (clamp_bounds a b x) as [H1 H2]; [lra|]
  end.
  split; by apply py_round_mono.
Qed.

Lemma price_loop_spec n :
  ∀ s prices_ st,
    prices_ ≠ [] →
    ∃ new st',
      for_each (seq s n) (price_step np_sin_twelfths config) prices_ st
      = (Ok (prices_ ++ new)%list, st')
      ∧ length new = n
      ∧ Forall (fun p => lo <= p ∧ p <= hi) new.
Proof.
  induction n as [|n IH]; intros s prices_ st Hne.
  - exists [], st. rewrite app_nil_r. by repeat split.
  - simpl seq. cbn [for_each]. unfold mbind, M_mbind, M_bind.
    destruct (price_step_spec prices_ s st Hne) as (p & st1 & -> & Hp).
    destruct (IH (S s) (prices_ ++ [p])%list st1) as (new & st' & -> & Hlen & Hall).
    { by destruct prices_. }
    exists (p :: new), st'. rewrite <- app_assoc. split; [done|].
    split; [simpl; lia | by constructor].
Qed.

End PriceSeries.

(** X19.  For a configuration with a non-negative range and a non-negative
    noise scale [base * volatility], [generate_price_series] returns a
    series that starts at the base price and has one price per period,
    but never less than one: a generator of zero periods still yields the
    base price.  Every price after the first is
    rounded to four decimals and lies between the rounded bounds
    [base - range] and [base + range], whatever the noise and the seasonal
    term. *)
Theorem generated_series_within_range `{RT : Runtime} (np_sin_twelfths : nat → Q)
    (self : generator) (config : price_config_t) (st : rng) :
  0 <= cfg_base config * cfg_volatility config →
  0 <= cfg_range config →
  ∃ prices_ st',
    generate_price_series np_sin_twelfths self config st = (Ok prices_, st')
    ∧ length prices_ = Nat.max 1 (gen_periods self)
    ∧ prices_ !! 0%nat = Some (cfg_base config)
    ∧ ∀ i p, (0 < i)%nat → prices_ !! i = Some p →
        py_round (cfg_base config - cfg_range config) 4 <= p
        ∧ p <= py_round (cfg_base config + cfg_range config) 4.
Proof.
  intros Hscale Hrange.
  unfold generate_price_series, mbind, M_mbind, M_bind, seed_generator.
  destruct (price_loop_spec np_sin_twelfths config Hscale Hrange (gen_periods self - 1) 1
              [cfg_base config] (np_random_seed 42)) as (new & st' & -> & Hlen & Hall);
    [done|].
  eexists _, _. split; [reflexivity|].
  split; [simpl; lia|]. split; [done|].
  intros [|i] p Hi Hp; [lia|]. simpl in Hp.
  rewrite Forall_forall in Hall. apply Hall. by eapply list_elem_of_lookup_2.
Qed.

Lemma generated_series_within_range_witness :
  ∃ prices_ st',
    generate_price_series (RT := sample_runtime) sample_sine
      (ECHDataGenerator (Date 2020 1 1) 3) (PriceConfig 0.65 0.12 0.03) 7%Z
    = (Ok prices_, st')
    ∧ length prices_ = 3%nat.
Proof.
  destruct (generated_series_within_range (RT := sample_runtime) sample_sine
              (ECHDataGenerator (Date 2020 1 1) 3) (PriceConfig 0.65 0.12 0.03) 7%Z)
    as (prices_ & st' & Hrun & Hlen & _).
  - vm_compute. discriminate.
  - vm_compute. discriminate.
  - by exists prices_, st'.
Defined.

(** ** From the generator to the engine *)

Lemma Qsum_positive xs : xs ≠ [] → Forall (fun p => 0 < p) xs → 0 < Qsum xs.
Proof.
  intros Hne Hall. induction Hall as [|x xs Hx Hall IH]; [done|].
  simpl. fold (Qsum xs). destruct xs as [|y xs].
  - simpl. lra.
  - assert (0 < Qsum (y :: xs)) by (by apply IH). lra.
Qed.

Lemma month_end_range_length start n : length (month_end_range start n) = n.
Proof. unfold month_end_range. by rewrite length_fmap, length_seq. Qed.

(** The bounds of every shipped configuration are sound and positive. *)
Lemma price_config_sound :
  Forall (fun item : string * price_config_t =>
            0 <= cfg_base item.2 * cfg_volatility item.2
            ∧ 0 <= cfg_range item.2
            ∧ 0 < cfg_base item.2
            ∧ 0 < py_round (cfg_base item.2 - cfg_range item.2) 4) price_config.
Proof.
  unfold price_config. repeat constructor; vm_compute; congruence.
Qed.

Section AllSeries.

Context `{RT : Runtime}.
Variable np_sin_twelfths : nat → Q.
Variable self : generator.

Lemma series_positive config st :
  0 <= cfg_base config * cfg_volatility config → 0 <= cfg_range config →
  0 < cfg_base config → 0 < py_round (cfg_base config - cfg_range config) 4 →
  ∃ prices_ st',
    generate_price_series np_sin_twelfths self config st = (Ok prices_, st')
    ∧ length prices_ = Nat.max 1 (gen_periods self)
    ∧ Forall (fun p => 0 < p) prices_.
Proof.
  intros Hscale Hrange Hbase Hlo.
  unfold generate_price_series, mbind, M_mbind, M_bind, seed_generator.
  destruct (price_loop_spec np_sin_twelfths config Hscale Hrange (gen_periods self - 1) 1
              [cfg_base config] (np_random_seed 42)) as (new & st' & -> & Hlen & Hall);
    [done|].
  eexists _, _. split; [reflexivity|]. split; [simpl; lia|].
  constructor; [exact Hbase|].
  eapply Forall_impl; [exact Hall|]. intros p [Hp _]. simpl in Hp. lra.
Qed.

Lemma all_series_spec configs :
  Forall (fun item : string * price_config_t =>
            0 <= cfg_base item.2 * cfg_volatility item.2
            ∧ 0 <= cfg_range item.2
            ∧ 0 < cfg_base item.2
            ∧ 0 < py_round (cfg_base item.2 - cfg_range item.2) 4) configs →
  ∀ acc st, ∃ new st',
    for_each configs (series_step np_sin_twelfths self) acc st = (Ok (acc ++ new)%list, st')
    ∧ new.*1 = configs.*1
    ∧ Forall (fun kv : string * list Q =>
                length kv.2 = Nat.max 1 (gen_periods self) ∧ Forall (fun p => 0 < p) kv.2) new.
Proof.
  induction 1 as [|item configs (H1 & H2 & H3 & H4) _ IH]; intros acc st.
  - exists [], st. rewrite app_nil_r. by repeat split.
  - cbn [for_each]. unfold mbind, M_mbind, M_bind, series_step at 1.
    unfold mbind, M_mbind, M_bind.
    destruct (series_positive item.2 st H1 H2 H3 H4) as (series & st1 & -> & Hlen & Hpos).
    cbn [mret M_mret M_ret].
    destruct (IH (acc ++ [(item.1, series)])%list st1) as (new & st' & -> & Hkeys & Hall).
    exists ((item.1, series) :: new), st'. rewrite <- app_assoc. split; [done|].
    split; [by rewrite !fmap_cons, Hkeys|]. by constructor.
Qed.

End AllSeries.

Lemma default_duration_numeric sc :
  sc ∈ SCENARIOS_list →
  ∃ d, param_get (sc_parameters sc) "duration_months" (VNum 12) = VNum d.
Proof.
  intros Hsc. destruct (catalog_defaults sc Hsc) as [Hnum _].
  unfold param_get. destruct (sc_parameters sc !! "duration_months") as [v|] eqn:Hv.
  - specialize (Hnum _ _ Hv ltac:(done)). destruct v as [d|]; [by exists d | done].
  - by eexists.
Qed.



(** ** Regenerating the data *)

Section Reproducible.

Context `{RT : Runtime}.
Variable np_sin_twelfths : nat → Q.
Variable self : generator.

Lemma series_ignores_state config st1 st2 :
  generate_price_series np_sin_twelfths self config st1
  = generate_price_series np_sin_twelfths self config st2.
Proof. reflexivity. Qed.

Lemma series_loop_ignores_state configs :
  ∀ acc st1 st2,
    (for_each configs (series_step np_sin_twelfths self) acc st1).1
    = (for_each configs (series_step np_sin_twelfths self) acc st2).1.
Proof.
  destruct configs as [|item configs]; intros acc st1 st2; [done|].
  cbn [for_each]. unfold mbind, M_mbind, M_bind, series_step at 1 3.
  unfold mbind, M_mbind, M_bind.
  by rewrite (series_ignores_state item.2 st1 st2).
Qed.

End Reproducible.

(** X21.  [generate_all_data] seeds the generator anew for every series, so the
    data it returns does not depend on the state of NumPy's generator when
    it is called: regenerating with the same start date and number of
    periods gives the same dates and the same prices, and the same
    metadata except for its ['generated_at'] entry, which is the reading
    of the clock at each call.  Two calls at the same reading return the
    same data. *)
Theorem generated_data_reproducible `{RT : Runtime} (np_sin_twelfths : nat → Q)
    (self : generator) (now1 now2 : string) (st1 st2 : rng) :
  match (generate_all_data np_sin_twelfths now1 self st1).1,
        (generate_all_data np_sin_twelfths now2 self st2).1 with
  | Ok data1, Ok data2 =>
      data_dates data2 = data_dates data1
      ∧ data_prices data2 = data_prices data1
      ∧ ∃ meta1 meta2,
          data_metadata data1 = Some meta1 ∧ data_metadata data2 = Some meta2
          ∧ generated_at meta1 = now1 ∧ generated_at meta2 = now2
          ∧ meta_start_date meta2 = meta_start_date meta1
          ∧ meta_periods meta2 = meta_periods meta1
          ∧ meta_unit meta2 = meta_unit meta1
          ∧ meta_note meta2 = meta_note meta1
  | Raise e1, Raise e2 => e1 = e2
  | _, _ => False
  end
  ∧ (now1 = now2 →
     (generate_all_data np_sin_twelfths now1 self st1).1
     = (generate_all_data np_sin_twelfths now2 self st2).1).
Proof.
  unfold generate_all_data, mbind, M_mbind, M_bind.
  pose proof (series_loop_ignores_state np_sin_twelfths self (gen_price_config self) [] st1 st2)
    as Hloop.
  destruct (for_each _ _ [] st1) as [[p1|e1] s1], (for_each _ _ [] st2) as [[p2|e2] s2];
    simpl in Hloop; try discriminate; injection Hloop as ->; simpl.
  - split; [|by intros ->].
    split; [done|]. split; [done|]. eexists _, _. by repeat split.
  - split; [done | by intros _].
Qed.

(** ** The shape of a simulation result *)

Lemma assoc_get_is_Some {A : Type} (kvs : list (string * A)) key :
  key ∈ kvs.*1 → is_Some (assoc_get kvs key).
Proof.
  induction kvs as [|[k v] kvs IH]; intros Hin; [by apply elem_of_nil in Hin|].
  simpl. case_decide as Hk; [by eexists|].
  apply IH. rewrite fmap_cons in Hin. apply elem_of_cons in Hin as [Heq|Hin]; [|done].
  simpl in Heq. congruence.
Qed.

Lemma filter_agree {A : Type} (P Q : A → Prop) `{∀ x, Decision (P x)} `{∀ x, Decision (Q x)}
    (xs : list A) :
  (∀ x, x ∈ xs → (P x ↔ Q x)) → filter P xs = filter Q xs.
Proof.
  induction xs as [|x xs IH]; intros Hall; [done|].
  rewrite !filter_cons.
  pose proof (Hall x ltac:(left)) as Hx.
  rewrite IH by (intros y Hy; apply Hall; by right).
  destruct (decide (P x)), (decide (Q x)); tauto || done.
Qed.

Section ResultShape.

Context `{RT : Runtime}.

(** A returned series is as long as its baseline. *)
Lemma apply_region_length baseline effect duration total st sim st' :
  apply_region baseline effect duration total st = (Ok sim, st') →
  length sim = length baseline.
Proof.
  destruct duration as [d|s]; [|rewrite apply_region_str; discriminate].
  rewrite apply_region_num. intros Hloop.
  apply (for_each_partial _ (fun _ result_ => length result_ = length baseline)) in Hloop;
    [done| |done].
  intros k i result_ st0 result' st1 _ Hlen.
  unfold apply_period, mbind, M_mbind, M_bind, lift.
  destruct (current_effect _ _ _ _ _) as [ce|]; [|discriminate].
  destruct (np_random_normal _ _ _) as [[noise|] st2]; [|discriminate].
  destruct (py_index baseline i) as [b|]; [|discriminate].
  unfold py_setitem. case_decide; [|discriminate].
  intros [= <- _]. by rewrite length_insert.
Qed.

Variables (self : engine) (effects : gmap string Q) (duration : value).

Lemma region_loop_keys total rs :
  ∀ acc st sims st',
    for_each rs (region_step self effects duration total) acc st = (Ok sims, st') →
    ∃ new,
      sims = (acc ++ new)%list
      ∧ new.*1 = filter (fun r => is_Some (prices self !! r)) rs
      ∧ Forall (fun kv => ∃ baseline, prices self !! kv.1 = Some baseline
                                      ∧ length kv.2 = length baseline) new.
Proof.
  induction rs as [|r rs IH]; intros acc st sims st'.
  - simpl. intros [= <- _]. exists []. by rewrite app_nil_r.
  - cbn [for_each]. unfold mbind, M_mbind, M_bind, region_step at 1.
    rewrite filter_cons.
    destruct (prices self !! r) as [baseline|] eqn:Hr.
    + unfold mbind, M_mbind, M_bind.
      destruct (apply_region baseline _ duration total st) as [[sim|] st1] eqn:Hrun;
        [|discriminate].
      cbn [mret M_mret M_ret]. intros Hloop.
      destruct (IH _ _ _ _ Hloop) as (new & -> & Hkeys & Hall).
      exists ((r, sim) :: new). rewrite <- app_assoc. split; [done|].
      rewrite decide_True by (by eexists). split; [by rewrite fmap_cons, Hkeys|].
      constructor; [|done]. exists baseline. split; [done|].
      by eapply apply_region_length.
    + cbn [mret M_mret M_ret]. intros Hloop.
      destruct (IH _ _ _ _ Hloop) as (new & -> & Hkeys & Hall).
      exists new. by rewrite decide_False by (intros [? ?]; done).
Qed.

End ResultShape.

(** X22.  Whenever [apply_scenario] returns, the parts of its result fit
    together: the simulated series, the metrics and the forecast entries
    all cover the same regions in the same order, namely the engine regions
    that the baseline has a series for; every simulated series is as long
    as its baseline series; the forecast has 12 dates; and the baseline
    prices and the dates are handed back as the engine holds them. *)
Theorem simulation_result_shape `{RT : Runtime} (self : engine) (scenario_id : Z)
    (custom : option (list (string * value))) (st : rng)
    (r : simulation_result) (st' : rng) :
  apply_scenario self scenario_id custom st = (Ok r, st') →
  res_scenario_id r = scenario_id
  ∧ (simulated_prices r).*1 = present_regions self
  ∧ (metrics r).*1 = present_regions self
  ∧ (fc_regions (forecast r)).*1 = present_regions self
  ∧ length (fc_dates (forecast r)) = 12%nat
  ∧ baseline_prices r = prices self
  ∧ res_dates r = dates self
  ∧ ∀ region sim, (region, sim) ∈ simulated_prices r →
      ∃ baseline, prices self !! region = Some baseline ∧ length sim = length baseline.
Proof.
  unfold apply_scenario. destruct (get_scenario scenario_id) as [sc|]; [|discriminate].
  unfold mbind, M_mbind, M_bind, lift.
  destruct (_calculate_price_effects sc _) as [eff|]; [|discriminate].
  destruct (_apply_effects self eff _ st) as [[simulated|] st1] eqn:Hsim; [|discriminate].
  destruct (_calculate_metrics self simulated) as [ms|] eqn:Hms; [|discriminate].
  destruct (_generate_forecast self simulated _ 12 st1) as [[fc|] st2] eqn:Hfc; [|discriminate].
  cbn [mret M_mret M_ret]. intros [= <- _].
  cbn [res_scenario_id simulated_prices metrics forecast baseline_prices res_dates].
  revert Hsim. unfold _apply_effects, mbind, M_mbind, M_bind, seed_generator. intros Hsim.
  apply region_loop_keys in Hsim as (new & -> & Hkeys & Hall). simpl in *.
  fold (present_regions self) in Hkeys.
  split; [done|]. split; [exact Hkeys|]. split.
  { unfold _calculate_metrics in Hms.
    destruct (metrics_loop_entries _ _ _ _ _ Hms) as (entries & -> & Hmkeys & _).
    rewrite app_nil_l, Hmkeys. unfold present_regions. apply filter_agree. intros region Hregion. split; [tauto|].
    intros Hp. split; [|done]. apply assoc_get_is_Some. rewrite Hkeys.
    apply list_elem_of_filter. by split. }
  pose proof (_generate_forecast_returns self new _ 12 (fun _ => True)
                ltac:(done) ltac:(done) st1 fc st2 Hfc)
    as (_ & Hfkeys & (last_date & _ & Hdates) & _).
  split; [by rewrite Hfkeys|]. split; [rewrite Hdates; apply forecast_dates_length|].
  split; [done|]. split; [done|].
  intros region sim Hin. rewrite Forall_forall in Hall. exact (Hall _ Hin).
Qed.

Lemma simulation_result_shape_witness :
  ∃ r st',
    apply_scenario (RT := sample_runtime) sample_engine 6 None 0%Z = (Ok r, st')
    ∧ (metrics r).*1 = present_regions sample_engine.
Proof.
  destruct (apply_scenario (RT := sample_runtime) sample_engine 6 None 0%Z)
    as [[r|e] st'] eqn:Hrun; [|vm_compute in Hrun; discriminate].
  exists r, st'. split; [reflexivity|].
  exact (proj1 (proj2 (proj2 (simulation_result_shape (RT := sample_runtime) sample_engine 6
                                None 0%Z r st' Hrun)))).
Defined.

(** ** The unit of the baseline *)

Lemma scale_baseline_prices k self r :
  prices (scale_baseline k self) !! r
  = (fun series : list Q => Qmult k <$> series) <$> prices self !! r.
Proof. unfold scale_baseline. simpl. apply lookup_fmap. Qed.

Lemma scale_baseline_present k self : present_regions (scale_baseline k self) = present_regions self.
Proof.
  unfold present_regions. apply list_filter_iff. intros r.
  rewrite scale_baseline_prices. by rewrite fmap_is_Some.
Qed.

Lemma scale_baseline_covers k self :
  baseline_covers_dates self → baseline_covers_dates (scale_baseline k self).
Proof.
  intros Hcov r baseline. rewrite scale_baseline_prices.
  destruct (prices self !! r) as [b|] eqn:Hb; [|discriminate].
  simpl. intros [= <-]. rewrite length_fmap. exact (Hcov r b Hb).
Qed.

(** Two series simulated from a baseline and from its multiple, with the
    same effect and the same noise. *)
Lemma region_simulated_scaled `{RT : Runtime} k baseline effect d total st sim sim' :
  region_simulated baseline effect d total st sim →
  region_simulated (Qmult k <$> baseline) effect d total st sim' →
  scaled_by k sim sim'.
Proof.
  intros (Hlen & Hout & Hin) (Hlen' & Hout' & Hin').
  rewrite length_fmap in Hlen'.
  apply Forall2_same_length_lookup_2; [congruence|].
  intros i x y Hx Hy.
  assert (i < length baseline)%nat as Hi by (rewrite <- Hlen; by eapply lookup_lt_Some).
  destruct (lookup_lt_is_Some_2 baseline i Hi) as [b Hb].
  assert ((Qmult k <$> baseline) !! i = Some (k * b)) as Hb'
    by (by rewrite list_lookup_fmap, Hb).
  destruct (decide (scenario_start total ≤ i < total)%nat) as [Hrange|Houtside].
  - rewrite (Hin i b Hrange Hb) in Hx. rewrite (Hin' i (k * b) Hrange Hb') in Hy.
    injection Hx as <-. injection Hy as <-. unfold simulated_value. ring.
  - rewrite (Hout i ltac:(lia)), Hb in Hx. rewrite (Hout' i ltac:(lia)), Hb' in Hy.
    injection Hx as <-. injection Hy as <-. reflexivity.
Qed.



(** ** The model at work *)

(** Scenario 1 with its defaults: 3.3% a year over two years at elasticity
    0.6, on the region with multiplier 1.0. *)
Example demand_growth_default_eu :
  ∃ eff eu,
    _calculate_price_effects scenario_1 (sc_parameters scenario_1) = Ok eff
    ∧ eff !! "eu_ech" = Some eu ∧ eu == 0.0396.
Proof. eexists _, _. split; [vm_compute; reflexivity|]. split; reflexivity. Qed.

(** Overriding the region of the plant shutdown moves the direct effect. *)
Example plant_shutdown_us :
  ∃ eff us eu,
    _calculate_price_effects scenario_8
      (merge_params (sc_parameters scenario_8) (Some [("region_affected", VStr "us")]))
    = Ok eff
    ∧ eff !! "us_ech" = Some us ∧ us == 0.17
    ∧ eff !! "eu_ech" = Some eu ∧ eu == 0.0255.
Proof.
  eexists _, _, _. split; [vm_compute; reflexivity|].
  repeat split; reflexivity.
Qed.

(** A string where a number is expected raises [TypeError]. *)
Example string_parameter_raises :
  _calculate_price_effects scenario_6
    (merge_params (sc_parameters scenario_6) (Some [("supply_reduction", VStr "high")]))
  = Raise TypeError.
Proof. vm_compute. reflexivity. Qed.

(** An unknown scenario id raises [ValueError] and leaves the generator alone. *)
Example unknown_scenario_raises :
  apply_scenario (RT := sample_runtime) sample_engine 17 None 5%Z = (Raise ValueError, 5%Z).
Proof. reflexivity. Qed.

(** Month ends are clipped: one, two and three months after 31 December. *)
Example month_end_dates :
  forecast_dates (Date 2024 12 31) 3 = [Date 2025 1 31; Date 2025 2 28; Date 2025 3 31].
Proof. reflexivity. Qed.

(** Which strategy answers: Prophet when it is available, the fallback when
    it is missing and when it raises. *)
Example strategy_selection :
  fc_model <$> is_forecast
    (_generate_forecast (RT := sample_runtime) sample_engine [("us_ech", sample_baseline)]
       (sc_parameters scenario_6) 2 0%Z).1 = Some "prophet"
  ∧ fc_model <$> is_forecast
      (_generate_forecast (RT := fallback_runtime) sample_engine [("us_ech", sample_baseline)]
         (sc_parameters scenario_6) 2 0%Z).1 = Some "simple_fallback"
  ∧ fc_model <$> is_forecast
      (_generate_forecast (RT := failing_runtime) sample_engine [("us_ech", sample_baseline)]
         (sc_parameters scenario_6) 2 0%Z).1 = Some "simple_fallback".
Proof. repeat split; vm_compute; reflexivity. Qed.

(** A body that is JSON but no object never reaches the engine, and a
    ['custom_params'] that is [0] or an empty list counts as no overrides. *)
Example simulate_bodies :
  (simulate_scenario (RT := sample_runtime) sample_engine 6 JsonOther 3%Z)
  = (Failure ErrorPage 500, 3%Z)
  ∧ simulate_scenario (RT := sample_runtime) sample_engine 6 (JsonObject (NotAnObject false)) 3%Z
    = simulate_scenario (RT := sample_runtime) sample_engine 6 NotJson 3%Z.
Proof. split; reflexivity. Qed.

(** A frame shorter than the history cannot take the historical regressor. *)
Example short_frame_raises :
  _extend_scenario_regressor 5 (sc_parameters scenario_6) 10 12 = Raise ValueError.
Proof. vm_compute. reflexivity. Qed.

(** An empty simulated series against a baseline of mean zero: the division
    is attempted, and raises, before the maximum is asked for. *)
Example zero_mean_baseline_raises :
  region_metrics_of [1; -1] [] = Raise ZeroDivisionError
  ∧ region_metrics_of [1; 2] [] = Raise ValueError.
Proof. split; reflexivity. Qed.
